(** * The task-coordination layer of web-scraper-agent

    A shallow embedding of the coordination code of the repository
    (db_new.py, worker_new.py, multi_worker.py, redis_manager.py and
    api_server.py) together with the properties its specification states
    about it.

    Conventions of the embedding
    - A Python [str] is a [string]; a character is a code point below 256,
      and the character functions ([isspace], [lower]) are Python's on that
      range.
    - A Python [dict] used as a map is a [gmap]; Python lists are lists.
    - The SQLite table [raw_scrapes] is the list of its rows in rowid order
      (the order in which a scan without ORDER BY visits them); the primary
      key is the invariant [wf_table].
    - SQLite's CURRENT_TIMESTAMP and the threshold that
      [release_stuck_processing] formats are whole seconds; they are modelled
      as the integer number of seconds, whose order is the order of the
      fixed-width texts that the database compares.
    - Calls that leave the coordination layer (the LLM extraction, the
      persistence of a profile, the scraping graph) are parameters: for each
      call, either a returned value or a raised exception with its message.
    - The statements on the database and on Redis are taken to succeed, and
      each function runs from its first statement to its last before the
      next one starts. *)

From Stdlib Require Import ZArith Ascii Lia Bool.
From stdpp Require Import base list gmap strings fin_maps pretty.

Local Open Scope Z_scope.

(** ** Python strings *)

Module PyStr.

(** [str.isspace] on one code point below 256. *)
Definition isspace (c : ascii) : bool :=
  let n := nat_of_ascii c in
  ((9 <=? n) && (n <=? 13) || (28 <=? n) && (n <=? 32)
   || (n =? 133) || (n =? 160))%nat.

(** [str.lower] on one code point below 256: A-Z, and the upper-case
    Latin-1 letters (all of U+00C0..U+00DE but the multiplication sign). *)
Definition lower_char (c : ascii) : ascii :=
  let n := nat_of_ascii c in
  if ((65 <=? n) && (n <=? 90)
      || (192 <=? n) && (n <=? 222) && negb (n =? 215))%nat
  then ascii_of_nat (n + 32) else c.

Fixpoint lower (s : string) : string :=
  match s with
  | EmptyString => EmptyString
  | String c s' => String (lower_char c) (lower s')
  end.

(** [s.replace(a, b)] for one-character [a] and [b]. *)
Fixpoint replace (a b : ascii) (s : string) : string :=
  match s with
  | EmptyString => EmptyString
  | String c s' => String (if decide (c = a) then b else c) (replace a b s')
  end.

(** [s.split()]: the maximal runs of characters that are not white space.
    [cur] is the run being read. *)
Fixpoint split_from (cur : string) (s : string) : list string :=
  match s with
  | EmptyString => if decide (cur = "") then [] else [cur]
  | String c s' =>
      if isspace c
      then (if decide (cur = "") then split_from "" s'
            else cur :: split_from "" s')
      else split_from (cur +:+ String c "") s'
  end.

Definition split (s : string) : list string := split_from "" s.

Fixpoint lstrip (s : string) : string :=
  match s with
  | EmptyString => EmptyString
  | String c s' => if isspace c then lstrip s' else s
  end.

Fixpoint rstrip (s : string) : string :=
  match s with
  | EmptyString => EmptyString
  | String c s' =>
      match rstrip s' with
      | EmptyString => if isspace c then EmptyString else String c EmptyString
      | r => String c r
      end
  end.

(** [s.strip()] *)
Definition strip (s : string) : string := rstrip (lstrip s).

(** [s.startswith(p)] *)
Fixpoint startswith (p s : string) : bool :=
  match p, s with
  | EmptyString, _ => true
  | String a p', String b s' => if decide (a = b) then startswith p' s' else false
  | String _ _, EmptyString => false
  end.

(** [s[n:]] for [n >= 0] *)
Fixpoint slice_from (n : nat) (s : string) : string :=
  match n, s with
  | O, _ => s
  | S n', String _ s' => slice_from n' s'
  | S _, EmptyString => EmptyString
  end.

(** [s[:n]] for [n >= 0] *)
Fixpoint slice_to (n : nat) (s : string) : string :=
  match n, s with
  | S n', String c s' => String c (slice_to n' s')
  | _, _ => EmptyString
  end.

(** [s[-n:]] for [n > 0] *)
Definition slice_last (n : nat) (s : string) : string :=
  slice_from (String.length s - n) s.

(** [s.endswith(suffix)] *)
Definition endswith (suffix s : string) : bool :=
  bool_decide
    (slice_from (String.length s - String.length suffix) s = suffix).

(** What follows the first occurrence of [sep] in [s], if there is one. *)
Fixpoint after_first (sep s : string) : option string :=
  if startswith sep s then Some (slice_from (String.length sep) s)
  else match s with
       | EmptyString => None
       | String _ s' => after_first sep s'
       end.

(** [s.split(sep, 1)[-1]] *)
Definition split1_last (sep s : string) : string :=
  default s (after_first sep s).

(** [s.split(sep)[0]]: what precedes the first occurrence of [sep]. *)
Fixpoint split_head (sep s : string) : string :=
  if startswith sep s then EmptyString
  else match s with
       | EmptyString => EmptyString
       | String c s' => String c (split_head sep s')
       end.

Definition slash : ascii := "/"%char.

(** The characters of a string. *)
Fixpoint chars (s : string) : list ascii :=
  match s with
  | EmptyString => []
  | String c s' => c :: chars s'
  end.

(** A string without white space. *)
Definition nospace (s : string) : Prop :=
  Forall (λ c, isspace c = false) (chars s).

End PyStr.

(** ** api_server.py: key normalisation *)

Module ApiNormalize.
Import PyStr.

(** The body of the inner loop of [normalize_domains]: what one token
    appends to [cleaned]. *)
Definition clean_token (cleaned : list string) (token : string) : list string :=
  let d := strip token in
  if decide (d = "") then cleaned
  else
    let d := lower d in
    let d := if startswith "http://" d || startswith "https://" d
             then split1_last "://" d else d in
    let d := split_head "/" d in
    cleaned ++ [d].

Definition entry_tokens (entry : string) : list string :=
  split (replace "," " " entry).

Definition clean_entry (cleaned : list string) (entry : string) : list string :=
  if decide (entry = "") then cleaned
  else fold_left clean_token (entry_tokens entry) cleaned.

(** One turn of the second loop, on the pair [(seen, result)]. *)
Definition dedupe_step (st : gset string * list string) (d : string)
  : gset string * list string :=
  if decide (d ∈ st.1) then st else ({[d]} ∪ st.1, st.2 ++ [d]).

Definition normalize_domains (raw_domains : list string) : list string :=
  let cleaned := fold_left clean_entry raw_domains [] in
  (fold_left dedupe_step cleaned (∅, [])).2.

(** The tokens of the submitted entries, in order: the keys that the caller
    submitted, one entry holding several when it separates them by commas or
    white space. *)
Definition raw_tokens (raw_domains : list string) : list string :=
  raw_domains ≫= entry_tokens.

(** What [cleaned] receives for a token. *)
Definition key_of (token : string) : string :=
  let d := lower (strip token) in
  let d := if startswith "http://" d || startswith "https://" d
           then split1_last "://" d else d in
  split_head "/" d.

(** [d] is the token [t] in lower case without its scheme [http://] or
    [https://] and without what starts at its first ['/']. *)
Definition normal_form (t d : string) : Prop :=
  ∃ scheme path,
    lower t = scheme +:+ d +:+ path
    ∧ (scheme = "http://" ∨ scheme = "https://"
       ∨ (scheme = "" ∧ startswith "http://" (lower t) = false
                      ∧ startswith "https://" (lower t) = false))
    ∧ (slash ∉ chars d)
    ∧ (path = "" ∨ ∃ rest, path = String "/" rest).

End ApiNormalize.

(** ** db_new.py: the table [raw_scrapes] *)

Module Db.

(** One row of [raw_scrapes]; [domain] is the primary key. *)
Record Row := mkRow {
  domain : string;
  snapshot_path : string;
  clean_text : string;
  tech_stack : string;
  status : string;
  created_at : Z;
  updated_at : Z
}.

#[export] Instance Row_eq_dec : EqDecision Row.
Proof. solve_decision. Defined.

Definition set_status (st : string) (now : Z) (r : Row) : Row :=
  mkRow (domain r) (snapshot_path r) (clean_text r) (tech_stack r)
        st (created_at r) now.

(** The primary-key constraint. *)
Definition wf_table (tbl : list Row) : Prop := NoDup (domain <$> tbl).

(** [INSERT ... ON CONFLICT(domain) DO UPDATE SET ...]: the conflicting row
    takes the submitted columns and a new [updated_at]; [created_at] is not
    in the SET list. Without a conflict the row is inserted, both
    timestamps taking their default CURRENT_TIMESTAMP. The Python default
    of [status] is ["READY"]. *)
Definition on_conflict (now : Z) (dom sp ct ts st : string) (r : Row) : Row :=
  if decide (domain r = dom)
  then mkRow (domain r) sp ct ts st (created_at r) now
  else r.

Definition upsert_raw_scrape (now : Z)
    (dom snapshot_path clean_text tech_stack_json status : string)
    (tbl : list Row) : list Row :=
  if decide (dom ∈ domain <$> tbl)
  then on_conflict now dom snapshot_path clean_text tech_stack_json status <$> tbl
  else tbl ++ [mkRow dom snapshot_path clean_text tech_stack_json status now now].

(** [UPDATE raw_scrapes SET status=?, updated_at=CURRENT_TIMESTAMP
    WHERE domain=?] *)
Definition update_raw_status (now : Z) (dom st : string) (tbl : list Row)
  : list Row :=
  (λ r, if decide (domain r = dom) then set_status st now r else r) <$> tbl.

(** The three columns that [claim_pending_raw] selects. *)
Record Pending := mkPending {
  p_domain : string;
  p_clean_text : string;
  p_tech_stack : string
}.

Definition select_columns (r : Row) : Pending :=
  mkPending (domain r) (clean_text r) (tech_stack r).

(** [LIMIT ?]: SQLite reads a negative limit as no limit. *)
Definition sql_limit {A} (limit : Z) (l : list A) : list A :=
  if limit <? 0 then l else take (Z.to_nat limit) l.

(** [SELECT domain, clean_text, tech_stack FROM raw_scrapes
    WHERE status='READY' LIMIT ?] *)
Definition select_ready (limit : Z) (tbl : list Row) : list Pending :=
  select_columns <$> sql_limit limit (filter (λ r, status r = "READY") tbl).

(** [UPDATE raw_scrapes SET status='PROCESSING',
    updated_at=CURRENT_TIMESTAMP WHERE domain=? AND status='READY'] *)
Definition mark_processing (now : Z) (tbl : list Row) (row : Pending)
  : list Row :=
  (λ r, if decide (domain r = p_domain row ∧ status r = "READY")
        then set_status "PROCESSING" now r else r) <$> tbl.

(** [claim_pending_raw]: the SELECT and the UPDATEs run inside one
    BEGIN IMMEDIATE transaction, so the whole call is one step on the
    table. [worker_id] is accepted and not stored. *)
Definition claim_pending_raw (now : Z) (worker_id : string) (limit : Z)
    (tbl : list Row) : list Pending * list Row :=
  let rows := select_ready limit tbl in
  (rows, fold_left (mark_processing now) rows tbl).

(** The keys of the rows that a claim returned. *)
Definition claimed_keys (rows : list Pending) : list string := p_domain <$> rows.

(** One row of [metrics]. The duration is the difference of the two
    readings of the clock. *)
Record Metric := mkMetric {
  m_domain : string;
  m_start_time : Z;
  m_end_time : Z;
  m_duration : Z;
  m_success : bool;
  m_error_msg : option string
}.

Definition insert_metric (m : Metric) (metrics : list Metric) : list Metric :=
  metrics ++ [m].

(** The rows that a claim may take. *)
Definition ready_rows (tbl : list Row) : list Row :=
  filter (λ r, status r = "READY") tbl.

End Db.

(** ** multi_worker.py: the sweep of the supervisor *)

Module MultiWorker.
Import Db.

(** The WHERE clause of [release_stuck_processing]. *)
Definition stuck (threshold : Z) (r : Row) : Prop :=
  status r = "PROCESSING" ∧ updated_at r < threshold.

#[export] Instance stuck_dec threshold r : Decision (stuck threshold r).
Proof. unfold stuck. apply _. Defined.

(** [utcnow] is the reading of [datetime.utcnow()], [now] the
    CURRENT_TIMESTAMP of the UPDATE. The result is the table and
    [cur.rowcount]. *)
Definition release_stuck_processing (utcnow now : Z) (timeout_seconds : Z)
    (tbl : list Row) : Z * list Row :=
  let threshold := utcnow - timeout_seconds in
  let tbl' := (λ r, if decide (stuck threshold r)
                    then set_status "READY" now r else r) <$> tbl in
  let released := Z.of_nat (length (filter (stuck threshold) tbl)) in
  (released, tbl').

(** [is_queue_empty] *)
Definition is_queue_empty (tbl : list Row) : bool :=
  bool_decide
    (filter (λ r, status r = "READY" ∨ status r = "PROCESSING") tbl = []).

End MultiWorker.

(** ** Values shared by the workers and the API *)

Module Py.

(** A call that may raise: the value it returns, or the message
    [str(e)] of the exception [e] (an instance of [Exception]). *)
Inductive Outcome (A : Type) : Type :=
| Returned (a : A)
| Raised (msg : string).
Arguments Returned {A} a.
Arguments Raised {A} msg.

(** An extracted profile: a JSON object. The coordination code tests it
    for emptiness and hands it on; its values are kept as texts. *)
Definition Profile : Type := list (string * string).

(** Truth value of a dict. *)
Definition truthy (p : Profile) : bool :=
  match p with [] => false | _ => true end.

(** [s or default] on strings. *)
Definition str_or (s default : string) : string :=
  if decide (s = "") then default else s.

(** The profile tables, as the list of the profiles that
    [save_extracted_data] stored, in order. *)
Definition Sink : Type := list (string * Profile).

(** A Python dict as the list of its items in insertion order, for the
    places where the code iterates over it. [d[k] = v] keeps the position of
    a key that is present. *)
Fixpoint dict_set {V} (k : string) (v : V) (d : list (string * V))
  : list (string * V) :=
  match d with
  | [] => [(k, v)]
  | (k', v') :: d' =>
      if decide (k' = k) then (k, v) :: d' else (k', v') :: dict_set k v d'
  end.

(** [d.get(k)] *)
Fixpoint dict_get {V} (k : string) (d : list (string * V)) : option V :=
  match d with
  | [] => None
  | (k', v') :: d' => if decide (k' = k) then Some v' else dict_get k d'
  end.

End Py.

(** ** load_and_scrape_input.py: registration of a batch of keys *)

Module Loader.
Import Py Db.

(** The arguments of one call of [upsert_raw_scrape]. *)
Record Entry := mkEntry {
  e_domain : string;
  e_snapshot_path : string;
  e_clean_text : string;
  e_tech_stack : string;
  e_status : string
}.

Definition upsert (now : Z) (tbl : list Row) (e : Entry) : list Row :=
  upsert_raw_scrape now (e_domain e) (e_snapshot_path e) (e_clean_text e)
                    (e_tech_stack e) (e_status e) tbl.

Section scrape_and_enqueue.
(** [scrape_domain]: the snapshot path, the clean text and the tech stack
    (as the JSON text that [json.dumps] gives), or an exception. *)
Variable scrape_domain : string → Outcome (string * string * string).

(** What the body of the loop upserts for one domain. *)
Definition entry_of (dom : string) : Entry :=
  match scrape_domain dom with
  | Returned (snapshot, text, tech) =>
      if decide (text = "") then mkEntry dom "" "" "[]" "FAILED"
      else mkEntry dom snapshot text tech "READY"
  | Raised _ => mkEntry dom "" "" "[]" "FAILED"
  end.

(** [if max_domains: domains = domains[:max_domains]] *)
Definition truncate (max_domains : option Z) (doms : list string)
  : list string :=
  match max_domains with
  | None => doms
  | Some n =>
      if decide (n = 0) then doms
      else if n <? 0 then take (Z.to_nat (Z.of_nat (length doms) + n)) doms
      else take (Z.to_nat n) doms
  end.

(** [now] is the second in which the batch is written. *)
Definition scrape_and_enqueue (now : Z) (doms : list string)
    (max_domains : option Z) (tbl : list Row) : list Row :=
  fold_left (λ t d, upsert now t (entry_of d)) (truncate max_domains doms) tbl.

End scrape_and_enqueue.

(** The conflict branch of the upsert on one row. *)
Definition overwrite (now : Z) (r : Row) (e : Entry) : Row :=
  on_conflict now (e_domain e) (e_snapshot_path e) (e_clean_text e)
              (e_tech_stack e) (e_status e) r.

(** The row that holds the columns of an entry. *)
Definition row_of (e : Entry) (created now : Z) : Row :=
  mkRow (e_domain e) (e_snapshot_path e) (e_clean_text e) (e_tech_stack e)
        (e_status e) created now.

(** A row with its [updated_at] set to [now]. *)
Definition touch (now : Z) (r : Row) : Row :=
  mkRow (domain r) (snapshot_path r) (clean_text r) (tech_stack r)
        (status r) (created_at r) now.

End Loader.

(** ** worker_new.py: one iteration of the worker *)

Module Worker.
Import Py Db.

Record World := mkWorld {
  raw_scrapes : list Row;
  metrics : list Metric;
  saved : Sink
}.

(** Code that reads and writes the database and may raise. A raised
    exception keeps the writes committed before it. *)
Definition M (A : Type) : Type := World → Outcome A * World.

Definition ret {A} (a : A) : M A := λ w, (Returned a, w).

Definition bind {A B} (m : M A) (k : A → M B) : M B :=
  λ w, match m w with
       | (Returned a, w') => k a w'
       | (Raised e, w') => (Raised e, w')
       end.

(** [try: body except Exception as e: handler(str(e))] *)
Definition try_except {A} (body : M A) (handler : string → M A) : M A :=
  λ w, match body w with
       | (Returned a, w') => (Returned a, w')
       | (Raised e, w') => handler e w'
       end.

#[export] Instance M_ret : MRet M := @ret.
#[export] Instance M_bind : MBind M := λ A B k m, bind m k.

Fixpoint for_each {A} (l : list A) (body : A → M ()) : M () :=
  match l with
  | [] => mret ()
  | x :: l' => body x;; for_each l' body
  end.

(** The readings of the clocks during one call of [process_once]. *)
Record Clock := mkClock {
  claim_now : Z;
  start_time : Z;
  end_time : Z;
  update_now : Z
}.

Section process_once.
(** [json.loads] on the stored tech stack; [None] when it raises one of
    the three exceptions caught around it. *)
Variable json_loads : string → option (list string).
(** The extraction and the persistence of a profile. *)
Variable extract_profile : string → string → list string → Outcome Profile.
Variable save_extracted_data : string → Profile → Outcome ().
Variable clock : Clock.

Definition db_claim_pending_raw (worker_id : string) (limit : Z)
  : M (list Pending) :=
  λ w, let '(rows, tbl) :=
         claim_pending_raw (claim_now clock) worker_id limit (raw_scrapes w) in
       (Returned rows, mkWorld tbl (metrics w) (saved w)).

Definition db_update_raw_status (dom st : string) : M () :=
  λ w, (Returned (),
        mkWorld (update_raw_status (update_now clock) dom st (raw_scrapes w))
                (metrics w) (saved w)).

Definition db_insert_metric (dom : string) (success : bool)
    (error_msg : option string) : M () :=
  λ w, (Returned (),
        mkWorld (raw_scrapes w)
                (insert_metric
                   (mkMetric dom (start_time clock) (end_time clock)
                             (end_time clock - start_time clock)
                             success error_msg)
                   (metrics w))
                (saved w)).

Definition call_extract_profile (dom text : string) (tech : list string)
  : M Profile :=
  λ w, (extract_profile dom text tech, w).

Definition call_save_extracted_data (dom : string) (profile : Profile)
  : M () :=
  λ w, match save_extracted_data dom profile with
       | Returned _ =>
           (Returned (),
            mkWorld (raw_scrapes w) (metrics w) (saved w ++ [(dom, profile)]))
       | Raised e => (Raised e, w)
       end.

(** The body of the loop over the claimed rows. *)
Definition process_row (row : Pending) : M () :=
  let dom := p_domain row in
  let text := str_or (p_clean_text row) "" in
  let tech_stack_json := str_or (p_tech_stack row) "[]" in
  let tech := default [] (json_loads tech_stack_json) in
  try_except
    (profile ← call_extract_profile dom text tech;
     if truthy profile then
       call_save_extracted_data dom profile;;
       db_update_raw_status dom "DONE";;
       db_insert_metric dom true None
     else
       db_update_raw_status dom "DONE";;
       db_insert_metric dom false (Some "No data extracted"))
    (λ e,
       let error_msg := PyStr.slice_to 500 e in
       db_update_raw_status dom "FAILED";;
       db_insert_metric dom false (Some error_msg)).

Definition process_once (worker_id : string) : M Z :=
  pending ← db_claim_pending_raw worker_id 1;
  if decide (pending = []) then mret 0
  else for_each pending process_row;; mret (Z.of_nat (length pending)).

(** multi_worker.py, [worker_process]: one turn of the loop. Sleeping
    and logging leave the database as it is. *)
Definition worker_turn (worker_id : string) : M () :=
  try_except
    (processed ← process_once worker_id; mret ())
    (λ e, mret ()).

(** The loop of [worker_process], for as many turns as there are worker
    identifiers drawn. *)
Fixpoint worker_loop (worker_ids : list string) : M () :=
  match worker_ids with
  | [] => mret ()
  | worker_id :: ids => worker_turn worker_id;; worker_loop ids
  end.

(** The extraction of the row, or the persistence of what was extracted
    from it, raises an exception with message [msg]. *)
Definition pipeline_raises (row : Pending) (msg : string) : Prop :=
  let dom := p_domain row in
  let text := str_or (p_clean_text row) "" in
  let tech := default [] (json_loads (str_or (p_tech_stack row) "[]")) in
  extract_profile dom text tech = Raised msg
  ∨ ∃ profile, extract_profile dom text tech = Returned profile
               ∧ truthy profile = true
               ∧ save_extracted_data dom profile = Raised msg.

(** What the extraction answers for the row. *)
Definition extraction_of (row : Pending) : Outcome Profile :=
  extract_profile (p_domain row) (str_or (p_clean_text row) "")
    (default [] (json_loads (str_or (p_tech_stack row) "[]"))).

(** The row of [metrics] that reports a failure. *)
Definition failure_metric (dom error_msg : string) : Metric :=
  mkMetric dom (start_time clock) (end_time clock)
           (end_time clock - start_time clock) false (Some error_msg).

End process_once.

End Worker.

(** ** Job statuses *)

Module JobStatus.

(** The status texts that the code assigns to a job: ["pending"],
    ["processing"], ["waiting_approval"] and ["completed"]. *)
Inductive job_status : Type :=
| Pending
| Processing
| WaitingApproval
| Completed.

#[export] Instance job_status_eq_dec : EqDecision job_status.
Proof. solve_decision. Defined.

(** The order of the specification:
    PENDING < PROCESSING < {AWAITING_APPROVAL, COMPLETED}. *)
Definition rank (s : job_status) : nat :=
  match s with
  | Pending => 0
  | Processing => 1
  | WaitingApproval => 2
  | Completed => 2
  end.

End JobStatus.

(** ** redis_manager.py: jobs of the parallel mode *)

Module RedisManager.
Import Py JobStatus.

Record JobMetrics := mkJobMetrics {
  start_time : option Z;
  end_time : option Z;
  domain_timings : list (string * Z)
}.

Record Job := mkJob {
  job_id : string;
  domains : list string;
  total : Z;
  completed : Z;
  failed : Z;
  status : job_status;
  created_at : Z;
  started_at : option Z;
  completed_at : option Z;
  metrics : JobMetrics
}.

Record Result := mkResult {
  r_job_id : string;
  r_domain : string;
  r_success : bool;
  r_completed_at : Z;
  r_data : option Profile;
  r_error : option string
}.

Record Task := mkTask {
  t_job_id : string;
  t_domain : string;
  t_queued_at : Z
}.

(** The Redis keys that the manager writes: the values under the keys
    [job:...] and [result:...], each the value that its JSON text encodes,
    and the list [domain:pending]. Expiry of keys is left out. *)
Record Redis := mkRedis {
  jobs : gmap string Job;
  results : gmap string Result;
  pending_queue : list Task
}.

Definition job_key (job_id : string) : string := "job:" +:+ job_id.
Definition result_key (job_id dom : string) : string :=
  "result:" +:+ job_id +:+ ":" +:+ dom.

(** [create_job]; [new_id] is the fresh uuid, which is also returned. *)
Definition create_job (now : Z) (new_id : string) (doms : list string)
    (rd : Redis) : string * Redis :=
  let job_data :=
    mkJob new_id doms (Z.of_nat (length doms)) 0 0 Pending now None None
          (mkJobMetrics None None []) in
  (new_id,
   mkRedis (<[job_key new_id := job_data]> (jobs rd))
           (results rd)
           (pending_queue rd ++ ((λ d, mkTask new_id d now) <$> doms))).

(** The update of the job inside [submit_result]. *)
Definition count_result (now : Z) (success : bool) (job : Job) : Job :=
  let completed' := if success then completed job + 1 else completed job in
  let failed' := if success then failed job else failed job + 1 in
  let start' := match start_time (metrics job) with
                | None => Some now
                | Some t => Some t
                end in
  if bool_decide (completed' + failed' >= total job) then
    mkJob (job_id job) (domains job) (total job) completed' failed'
          Completed (created_at job) (started_at job) (Some now)
          (mkJobMetrics start' (Some now) (domain_timings (metrics job)))
  else if decide (status job = Pending) then
    mkJob (job_id job) (domains job) (total job) completed' failed'
          Processing (created_at job) (Some now) (completed_at job)
          (mkJobMetrics start' (end_time (metrics job))
                        (domain_timings (metrics job)))
  else
    mkJob (job_id job) (domains job) (total job) completed' failed'
          (status job) (created_at job) (started_at job) (completed_at job)
          (mkJobMetrics start' (end_time (metrics job))
                        (domain_timings (metrics job))).

Definition submit_result (now : Z) (jid dom : string) (success : bool)
    (data : option Profile) (error : option string) (rd : Redis) : Redis :=
  let result := mkResult jid dom success now data error in
  let results' := <[result_key jid dom := result]> (results rd) in
  match jobs rd !! job_key jid with
  | Some job =>
      mkRedis (<[job_key jid := count_result now success job]> (jobs rd))
              results' (pending_queue rd)
  | None => mkRedis (jobs rd) results' (pending_queue rd)
  end.

(** One call of [submit_result], as data. *)
Record Submission := mkSubmission {
  s_now : Z;
  s_domain : string;
  s_success : bool;
  s_data : option Profile;
  s_error : option string
}.

Definition submit (jid : string) (rd : Redis) (s : Submission) : Redis :=
  submit_result (s_now s) jid (s_domain s) (s_success s) (s_data s)
                (s_error s) rd.

(** A task on its way through a worker: the queued task with the worker
    and the time at which it was taken. *)
Record WorkerTask := mkWorkerTask {
  w_job_id : string;
  w_domain : string;
  w_queued_at : Z;
  w_worker_id : string;
  w_started_at : Z
}.

(** The keys of [Redis] together with the keys [processing:...]. *)
Record Broker := mkBroker {
  store : Redis;
  processing : gmap string WorkerTask
}.

Definition processing_key (worker_id jid dom : string) : string :=
  "processing:" +:+ worker_id +:+ ":" +:+ jid +:+ ":" +:+ dom.

(** [get_next_task]: BLPOP takes the head of the list; on an empty list it
    gives up after its timeout and the answer is [None]. *)
Definition get_next_task (now : Z) (worker_id : string) (bk : Broker)
  : option WorkerTask * Broker :=
  match pending_queue (store bk) with
  | [] => (None, bk)
  | t :: queue =>
      let task :=
        mkWorkerTask (t_job_id t) (t_domain t) (t_queued_at t) worker_id now in
      (Some task,
       mkBroker (mkRedis (jobs (store bk)) (results (store bk)) queue)
                (<[processing_key worker_id (t_job_id t) (t_domain t) := task]>
                   (processing bk)))
  end.

(** The calls of [get_next_task] made one after the other, each with its
    time and worker. *)
Fixpoint take_tasks (calls : list (Z * string)) (bk : Broker)
  : list (option WorkerTask) * Broker :=
  match calls with
  | [] => ([], bk)
  | (now, worker_id) :: calls' =>
      let '(task, bk1) := get_next_task now worker_id bk in
      let '(tasks, bk2) := take_tasks calls' bk1 in
      (task :: tasks, bk2)
  end.

(** [get_job_status]: the job and the dict [results] that is stored into
    it, holding the stored result of each domain of the job that has one. *)
Definition get_job_status (jid : string) (rd : Redis)
  : option (Job * list (string * Result)) :=
  match jobs rd !! job_key jid with
  | None => None
  | Some job =>
      Some (job,
            fold_left
              (λ acc dom,
                 match results rd !! result_key jid dom with
                 | Some result => dict_set dom result acc
                 | None => acc
                 end)
              (domains job) [])
  end.

Definition get_queue_size (rd : Redis) : Z :=
  Z.of_nat (length (pending_queue rd)).

Definition get_all_results (jid : string) (rd : Redis)
  : list (string * Result) :=
  match get_job_status jid rd with
  | Some (_, res) => res
  | None => []
  end.

Definition clear_job (jid : string) (rd : Redis) : Redis :=
  match get_job_status jid rd with
  | None => rd
  | Some (job, _) =>
      mkRedis (delete (job_key jid) (jobs rd))
              (fold_left (λ m dom, delete (result_key jid dom) m)
                         (domains job) (results rd))
              (pending_queue rd)
  end.

End RedisManager.

(** ** api_server.py: jobs of the sequential mode and the approval queue *)

Module ApiServer.
Import Py JobStatus.

Record LogEntry := mkLog {
  timestamp : string;
  level : string;
  message : string
}.

(** The dict stored in [processing_jobs] by
    [process_domains_background]. *)
Record Job := mkJob {
  status : job_status;
  total : Z;
  completed : Z;
  failed : Z;
  current_domain : option string;
  logs : list LogEntry;
  pending_approvals : gmap string Profile;
  approved_data : gmap string Profile;
  rejected_domains : list string
}.

(** The module-level dict [processing_jobs] and the profile tables. *)
Record Api := mkApi {
  processing_jobs : gmap string Job;
  saved : Sink
}.

(** What [process_domain] returns: the keys of the final state of the
    agent that the caller reads. *)
Record AgentResult := mkAgentResult {
  extracted_data : Profile;
  ag_status : string;
  ag_error : option string
}.

Definition add_log (ts lvl msg : string) (j : Job) : Job :=
  mkJob (status j) (total j) (completed j) (failed j) (current_domain j)
        (logs j ++ [mkLog ts lvl msg])
        (pending_approvals j) (approved_data j) (rejected_domains j).

Definition set_job_status (s : job_status) (j : Job) : Job :=
  mkJob s (total j) (completed j) (failed j) (current_domain j) (logs j)
        (pending_approvals j) (approved_data j) (rejected_domains j).

Definition set_current_domain (d : option string) (j : Job) : Job :=
  mkJob (status j) (total j) (completed j) (failed j) d (logs j)
        (pending_approvals j) (approved_data j) (rejected_domains j).

Definition incr_completed (j : Job) : Job :=
  mkJob (status j) (total j) (completed j + 1) (failed j) (current_domain j)
        (logs j) (pending_approvals j) (approved_data j) (rejected_domains j).

Definition incr_failed (j : Job) : Job :=
  mkJob (status j) (total j) (completed j) (failed j + 1) (current_domain j)
        (logs j) (pending_approvals j) (approved_data j) (rejected_domains j).

Definition set_pending (m : gmap string Profile) (j : Job) : Job :=
  mkJob (status j) (total j) (completed j) (failed j) (current_domain j)
        (logs j) m (approved_data j) (rejected_domains j).

Definition set_approved (m : gmap string Profile) (j : Job) : Job :=
  mkJob (status j) (total j) (completed j) (failed j) (current_domain j)
        (logs j) (pending_approvals j) m (rejected_domains j).

Definition add_rejected (d : string) (j : Job) : Job :=
  mkJob (status j) (total j) (completed j) (failed j) (current_domain j)
        (logs j) (pending_approvals j) (approved_data j)
        (rejected_domains j ++ [d]).

Section background.
(** The scraping graph, [process_domain(domain, skip_save=True)]. *)
Variable process_domain : string → Outcome AgentResult.
(** The time of day that the log entries carry. *)
Variable ts : string.

(** The dict that the task stores before its loop. *)
Definition new_job (doms : list string) : Job :=
  add_log ts "info"
    ("🚀 Starting to process " +:+ pretty (length doms) +:+ " domains")
    (mkJob Processing (Z.of_nat (length doms)) 0 0 None [] ∅ ∅ []).

(** The body of the loop over the domains (lines 132-156). *)
Definition process_one (j : Job) (dom : string) : Job :=
  let j := set_current_domain (Some dom) j in
  let j := add_log ts "info" ("🔍 Scraping & Extracting " +:+ dom +:+ "...") j in
  match process_domain dom with
  | Returned result =>
      if truthy (extracted_data result)
         && bool_decide (ag_status result = "extracted")
      then
        add_log ts "info"
          ("⏳ " +:+ dom +:+ " extracted - queued for approval (non-blocking)")
          (set_pending (<[dom := extracted_data result]> (pending_approvals j)) j)
      else
        add_log ts "error"
          ("❌ Failed to extract " +:+ dom +:+ ": "
           +:+ default "Unknown error" (ag_error result))
          (incr_failed j)
  | Raised e =>
      add_log ts "error" ("❌ Error processing " +:+ dom +:+ ": " +:+ e)
        (incr_failed j)
  end.

(** The profile that one turn of the loop queues for approval: that of a
    result whose test in line 138 holds. *)
Definition queued (dom : string) : option Profile :=
  match process_domain dom with
  | Returned result =>
      if truthy (extracted_data result)
         && bool_decide (ag_status result = "extracted")
      then Some (extracted_data result) else None
  | Raised _ => None
  end.

(** The statements after the loop (lines 158-165). *)
Definition finish (j : Job) : Job :=
  let j := set_job_status WaitingApproval j in
  let j := set_current_domain None j in
  let pending_count := size (pending_approvals j) in
  add_log ts "success"
    ("✅ Extraction complete! " +:+ pretty pending_count
     +:+ " awaiting approval, " +:+ pretty (failed j) +:+ " failed") j.

(** [processing_jobs[job_id][...] = ...]: an update of the stored dict. The
    key is present from the first statement of the task on. *)
Definition in_job (jid : string) (f : Job → Job) (api : Api) : Api :=
  mkApi (alter f jid (processing_jobs api)) (saved api).

Definition start_job (jid : string) (doms : list string) (api : Api) : Api :=
  mkApi (<[jid := new_job doms]> (processing_jobs api)) (saved api).

Definition process_domains_background (jid : string) (doms : list string)
    (api : Api) : Api :=
  let api := start_job jid doms api in
  let api := fold_left (λ api dom, in_job jid (λ j, process_one j dom) api)
                       doms api in
  in_job jid finish api.

End background.

(** The body of [AcceptInput]. *)
Record AcceptInput := mkAcceptInput {
  in_job_id : string;
  in_domain : string;
  in_accept : bool
}.

(** An answer of an endpoint: the JSON body, or the [HTTPException]. *)
Inductive Reply (A : Type) : Type :=
| Ok (body : A)
| HttpError (status_code : Z) (detail : string).
Arguments Ok {A} body.
Arguments HttpError {A} status_code detail.

Section accept.
Variable save_extracted_data : string → Profile → Outcome ().
Variable ts : string.

(** The branch [if input_data.accept: ... else: ...] on a job whose
    pending approvals hold [dom]. The second component is the profile
    that reached the tables, if one did. *)
Definition resolve (accept : bool) (dom : string) (data : Profile)
    (j : Job) : Job * option Profile :=
  let j := set_pending (delete dom (pending_approvals j)) j in
  if accept then
    match save_extracted_data dom data with
    | Returned _ =>
        (add_log ts "success" ("✅ Approved and saved " +:+ dom)
           (incr_completed
              (set_approved (<[dom := data]> (approved_data j)) j)),
         Some data)
    | Raised e =>
        (add_log ts "error" ("❌ Failed to save " +:+ dom +:+ ": " +:+ e)
           (incr_failed j),
         None)
    end
  else
    (add_log ts "warning" ("🚫 Rejected " +:+ dom)
       (incr_completed (add_rejected dom j)),
     None).

(** The check that closes a job (lines 490-494). *)
Definition close_if_done (j : Job) : Job :=
  if bool_decide (size (pending_approvals j) = 0%nat)
     && bool_decide (completed j + failed j >= total j)
  then set_job_status Completed j else j.

Definition accept_extracted (input : AcceptInput) (api : Api)
  : Reply (string * string * bool) * Api :=
  match processing_jobs api !! in_job_id input with
  | None => (HttpError 404 "Job not found", api)
  | Some job =>
      match pending_approvals job !! in_domain input with
      | None =>
          (HttpError 404
             ("Domain " +:+ in_domain input +:+ " not in pending approvals"),
           api)
      | Some data =>
          let '(job', stored) :=
            resolve (in_accept input) (in_domain input) data job in
          (Ok (in_job_id input, in_domain input, in_accept input),
           mkApi (<[in_job_id input := close_if_done job']>
                    (processing_jobs api))
                 (match stored with
                  | Some p => saved api ++ [(in_domain input, p)]
                  | None => saved api
                  end))
      end
  end.

End accept.

(** The body of the answer of an endpoint that starts a job; the key
    [mode] is absent from the answer of [start_processing_csv]. *)
Record Started := mkStarted {
  st_job_id : string;
  st_message : string;
  st_count : Z;
  st_mode : option string
}.

(** [start_processing]; [new_id] is the fresh uuid. The second component
    holds the arguments of the background task that was added. *)
Definition start_processing (new_id : string) (input : list string)
  : Reply Started * option (string * list string) :=
  let domains := ApiNormalize.normalize_domains input in
  if decide (domains = []) then
    (HttpError 400 "No valid domains provided", None)
  else
    (Ok (mkStarted new_id "Processing started (sequential)"
           (Z.of_nat (length domains)) (Some "sequential")),
     Some (new_id, domains)).

(** [start_processing_redis]; [redis_available] is the module-level
    [REDIS_AVAILABLE], [new_id] the uuid that [create_job] draws. *)
Definition start_processing_redis (redis_available : bool) (now : Z)
    (new_id : string) (input : list string) (rd : RedisManager.Redis)
  : Reply Started * RedisManager.Redis :=
  if negb redis_available then
    (HttpError 503 "Redis not available. Make sure Redis server is running.",
     rd)
  else
    let domains := ApiNormalize.normalize_domains input in
    if decide (domains = []) then
      (HttpError 400 "No valid domains provided", rd)
    else
      let created := RedisManager.create_job now new_id domains rd in
      (Ok (mkStarted created.1 "Processing started (parallel with Redis)"
             (Z.of_nat (length domains)) (Some "redis_parallel")),
       created.2).

(** Calls of the approval endpoint made one after the other, each with the
    behaviour of the persistence during the call and its time of day. *)
Definition accept_calls
    (calls : list ((string → Profile → Outcome ()) * string * AcceptInput))
    (api : Api) : Api :=
  fold_left (λ api call, (accept_extracted call.1.1 call.1.2 call.2 api).2)
            calls api.

(** The body of the answer of [get_status]. The key [metrics] is present
    for a Redis job only; the values of [approved_data] of a Redis job are
    the [data] of the results, which may be null. *)
Record StatusBody := mkStatusBody {
  b_status : job_status;
  b_total : Z;
  b_completed : Z;
  b_failed : Z;
  b_current_domain : option string;
  b_logs : list LogEntry;
  b_pending_approvals : gmap string Profile;
  b_approved_data : gmap string (option Profile);
  b_rejected_domains : list string;
  b_pending_count : Z;
  b_approved_count : Z;
  b_rejected_count : Z;
  b_mode : string;
  b_metrics : option RedisManager.JobMetrics
}.

Section status.
(** [datetime.isoformat], the text under [completed_at]. *)
Variable isoformat : Z → string.

(** The log entry built from one stored result. *)
Definition result_log (dom : string) (r : RedisManager.Result) : LogEntry :=
  let completed_at := isoformat (RedisManager.r_completed_at r) in
  let timestamp :=
    if decide (completed_at = "") then ""
    else PyStr.slice_last 8 completed_at in
  if RedisManager.r_success r then
    mkLog timestamp "success" ("✅ " +:+ dom +:+ " processed successfully")
  else
    mkLog timestamp "error"
      ("❌ " +:+ dom +:+ " failed: "
       +:+ default "None" (RedisManager.r_error r)).

(** The successful items of the dict of results. *)
Definition successes (results : list (string * RedisManager.Result))
  : list (string * RedisManager.Result) :=
  filter (λ item, RedisManager.r_success item.2 = true) results.

(** [get_status]; [redis_available] is the module-level
    [REDIS_AVAILABLE]. *)
Definition get_status (redis_available : bool) (jid : string)
    (rd : RedisManager.Redis) (api : Api) : Reply StatusBody :=
  match (if redis_available then RedisManager.get_job_status jid rd
         else None) with
  | Some (redis_job, results) =>
      let successful := Z.of_nat (length (successes results)) in
      Ok (mkStatusBody
            (RedisManager.status redis_job) (RedisManager.total redis_job)
            successful (RedisManager.failed redis_job) None
            ((λ item, result_log item.1 item.2) <$> results)
            ∅
            (list_to_map ((λ item, (item.1, RedisManager.r_data item.2))
                            <$> successes results))
            [] 0 successful 0 "redis_parallel"
            (Some (RedisManager.metrics redis_job)))
  | None =>
      match processing_jobs api !! jid with
      | None => HttpError 404 "Job not found"
      | Some job =>
          Ok (mkStatusBody
                (status job) (total job) (completed job) (failed job)
                (current_domain job) (logs job) (pending_approvals job)
                (Some <$> approved_data job) (rejected_domains job)
                (Z.of_nat (size (pending_approvals job)))
                (Z.of_nat (size (approved_data job)))
                (Z.of_nat (length (rejected_domains job)))
                "sequential" None)
      end
  end.

End status.

End ApiServer.

(** ** agent_graph.py: the graph that processes one domain *)

Module AgentGraph.
Import Py.

(** [AgentState] *)
Record AgentState := mkAgentState {
  domain : string;
  raw_html : string;
  preprocessed_text : string;
  llm_response : string;
  extracted_data : Profile;
  status : string;
  error : string;
  messages : list string;
  skip_save : bool
}.

(** [{**state, key: value, ...}] for the keys that the nodes assign. The
    channel [messages] is declared with the reducer [operator.add]: what a
    node returns under it is appended to what the state holds. *)
Definition scraped (html text msg : string) (st : AgentState) : AgentState :=
  mkAgentState (domain st) html text (llm_response st) (extracted_data st)
               "scraped" (error st) (messages st ++ [msg]) (skip_save st).

Definition preprocessed (text msg : string) (st : AgentState) : AgentState :=
  mkAgentState (domain st) (raw_html st) text (llm_response st)
               (extracted_data st) "preprocessed" (error st)
               (messages st ++ [msg]) (skip_save st).

Definition extracted (output : string) (data : Profile) (msg : string)
    (st : AgentState) : AgentState :=
  mkAgentState (domain st) (raw_html st) (preprocessed_text st) output data
               "extracted" (error st) (messages st ++ [msg]) (skip_save st).

Definition moved (new_status msg : string) (st : AgentState) : AgentState :=
  mkAgentState (domain st) (raw_html st) (preprocessed_text st)
               (llm_response st) (extracted_data st) new_status (error st)
               (messages st ++ [msg]) (skip_save st).

Definition failed (new_status e msg : string) (st : AgentState)
  : AgentState :=
  mkAgentState (domain st) (raw_html st) (preprocessed_text st)
               (llm_response st) (extracted_data st) new_status e
               (messages st ++ [msg]) (skip_save st).

Section graph.
(** The request for [https://domain] and the text that BeautifulSoup
    extracts: [response.text] and [text], or the exception. *)
Variable fetch : string → Outcome (string * string).
(** [preprocess_text] of worker_new. *)
Variable preprocess_text : string → Outcome string.
(** [build_prompt(text, domain)], the request to Ollama and [json.loads]:
    [llm_output] and [data], or the exception. *)
Variable generate : string → string → Outcome (string * Profile).
(** [save_extracted_data] of worker_new. *)
Variable save_extracted_data : string → Profile → Outcome ().

Definition scrape_website (st : AgentState) : AgentState :=
  let dom := domain st in
  match fetch dom with
  | Returned (html, text) =>
      scraped html text
        ("[OK] Scraped " +:+ dom +:+ ": " +:+ pretty (String.length text)
         +:+ " chars") st
  | Raised e =>
      failed "scrape_failed" e
        ("[ERR] Scrape failed " +:+ dom +:+ ": " +:+ e) st
  end.

Definition preprocess_content (st : AgentState) : AgentState :=
  let dom := domain st in
  match preprocess_text (preprocessed_text st) with
  | Returned processed =>
      preprocessed processed
        ("[OK] Preprocessed " +:+ dom +:+ ": "
         +:+ pretty (String.length processed) +:+ " chars") st
  | Raised e =>
      failed "preprocess_failed" e
        ("[ERR] Preprocess failed " +:+ dom +:+ ": " +:+ e) st
  end.

Definition extract_with_llm (st : AgentState) : AgentState :=
  let dom := domain st in
  match generate (preprocessed_text st) dom with
  | Returned (llm_output, data) =>
      extracted llm_output data ("[OK] Extracted data for " +:+ dom) st
  | Raised e =>
      failed "extraction_failed" e
        ("[ERR] Extraction failed " +:+ dom +:+ ": " +:+ e) st
  end.

(** The node that saves; the second component is the profile tables. *)
Definition save_to_database (st : AgentState) (sink : Sink)
  : AgentState * Sink :=
  let dom := domain st in
  match save_extracted_data dom (extracted_data st) with
  | Returned _ =>
      (moved "saved" ("[OK] Saved " +:+ dom +:+ " to database") st,
       sink ++ [(dom, extracted_data st)])
  | Raised e =>
      (failed "save_failed" e ("[ERR] Save failed " +:+ dom +:+ ": " +:+ e) st,
       sink)
  end.

Definition should_continue_after_scrape (st : AgentState) : string :=
  if decide (status st = "scraped") then "preprocess" else "end".

Definition should_continue_after_preprocess (st : AgentState) : string :=
  if decide (status st = "preprocessed") then "extract" else "end".

Definition should_continue_after_extract (st : AgentState) : string :=
  if decide (status st = "extracted") then
    if skip_save st then "end" else "save"
  else "end".

(** The compiled graph of [create_agent_graph]: the entry point [scrape],
    the three conditional edges, and the edge from [save] to the end. *)
Definition invoke (st : AgentState) (sink : Sink) : AgentState * Sink :=
  let st := scrape_website st in
  if decide (should_continue_after_scrape st = "preprocess") then
    let st := preprocess_content st in
    if decide (should_continue_after_preprocess st = "extract") then
      let st := extract_with_llm st in
      if decide (should_continue_after_extract st = "save") then
        save_to_database st sink
      else (st, sink)
    else (st, sink)
  else (st, sink).

(** The three nodes before the save all return on [dom], the last one
    with [data]. *)
Definition extraction (dom : string) (data : Profile) : Prop :=
  ∃ html text processed output,
    fetch dom = Returned (html, text)
    ∧ preprocess_text text = Returned processed
    ∧ generate processed dom = Returned (output, data).

Definition initial_state (dom : string) (skip : bool) : AgentState :=
  mkAgentState dom "" "" "" [] "pending" "" [] skip.

Definition process_domain (dom : string) (skip : bool) (sink : Sink)
  : AgentState * Sink :=
  invoke (initial_state dom skip) sink.

End graph.

(** The keys of the final state that [process_domains_background]
    reads. *)
Definition result_of (st : AgentState) : ApiServer.AgentResult :=
  ApiServer.mkAgentResult (extracted_data st) (status st) (Some (error st)).

End AgentGraph.

(** ** redis_worker.py: the worker of the parallel mode *)

Module RedisWorker.
Import Py.

(** What a worker acts on: Redis, the profile tables and its counter
    [processed_count]. *)
Record Env := mkEnv {
  broker : RedisManager.Broker;
  sink : Sink;
  processed_count : Z
}.

Definition M (A : Type) : Type := Env → Outcome A * Env.

Definition ret {A} (a : A) : M A := λ w, (Returned a, w).

Definition bind {A B} (m : M A) (k : A → M B) : M B :=
  λ w, match m w with
       | (Returned a, w') => k a w'
       | (Raised e, w') => (Raised e, w')
       end.

(** [try: body except Exception as e: handler(str(e))] *)
Definition try_except {A} (body : M A) (handler : string → M A) : M A :=
  λ w, match body w with
       | (Returned a, w') => (Returned a, w')
       | (Raised e, w') => handler e w'
       end.

#[export] Instance M_ret : MRet M := @ret.
#[export] Instance M_bind : MBind M := λ A B k m, bind m k.

(** A call that does not touch the state. *)
Definition call {A} (o : Outcome A) : M A := λ w, (o, w).

Section worker.
(** The methods [update_worker_status] and [add_log] that [process_task]
    calls on the manager: what a call answers. *)
Variable update_worker_status :
  string → string → option string → Z → string → Outcome ().
Variable add_log : string → string → string → Outcome ().
(** The nodes of the agent graph. *)
Variable fetch : string → Outcome (string * string).
Variable preprocess_text : string → Outcome string.
Variable generate : string → string → Outcome (string * Profile).
Variable save_extracted_data : string → Profile → Outcome ().
(** [save_extracted_data(domain, result)] on the final state of the
    graph, and the JSON object that is stored for the state. *)
Variable save_state : string → AgentGraph.AgentState → Outcome ().
Variable state_data : AgentGraph.AgentState → Profile.
(** The texts of the duration, and the time of the submission. *)
Variable duration : string.
Variable now : Z.
Variable worker_id : string.

(** [process_domain(domain)], which saves what it extracts. *)
Definition call_process_domain (dom : string) : M AgentGraph.AgentState :=
  λ w,
    let res := AgentGraph.process_domain fetch preprocess_text generate
                 save_extracted_data dom false (sink w) in
    (Returned res.1, mkEnv (broker w) res.2 (processed_count w)).

Definition call_submit_result (jid dom : string) (success : bool)
    (data : option Profile) (error : option string) : M () :=
  λ w,
    (Returned (),
     mkEnv (RedisManager.mkBroker
              (RedisManager.submit_result now jid dom success data error
                 (RedisManager.store (broker w)))
              (RedisManager.processing (broker w)))
           (sink w) (processed_count w)).

Definition count_processed : M () :=
  λ w, (Returned (), mkEnv (broker w) (sink w) (processed_count w + 1)).

(** What the branches of [process_task] submit for the final state
    [result] of the graph. *)
Definition report (dom : string) (result : AgentGraph.AgentState)
  : RedisManager.Submission :=
  let status := AgentGraph.status result in
  if negb (PyStr.endswith "failed" status) then
    RedisManager.mkSubmission now dom true (Some (state_data result)) None
  else
    let error_msg := AgentGraph.error result in
    let error_msg :=
      if bool_decide (error_msg = "") && negb (bool_decide (status = ""))
      then "Status " +:+ status else error_msg in
    RedisManager.mkSubmission now dom false None (Some error_msg).

Definition process_task (task : RedisManager.WorkerTask) : M () :=
  let job_id := RedisManager.w_job_id task in
  let dom := RedisManager.w_domain task in
  let status_to progress st :=
    call (update_worker_status job_id worker_id (Some dom) progress st) in
  let log level msg := call (add_log job_id level msg) in
  status_to 10 "processing";;
  log "info" ("🔍 Worker " +:+ worker_id +:+ " started processing " +:+ dom);;
  try_except
    (status_to 30 "processing";;
     log "info" ("📝 Extracting profile from " +:+ dom +:+ "...");;
     result ← call_process_domain dom;
     status_to 70 "processing";;
     let status := AgentGraph.status result in
     let failed := PyStr.endswith "failed" status in
     (if negb failed then
        status_to 90 "processing";;
        log "success"
          ("✅ " +:+ dom +:+ " processed successfully in " +:+ duration
           +:+ "s");;
        call_submit_result job_id dom true (Some (state_data result)) None;;
        try_except
          (call (save_state dom result);;
           status_to 100 "complete";;
           log "info" ("💾 Saved " +:+ dom +:+ " to database"))
          (λ db_error,
             status_to 100 "complete";;
             log "warning"
               ("⚠️ DB save failed for " +:+ dom +:+ ": "
                +:+ PyStr.slice_to 100 db_error))
      else
        let error_msg := AgentGraph.error result in
        let error_msg :=
          if bool_decide (error_msg = "") && negb (bool_decide (status = ""))
          then "Status " +:+ status else error_msg in
        status_to 100 "error";;
        log "error"
          ("❌ " +:+ dom +:+ " failed: " +:+ PyStr.slice_to 100 error_msg);;
        call_submit_result job_id dom false None (Some error_msg));;
     count_processed)
    (λ e,
       status_to 100 "error";;
       log "error" ("❌ Exception: " +:+ PyStr.slice_to 100 e);;
       call_submit_result job_id dom false None (Some e));;
  call (update_worker_status job_id worker_id None 0 "idle").

(** [get_next_task] at the time [started]. *)
Definition call_get_next_task (started : Z)
  : M (option RedisManager.WorkerTask) :=
  λ w,
    let res := RedisManager.get_next_task started worker_id (broker w) in
    (Returned res.1, mkEnv res.2 (sink w) (processed_count w)).

(** One turn of the loop of [start]. *)
Definition worker_turn (started : Z) : M () :=
  try_except
    (task ← call_get_next_task started;
     match task with
     | None => mret ()
     | Some task => process_task task
     end)
    (λ e, mret ()).

(** The turns of the loop of [start] at the given times. *)
Fixpoint worker_turns (times : list Z) : M () :=
  match times with
  | [] => mret ()
  | started :: times' => worker_turn started;; worker_turns times'
  end.

End worker.

End RedisWorker.

(** ** The events that change a job *)

Module Events.
Import Py JobStatus.

(** The jobs of both modes. *)
Record System := mkSystem {
  redis : RedisManager.Redis;
  api : ApiServer.Api
}.

(** A result submitted by a Redis worker, a result recorded by one turn of
    the loop of [process_domains_background], and a call of the approval
    endpoint. *)
Inductive event : Type :=
| SubmitResult (jid : string) (s : RedisManager.Submission)
| ProcessOne (jid : string)
    (process_domain : string → Outcome ApiServer.AgentResult)
    (ts : string) (dom : string)
| AcceptExtracted (save_extracted_data : string → Profile → Outcome ())
    (ts : string) (input : ApiServer.AcceptInput).

Definition step (sys : System) (ev : event) : System :=
  match ev with
  | SubmitResult jid s =>
      mkSystem (RedisManager.submit jid (redis sys) s) (api sys)
  | ProcessOne jid process_domain ts dom =>
      mkSystem (redis sys)
        (ApiServer.in_job jid
           (λ j, ApiServer.process_one process_domain ts j dom) (api sys))
  | AcceptExtracted save ts input =>
      mkSystem (redis sys) (ApiServer.accept_extracted save ts input (api sys)).2
  end.

Definition run (sys : System) (evs : list event) : System :=
  fold_left step evs sys.

(** The event submits a result for the Redis job [jid]. *)
Definition submits (jid : string) (ev : event) : bool :=
  match ev with
  | SubmitResult jid' _ => bool_decide (jid' = jid)
  | _ => false
  end.

(** The event records a result for the sequential job [jid]. *)
Definition processes (jid : string) (ev : event) : bool :=
  match ev with
  | ProcessOne jid' _ _ _ => bool_decide (jid' = jid)
  | _ => false
  end.

Definition count (P : event → bool) (evs : list event) : Z :=
  Z.of_nat (length (filter (λ ev, P ev = true) evs)).

(** The timeline of the system: the state before and after each event. *)
Fixpoint timeline (sys : System) (evs : list event) : list System :=
  match evs with
  | [] => [sys]
  | ev :: evs' => sys :: timeline (step sys ev) evs'
  end.

Definition redis_job (sys : System) (jid : string) : option RedisManager.Job :=
  RedisManager.jobs (redis sys) !! RedisManager.job_key jid.

Definition api_job (sys : System) (jid : string) : option ApiServer.Job :=
  ApiServer.processing_jobs (api sys) !! jid.

(** [s'] is not below [s], and is [Completed] if [s] is. *)
Definition advances (s s' : job_status) : Prop :=
  (rank s ≤ rank s')%nat ∧ (s = Completed → s' = Completed).

End Events.

(** * Properties *)

(** ** The task store *)

Section TaskStore.
Import Db MultiWorker.

Implicit Types (tbl : list Row) (r : Row) (p : Pending).

Lemma sql_limit_elem_of {A} (limit : Z) (l : list A) (x : A) :
  x ∈ sql_limit limit l → x ∈ l.
Proof.
  unfold sql_limit. destruct (limit <? 0); [done|].
  intros [i [Hi _]]%elem_of_take. by eapply list_elem_of_lookup_2.
Qed.

Lemma select_ready_elem_of limit tbl p :
  p ∈ select_ready limit tbl →
  ∃ r, r ∈ tbl ∧ status r = "READY" ∧ select_columns r = p.
Proof.
  unfold select_ready. intros (r & -> & Hr)%list_elem_of_fmap.
  apply sql_limit_elem_of, list_elem_of_filter in Hr as [Hst Hin]. eauto.
Qed.

(** The UPDATEs of one claim, as one pass over the table. *)
Lemma fold_mark_processing now rows tbl :
  fold_left (mark_processing now) rows tbl =
  (λ r, if decide (domain r ∈ claimed_keys rows ∧ status r = "READY")
        then set_status "PROCESSING" now r else r) <$> tbl.
Proof.
  revert tbl. induction rows as [|p rows IH]; intros tbl; simpl.
  - rewrite <- (list_fmap_id tbl) at 1. apply list_fmap_ext. intros i r _.
    done.
  - rewrite IH. unfold mark_processing. rewrite <- list_fmap_compose.
    apply list_fmap_ext. intros i r _. simpl.
    destruct (decide (domain r = p_domain p ∧ status r = "READY")) as [[Hd Hs]|Hn].
    + rewrite decide_False by (simpl; intros [_ ?]; discriminate).
      rewrite decide_True; [done|]. split; [|done]. rewrite Hd. apply elem_of_cons. by left.
    + destruct (decide (domain r ∈ claimed_keys rows ∧ status r = "READY")) as [[Hd Hs]|Hn'].
      * rewrite decide_True; [done|]. split; [|done]. apply elem_of_cons. by right.
      * rewrite decide_False; [done|]. intros [[Hd|Hd]%elem_of_cons Hs]; tauto.
Qed.

Lemma claim_pending_raw_table now w limit tbl :
  (claim_pending_raw now w limit tbl).2 =
  (λ r, if decide (domain r ∈ claimed_keys (select_ready limit tbl)
                   ∧ status r = "READY")
        then set_status "PROCESSING" now r else r) <$> tbl.
Proof. unfold claim_pending_raw. simpl. apply fold_mark_processing. Qed.

Lemma update_raw_status_domains now dom st tbl :
  domain <$> update_raw_status now dom st tbl = domain <$> tbl.
Proof.
  unfold update_raw_status. rewrite <- list_fmap_compose.
  apply list_fmap_ext. intros i r _. simpl. by case_decide.
Qed.

Lemma claim_pending_raw_domains now w limit tbl :
  domain <$> (claim_pending_raw now w limit tbl).2 = domain <$> tbl.
Proof.
  unfold claim_pending_raw. simpl. generalize (select_ready limit tbl).
  intros rows. revert tbl. induction rows as [|p rows IH]; intros tbl; simpl; [done|].
  rewrite IH. unfold mark_processing. rewrite <- list_fmap_compose.
  apply list_fmap_ext. intros i r _. simpl. by case_decide.
Qed.

(** The operations on the table keep the primary key. *)
Lemma operations_keep_primary_key now w limit dom sp ct ts st tbl :
  wf_table tbl →
  wf_table (claim_pending_raw now w limit tbl).2
  ∧ wf_table (update_raw_status now dom st tbl)
  ∧ wf_table (upsert_raw_scrape now dom sp ct ts st tbl).
Proof.
  unfold wf_table. intros Hwf.
  rewrite claim_pending_raw_domains, update_raw_status_domains.
  split; [done|]. split; [done|].
  unfold upsert_raw_scrape. case_decide as Hin.
  - rewrite <- list_fmap_compose.
    assert (Heq : domain ∘ on_conflict now dom sp ct ts st <$> tbl
                  = domain <$> tbl).
    { apply list_fmap_ext. intros i r _. simpl. unfold on_conflict.
      by case_decide. }
    by rewrite Heq.
  - rewrite fmap_app. apply NoDup_app. split; [done|].
    split; [|apply NoDup_singleton].
    intros k Hk ->%list_elem_of_singleton. done.
Qed.

(** Under the primary key, one claim returns no key twice. *)
Lemma claimed_keys_distinct now w limit tbl :
  wf_table tbl → NoDup (claimed_keys (claim_pending_raw now w limit tbl).1).
Proof.
  unfold wf_table, claim_pending_raw, claimed_keys, select_ready. simpl.
  intros Hwf. rewrite <- list_fmap_compose.
  eapply sublist_NoDup; [exact Hwf|].
  change (p_domain ∘ select_columns) with domain.
  apply fmap_sublist.
  etrans; [|apply (sublist_filter (λ r, status r = "READY"))].
  unfold sql_limit. destruct (limit <? 0); [done|apply sublist_take].
Qed.

(** C1. A claim returns only rows that are READY when it is called, each of
    which it marks PROCESSING in the same transaction; it returns the empty
    list when no row is READY; and the keys returned by a claim and by the
    claim that follows it, whatever their workers and limits, are
    disjoint. *)
Theorem claim_pending_raw_no_double_claim
    (now1 now2 : Z) (w1 w2 : string) (limit1 limit2 : Z) tbl :
  let c1 := claim_pending_raw now1 w1 limit1 tbl in
  let c2 := claim_pending_raw now2 w2 limit2 c1.2 in
  (∀ p, p ∈ c1.1 →
     ∃ r, r ∈ tbl ∧ status r = "READY" ∧ select_columns r = p
          ∧ set_status "PROCESSING" now1 r ∈ c1.2)
  ∧ (∀ r, r ∈ c1.2 → domain r ∈ claimed_keys c1.1 → status r ≠ "READY")
  ∧ ((∀ r, r ∈ tbl → status r ≠ "READY") → c1.1 = [])
  ∧ (∀ k, k ∈ claimed_keys c1.1 → k ∉ claimed_keys c2.1).
Proof.
  intros c1 c2.
  assert (Htbl : c1.2 = (λ r, if decide (domain r ∈ claimed_keys c1.1
                                         ∧ status r = "READY")
                              then set_status "PROCESSING" now1 r else r) <$> tbl)
    by apply claim_pending_raw_table.
  assert (Hready : ∀ r, r ∈ c1.2 → domain r ∈ claimed_keys c1.1 →
                        status r ≠ "READY").
  { intros r' Hin Hk. rewrite Htbl in Hin.
    apply list_elem_of_fmap in Hin as (r & -> & Hr).
    case_decide as Hc; simpl; [discriminate|].
    intros Hs. apply Hc. by split. }
  split; [|split; [done|split]].
  - intros p Hp. destruct (select_ready_elem_of _ _ _ Hp) as (r & Hr & Hs & Hc).
    exists r. repeat split; try done. rewrite Htbl.
    apply list_elem_of_fmap. exists r. split; [|done].
    rewrite decide_True; [done|]. split; [|done].
    unfold claimed_keys. apply list_elem_of_fmap. exists p.
    split; [by rewrite <- Hc|done].
  - intros Hnone. destruct (c1.1) as [|p rows] eqn:E; [done|].
    assert (Hp : p ∈ select_ready limit1 tbl).
    { change (select_ready limit1 tbl) with (c1.1). rewrite E. apply elem_of_cons. by left. }
    destruct (select_ready_elem_of _ _ _ Hp) as (r & Hr & Hs & _).
    by destruct (Hnone r Hr).
  - intros k Hk1 Hk2. unfold claimed_keys in Hk2.
    apply list_elem_of_fmap in Hk2 as (p & -> & Hp).
    destruct (select_ready_elem_of _ _ _ Hp) as (r & Hr & Hs & <-).
    by apply (Hready r Hr).
Qed.

(** C7. The sweep resets to READY exactly the rows that are PROCESSING with
    [updated_at] older than the time of the sweep minus the timeout, and
    returns their number; the other rows, among them every DONE or FAILED
    row and every PROCESSING row whose timestamp is not older, stay as they
    are. The table has no column for an owner. *)
Theorem release_stuck_processing_exact (utcnow now timeout : Z) tbl :
  let threshold := utcnow - timeout in
  let released := (release_stuck_processing utcnow now timeout tbl).1 in
  let tbl' := (release_stuck_processing utcnow now timeout tbl).2 in
  length tbl' = length tbl
  ∧ (∀ i r, tbl !! i = Some r →
       tbl' !! i =
       Some (if decide (status r = "PROCESSING" ∧ updated_at r < threshold)
             then mkRow (domain r) (snapshot_path r) (clean_text r)
                        (tech_stack r) "READY" (created_at r) now
             else r))
  ∧ released =
    Z.of_nat (length (filter (λ r, status r = "PROCESSING"
                                   ∧ updated_at r < threshold) tbl))
  ∧ (∀ i r, tbl !! i = Some r →
       status r = "DONE" ∨ status r = "FAILED"
       ∨ (status r = "PROCESSING" ∧ threshold ≤ updated_at r) →
       tbl' !! i = Some r).
Proof.
  intros threshold released tbl'. subst released tbl'.
  unfold release_stuck_processing. simpl. fold threshold.
  assert (Hrow : ∀ i r, tbl !! i = Some r →
    ((λ r, if decide (stuck threshold r) then set_status "READY" now r else r)
       <$> tbl) !! i =
    Some (if decide (status r = "PROCESSING" ∧ updated_at r < threshold)
          then mkRow (domain r) (snapshot_path r) (clean_text r)
                     (tech_stack r) "READY" (created_at r) now
          else r)).
  { intros i r Hi. by rewrite list_lookup_fmap, Hi. }
  split; [apply length_fmap|]. split; [done|]. split; [done|].
  intros i r Hi Hst. rewrite (Hrow i r Hi). f_equal.
  rewrite decide_False; [done|]. intros [Hp Hlt].
  destruct Hst as [Hs|[Hs|[_ Hge]]]; [rewrite Hp in Hs; discriminate
                                      |rewrite Hp in Hs; discriminate|lia].
Qed.

End TaskStore.

(** ** Registration *)

Section Registration.
Import Db Loader.

Implicit Types (tbl : list Row) (r : Row) (e : Entry) (b : list Entry).

Lemma overwrite_domain now r e : domain (overwrite now r e) = domain r.
Proof. unfold overwrite, on_conflict. by case_decide. Qed.

Lemma overwrite_created_at now r e :
  created_at (overwrite now r e) = created_at r.
Proof. unfold overwrite, on_conflict. by case_decide. Qed.

Lemma overwrite_other now r e : domain r ≠ e_domain e → overwrite now r e = r.
Proof. intros H. unfold overwrite, on_conflict. by rewrite decide_False. Qed.

Lemma overwrite_same now r e :
  domain r = e_domain e →
  overwrite now r e =
  mkRow (e_domain e) (e_snapshot_path e) (e_clean_text e) (e_tech_stack e)
        (e_status e) (created_at r) now.
Proof. intros H. unfold overwrite, on_conflict. rewrite decide_True by done. by rewrite H. Qed.

Lemma fold_overwrite_domain now b r :
  domain (fold_left (overwrite now) b r) = domain r
  ∧ created_at (fold_left (overwrite now) b r) = created_at r.
Proof.
  revert r. induction b as [|e b IH]; intros r; simpl; [done|].
  destruct (IH (overwrite now r e)) as [-> ->].
  by rewrite overwrite_domain, overwrite_created_at.
Qed.

Lemma upsert_present now tbl e :
  e_domain e ∈ domain <$> tbl → upsert now tbl e = (λ r, overwrite now r e) <$> tbl.
Proof. intros H. unfold upsert, upsert_raw_scrape. by rewrite decide_True. Qed.

Lemma upsert_absent now tbl e :
  e_domain e ∉ domain <$> tbl →
  upsert now tbl e =
  tbl ++ [mkRow (e_domain e) (e_snapshot_path e) (e_clean_text e)
                (e_tech_stack e) (e_status e) now now].
Proof. intros H. unfold upsert, upsert_raw_scrape. by rewrite decide_False. Qed.

Lemma upsert_domains now tbl e k :
  k ∈ domain <$> upsert now tbl e ↔ k = e_domain e ∨ k ∈ domain <$> tbl.
Proof.
  destruct (decide (e_domain e ∈ domain <$> tbl)) as [Hin|Hout].
  - rewrite upsert_present by done. rewrite <- list_fmap_compose.
    assert (Heq : domain ∘ (λ r, overwrite now r e) <$> tbl = domain <$> tbl).
    { apply list_fmap_ext. intros i r _. simpl. apply overwrite_domain. }
    rewrite Heq. split; [tauto|]. intros [->|]; done.
  - rewrite upsert_absent by done. rewrite fmap_app, elem_of_app. simpl.
    rewrite list_elem_of_singleton. tauto.
Qed.

Lemma register_domains_mono now b tbl k :
  k ∈ domain <$> tbl → k ∈ domain <$> fold_left (upsert now) b tbl.
Proof.
  revert tbl. induction b as [|e b IH]; intros tbl H; simpl; [done|].
  apply IH, upsert_domains. by right.
Qed.

Lemma register_domains_batch now b tbl e :
  e ∈ b → e_domain e ∈ domain <$> fold_left (upsert now) b tbl.
Proof.
  revert tbl. induction b as [|e' b IH]; intros tbl H; simpl.
  - by apply elem_of_nil in H.
  - apply elem_of_cons in H as [->|H]; [|by apply IH].
    apply register_domains_mono, upsert_domains. by left.
Qed.

(** A batch whose keys are all present only overwrites, row by row. *)
Lemma register_present now b tbl :
  (∀ e, e ∈ b → e_domain e ∈ domain <$> tbl) →
  fold_left (upsert now) b tbl = fold_left (overwrite now) b <$> tbl.
Proof.
  revert tbl. induction b as [|e b IH]; intros tbl H; simpl.
  - by rewrite list_fmap_id.
  - rewrite IH.
    + rewrite upsert_present by (apply H, elem_of_cons; by left).
      by rewrite <- list_fmap_compose.
    + intros e' He'. apply upsert_domains. right.
      apply H, elem_of_cons. by right.
Qed.

Lemma register_updated_at now b tbl r :
  r ∈ fold_left (upsert now) b tbl → domain r ∈ e_domain <$> b →
  updated_at r = now.
Proof.
  revert r. induction b as [|e b IH] using rev_ind; intros r Hr Hk.
  - by apply elem_of_nil in Hk.
  - rewrite fold_left_app in Hr. simpl in Hr.
    set (T := fold_left (upsert now) b tbl) in *.
    assert (Hother : ∀ r0, r0 ∈ T → domain r0 ≠ e_domain e →
                           domain r0 ∈ e_domain <$> b ++ [e] → updated_at r0 = now).
    { intros r0 Hr0 Hne Hk0. apply IH; [done|]. rewrite fmap_app in Hk0.
      apply elem_of_app in Hk0 as [?|?%list_elem_of_singleton]; done. }
    destruct (decide (e_domain e ∈ domain <$> T)) as [Hin|Hout].
    + rewrite upsert_present in Hr by done.
      apply list_elem_of_fmap in Hr as (r0 & -> & Hr0).
      destruct (decide (domain r0 = e_domain e)) as [Heq|Hne].
      * by rewrite (overwrite_same now r0 e Heq).
      * rewrite (overwrite_other now r0 e Hne) in *. by apply Hother.
    + rewrite upsert_absent in Hr by done.
      apply elem_of_app in Hr as [Hr|Hr%list_elem_of_singleton].
      * apply Hother; [done| |done]. intros Heq. apply Hout. rewrite <- Heq.
        by apply list_elem_of_fmap_2.
      * by subst r.
Qed.

(** After a batch was registered at [now1], registering it again at [now2]
    rewrites every row of the batch with the columns it already has. *)
Lemma register_rows_fixed now1 now2 b tbl r :
  r ∈ fold_left (upsert now1) b tbl →
  fold_left (overwrite now2) b r =
  if decide (domain r ∈ e_domain <$> b) then touch now2 r else r.
Proof.
  revert r. induction b as [|e b IH] using rev_ind; intros r Hr; simpl; [done|].
  rewrite fold_left_app in Hr. simpl in Hr. rewrite fold_left_app. simpl.
  set (T := fold_left (upsert now1) b tbl) in *.
  assert (Hother : ∀ r0, r0 ∈ T → domain r0 ≠ e_domain e →
    overwrite now2 (fold_left (overwrite now2) b r0) e =
    if decide (domain r0 ∈ e_domain <$> b ++ [e]) then touch now2 r0 else r0).
  { intros r0 Hr0 Hne. rewrite overwrite_other
      by (by rewrite (proj1 (fold_overwrite_domain now2 b r0))).
    rewrite (IH r0 Hr0). rewrite fmap_app. simpl.
    destruct (decide (domain r0 ∈ e_domain <$> b)) as [Hin|Hout].
    - rewrite decide_True; [done|]. apply elem_of_app. by left.
    - rewrite decide_False; [done|].
      intros [?|?%list_elem_of_singleton]%elem_of_app; done. }
  assert (Hsame : ∀ c, let r1 := mkRow (e_domain e) (e_snapshot_path e)
       (e_clean_text e) (e_tech_stack e) (e_status e) c now1 in
    overwrite now2 (fold_left (overwrite now2) b r1) e =
    if decide (domain r1 ∈ e_domain <$> b ++ [e]) then touch now2 r1 else r1).
  { intros c r1. destruct (fold_overwrite_domain now2 b r1) as [Hd Hc].
    rewrite overwrite_same by done. rewrite Hc.
    rewrite decide_True; [done|]. rewrite fmap_app. apply elem_of_app. right.
    by apply list_elem_of_singleton. }
  destruct (decide (e_domain e ∈ domain <$> T)) as [Hin|Hout].
  - rewrite upsert_present in Hr by done.
    apply list_elem_of_fmap in Hr as (r0 & -> & Hr0).
    destruct (decide (domain r0 = e_domain e)) as [Heq|Hne].
    + rewrite (overwrite_same now1 r0 e Heq). apply Hsame.
    + rewrite (overwrite_other now1 r0 e Hne). by apply Hother.
  - rewrite upsert_absent in Hr by done.
    apply elem_of_app in Hr as [Hr|Hr%list_elem_of_singleton].
    + apply Hother; [done|]. intros Heq. apply Hout. rewrite <- Heq.
      by apply list_elem_of_fmap_2.
    + subst r. apply Hsame.
Qed.

Lemma register_twice now1 now2 b tbl :
  fold_left (upsert now2) b (fold_left (upsert now1) b tbl) =
  (λ r, if decide (domain r ∈ e_domain <$> b) then touch now2 r else r)
    <$> fold_left (upsert now1) b tbl.
Proof.
  rewrite register_present by (intros e He; by apply register_domains_batch).
  apply list_fmap_ext. intros i r Hi.
  eapply register_rows_fixed, list_elem_of_lookup_2, Hi.
Qed.

(** C2, as the claim states it: false. A key that is present with status
    DONE is registered again and its row is rewritten, status included. *)
Lemma upsert_raw_scrape_rewrites_present_row :
  upsert_raw_scrape 30 "a.com" "snap2" "text2" "[]" "READY"
    [mkRow "a.com" "snap" "text" "[]" "DONE" 10 20]
  = [mkRow "a.com" "snap2" "text2" "[]" "READY" 10 30]
  ∧ upsert_raw_scrape 30 "a.com" "snap2" "text2" "[]" "READY"
      [mkRow "a.com" "snap" "text" "[]" "DONE" 10 20]
    ≠ [mkRow "a.com" "snap" "text" "[]" "DONE" 10 20].
Proof. split; [reflexivity|discriminate]. Qed.

(** C2, amended. Registration is an upsert: a key that is present has its
    row overwritten with the submitted columns and status, keeping
    [created_at] and taking a new [updated_at], and the other rows stay as
    they are; registering the same batch with the same scraped content a
    second time yields the contents of the first registration, except that
    [updated_at] of the rows of the batch is the time of the second. *)
Theorem registration_overwrites_and_repeats
    (scrape_domain : string → Py.Outcome (string * string * string))
    (now1 now2 : Z) (dom sp ct ts st : string) (doms : list string)
    (max_domains : option Z) tbl :
  (dom ∈ domain <$> tbl →
     upsert_raw_scrape now1 dom sp ct ts st tbl =
     (λ r, if decide (domain r = dom)
           then mkRow dom sp ct ts st (created_at r) now1 else r) <$> tbl)
  ∧ (let once := scrape_and_enqueue scrape_domain now1 doms max_domains tbl in
     scrape_and_enqueue scrape_domain now2 doms max_domains once =
     (λ r, if decide (domain r ∈ truncate max_domains doms)
           then touch now2 r else r) <$> once)
  ∧ (let once := scrape_and_enqueue scrape_domain now1 doms max_domains tbl in
     scrape_and_enqueue scrape_domain now1 doms max_domains once = once).
Proof.
  assert (Hfold : ∀ now l t,
    fold_left (λ t d, upsert now t (entry_of scrape_domain d)) l t =
    fold_left (upsert now) (entry_of scrape_domain <$> l) t).
  { intros now l. induction l as [|d l IH]; intros t; simpl; [done|apply IH]. }
  assert (Hkeys : ∀ l : list string,
                    e_domain <$> (entry_of scrape_domain <$> l) = l).
  { intros l. rewrite <- list_fmap_compose. rewrite <- (list_fmap_id l) at 2.
    apply list_fmap_ext. intros i d _. simpl. unfold entry_of.
    destruct (scrape_domain d) as [[[? ?] ?]|]; [by case_decide|done]. }
  assert (Htwice : ∀ now,
    let once := scrape_and_enqueue scrape_domain now1 doms max_domains tbl in
    scrape_and_enqueue scrape_domain now doms max_domains once =
    (λ r, if decide (domain r ∈ truncate max_domains doms)
          then touch now r else r) <$> once).
  { intros now once. subst once. unfold scrape_and_enqueue.
    rewrite !Hfold, register_twice. by rewrite Hkeys. }
  split; [|split].
  - intros Hin. unfold upsert_raw_scrape. rewrite decide_True by done.
    apply list_fmap_ext. intros i r _. unfold on_conflict.
    case_decide as Hd; [by rewrite Hd|done].
  - apply Htwice.
  - intros once. specialize (Htwice now1). cbv zeta in Htwice.
    fold once in Htwice. rewrite Htwice.
    rewrite <- (list_fmap_id once) at 2. apply list_fmap_ext. intros i r Hi.
    simpl. case_decide as Hk; [|done].
    assert (Hr : r ∈ once) by (by eapply list_elem_of_lookup_2).
    assert (Hup : updated_at r = now1).
    { subst once. unfold scrape_and_enqueue in Hr. rewrite Hfold in Hr.
      eapply register_updated_at; [exact Hr|]. by rewrite Hkeys. }
    destruct r. unfold touch. simpl in *. by rewrite Hup.
Qed.

End Registration.

(** ** The worker *)

Section WorkerLoop.
Import Py Db Worker.

Variable json_loads : string → option (list string).
Variable extract_profile : string → string → list string → Outcome Profile.
Variable save_extracted_data : string → Profile → Outcome ().
Variable clock : Clock.

Local Abbreviation process_row := (process_row json_loads extract_profile save_extracted_data clock).
Local Abbreviation process_once := (process_once json_loads extract_profile save_extracted_data clock).
Local Abbreviation worker_turn := (worker_turn json_loads extract_profile save_extracted_data clock).
Local Abbreviation pipeline_raises := (pipeline_raises json_loads extract_profile save_extracted_data).

Local Arguments PyStr.slice_to : simpl never.

Ltac run_worker :=
  unfold Worker.process_row, try_except, call_extract_profile,
    call_save_extracted_data, db_update_raw_status, db_insert_metric,
    mbind, M_bind, bind, mret, M_ret, ret; simpl.

Lemma slice_to_length_le (n : nat) (s : string) :
  (String.length (PyStr.slice_to n s) ≤ n)%nat.
Proof.
  revert s. induction n as [|n IH]; intros [|c s]; simpl; try lia.
  specialize (IH s). lia.
Qed.

Lemma process_row_returns row w : ∃ w', process_row row w = (Returned (), w').
Proof.
  run_worker.
  destruct (extract_profile _ _ _) as [profile|msg]; simpl; [|eauto].
  destruct (truthy profile); simpl; [|eauto].
  destruct (save_extracted_data _ _) as [[]|msg]; simpl; eauto.
Qed.

Lemma for_each_returns rows w :
  ∃ w', for_each rows process_row w = (Returned (), w').
Proof.
  revert w. induction rows as [|row rows IH]; intros w; simpl.
  - by exists w.
  - unfold mbind, M_bind, bind.
    destruct (process_row_returns row w) as [w1 ->]. apply IH.
Qed.

Lemma process_row_failure row msg w :
  pipeline_raises row msg →
  process_row row w =
  (Returned (),
   mkWorld (update_raw_status (update_now clock) (p_domain row) "FAILED"
                              (raw_scrapes w))
           (metrics w ++ [failure_metric clock (p_domain row) (PyStr.slice_to 500 msg)])
           (saved w)).
Proof.
  intros [H|(profile & H & Ht & Hs)]; run_worker; rewrite H; simpl; [done|].
  rewrite Ht. simpl. by rewrite Hs.
Qed.

Lemma select_ready_one tbl :
  select_ready 1 tbl = [] ∨ ∃ row, select_ready 1 tbl = [row].
Proof.
  unfold select_ready, sql_limit. simpl.
  destruct (filter _ tbl) as [|r l]; simpl; [by left|right; eauto].
Qed.

Lemma update_raw_status_elem_of now dom st tbl r :
  r ∈ update_raw_status now dom st tbl → domain r = dom → status r = st.
Proof.
  unfold update_raw_status. intros (r0 & -> & _)%list_elem_of_fmap.
  case_decide; [done|]. intros ?. done.
Qed.

Lemma process_once_returns worker_id w : ∃ n w', process_once worker_id w = (Returned n, w').
Proof.
  unfold Worker.process_once, db_claim_pending_raw,
    mbind, M_bind, bind, mret, M_ret, ret. simpl.
  case_decide; simpl; [eauto|].
  match goal with |- context [for_each ?rows _ ?w0] =>
    destruct (for_each_returns rows w0) as [w1 ->] end.
  simpl. eauto.
Qed.

(** The call on a claimed row on which the pipeline raises. *)
Lemma process_once_on_failure worker_id w row msg :
  row ∈ (claim_pending_raw (claim_now clock) worker_id 1 (raw_scrapes w)).1 →
  pipeline_raises row msg →
  process_once worker_id w =
  (Returned 1,
   mkWorld
     (update_raw_status (update_now clock) (p_domain row) "FAILED"
        (claim_pending_raw (claim_now clock) worker_id 1 (raw_scrapes w)).2)
     (metrics w ++ [failure_metric clock (p_domain row) (PyStr.slice_to 500 msg)])
     (saved w)).
Proof.
  intros Hrow Hraise. unfold claim_pending_raw in *. simpl in Hrow.
  unfold Worker.process_once, db_claim_pending_raw, claim_pending_raw,
    mbind, M_bind, bind, mret, M_ret, ret. simpl.
  destruct (select_ready_one (raw_scrapes w)) as [E|[row' E]]; rewrite E in *.
  { by apply elem_of_nil in Hrow. }
  apply list_elem_of_singleton in Hrow. subst row'.
  rewrite decide_False by done. simpl.
  unfold mbind, M_bind, bind, mret, M_ret, ret.
  by rewrite (process_row_failure row msg _ Hraise).
Qed.

Lemma claimed_row_in_table now worker_id limit tbl row :
  row ∈ (claim_pending_raw now worker_id limit tbl).1 →
  p_domain row ∈ domain <$> tbl.
Proof.
  unfold claim_pending_raw. simpl. intros Hin.
  destruct (select_ready_elem_of _ _ _ Hin) as (r & Hr & _ & <-).
  change (p_domain (select_columns r)) with (domain r).
  by apply list_elem_of_fmap_2.
Qed.

(** C9. Whatever the extraction and the persistence do, exceptions
    included, [process_once] returns, and so does the turn of the worker
    loop around it; a claimed row on which the pipeline raised is reported
    FAILED, with a metric whose error message is the first 500 characters of
    the message of the exception. *)
Theorem process_once_contains_pipeline_failures (worker_id : string) (w : World) :
  let res := process_once worker_id w in
  let claimed :=
    (claim_pending_raw (claim_now clock) worker_id 1 (raw_scrapes w)).1 in
  (∃ n, res.1 = Returned n)
  ∧ (worker_turn worker_id w).1 = Returned ()
  ∧ ∀ row msg, row ∈ claimed → pipeline_raises row msg →
      res.1 = Returned 1
      ∧ p_domain row ∈ domain <$> raw_scrapes res.2
      ∧ (∀ r, r ∈ raw_scrapes res.2 → domain r = p_domain row →
              status r = "FAILED")
      ∧ metrics res.2 =
        metrics w ++ [failure_metric clock (p_domain row) (PyStr.slice_to 500 msg)]
      ∧ (String.length (PyStr.slice_to 500 msg) ≤ 500)%nat.
Proof.
  intros res claimed.
  destruct (process_once_returns worker_id w) as (n & w' & Hres).
  split; [exists n; subst res; by rewrite Hres|]. split.
  { unfold Worker.worker_turn, try_except, mbind, M_bind, bind, mret, M_ret, ret.
    by rewrite Hres. }
  intros row msg Hrow Hraise. subst res claimed.
  rewrite (process_once_on_failure worker_id w row msg Hrow Hraise).
  cbn [fst snd raw_scrapes metrics].
  split; [done|]. split; [|split; [|split; [done|apply slice_to_length_le]]].
  - rewrite update_raw_status_domains, claim_pending_raw_domains.
    by eapply claimed_row_in_table.
  - intros r Hr Hdom. by eapply update_raw_status_elem_of.
Qed.

End WorkerLoop.

(** ** Jobs *)

Section Jobs.
Import Py JobStatus Events.

Implicit Types (sys : System) (ev : event) (evs : list event) (jid : string).

Lemma advances_refl s : advances s s.
Proof. by split. Qed.

Lemma advances_trans s1 s2 s3 : advances s1 s2 → advances s2 s3 → advances s1 s3.
Proof. intros [H1 H1'] [H2 H2']. split; [lia|auto]. Qed.

Lemma job_key_inj jid1 jid2 :
  RedisManager.job_key jid1 = RedisManager.job_key jid2 → jid1 = jid2.
Proof. unfold RedisManager.job_key. cbn. intros H. by injection H. Qed.

Lemma count_result_status now success (j : RedisManager.Job) :
  advances (RedisManager.status j)
           (RedisManager.status (RedisManager.count_result now success j)).
Proof.
  unfold RedisManager.count_result.
  case_bool_decide; simpl; [|case_decide as Hp; simpl].
  - split; [by destruct (RedisManager.status j); simpl; lia|done].
  - rewrite Hp. split; [simpl; lia|done].
  - apply advances_refl.
Qed.

Lemma count_result_counters now success (j : RedisManager.Job) :
  let j' := RedisManager.count_result now success j in
  RedisManager.total j' = RedisManager.total j
  ∧ RedisManager.completed j' + RedisManager.failed j'
    = RedisManager.completed j + RedisManager.failed j + 1.
Proof.
  unfold RedisManager.count_result.
  case_bool_decide; [|case_decide]; destruct success; simpl; split; lia.
Qed.

Lemma count_cons (P : event → bool) ev evs :
  count P (ev :: evs) = (if P ev then 1 else 0) + count P evs.
Proof.
  unfold count. rewrite filter_cons.
  case_decide as H; destruct (P ev); try done; simpl length; lia.
Qed.

(** What one event does to a Redis job. *)
Lemma step_redis_job sys ev jid (j : RedisManager.Job) :
  redis_job sys jid = Some j →
  ∃ j', redis_job (step sys ev) jid = Some j'
    ∧ advances (RedisManager.status j) (RedisManager.status j')
    ∧ RedisManager.total j' = RedisManager.total j
    ∧ RedisManager.completed j' + RedisManager.failed j'
      = RedisManager.completed j + RedisManager.failed j
        + (if submits jid ev then 1 else 0).
Proof.
  intros Hj.
  assert (Hsame : redis_job (step sys ev) jid = Some j → ∃ j',
    redis_job (step sys ev) jid = Some j'
    ∧ advances (RedisManager.status j) (RedisManager.status j')
    ∧ RedisManager.total j' = RedisManager.total j
    ∧ RedisManager.completed j' + RedisManager.failed j'
      = RedisManager.completed j + RedisManager.failed j + 0).
  { intros H. exists j. split; [done|]. split; [apply advances_refl|].
    split; [done|lia]. }
  destruct ev as [jid' sub|jid' pd ts dom|save ts input]; simpl; [|by apply Hsame..].
  unfold redis_job, step, RedisManager.submit, RedisManager.submit_result in *.
  simpl in *.
  destruct (decide (jid' = jid)) as [->|Hne].
  - rewrite bool_decide_eq_true_2 by done. rewrite Hj. simpl.
    rewrite lookup_insert_eq. eexists. split; [done|].
    split; [apply count_result_status|apply count_result_counters].
  - rewrite bool_decide_eq_false_2 by done.
    assert (Hk : RedisManager.job_key jid' ≠ RedisManager.job_key jid)
      by (intros ?%job_key_inj; done).
    apply Hsame.
    destruct (RedisManager.jobs (redis sys) !! RedisManager.job_key jid');
      simpl; [by rewrite lookup_insert_ne|done].
Qed.

Lemma process_one_job pd ts (j : ApiServer.Job) dom :
  let j' := ApiServer.process_one pd ts j dom in
  ApiServer.status j' = ApiServer.status j
  ∧ ApiServer.total j' = ApiServer.total j
  ∧ ApiServer.completed j' + ApiServer.failed j'
    + Z.of_nat (size (ApiServer.pending_approvals j'))
    ≤ ApiServer.completed j + ApiServer.failed j
      + Z.of_nat (size (ApiServer.pending_approvals j)) + 1.
Proof.
  unfold ApiServer.process_one.
  destruct (pd dom) as [result|msg]; simpl; [|split; [done|split; [done|lia]]].
  destruct (truthy _ && _); simpl; (split; [done|split; [done|]]); [|lia].
  pose proof (map_size_insert dom (ApiServer.extracted_data result)
                (ApiServer.pending_approvals j)) as Hs.
  destruct (ApiServer.pending_approvals j !! dom); simpl in Hs; lia.
Qed.

Lemma close_if_done_job (j : ApiServer.Job) :
  let j' := ApiServer.close_if_done j in
  advances (ApiServer.status j) (ApiServer.status j')
  ∧ ApiServer.total j' = ApiServer.total j
  ∧ ApiServer.completed j' = ApiServer.completed j
  ∧ ApiServer.failed j' = ApiServer.failed j
  ∧ ApiServer.pending_approvals j' = ApiServer.pending_approvals j
  ∧ ApiServer.approved_data j' = ApiServer.approved_data j
  ∧ ApiServer.rejected_domains j' = ApiServer.rejected_domains j.
Proof.
  unfold ApiServer.close_if_done. destruct (_ && _); simpl.
  - split; [|done]. split; [|done]. by destruct (ApiServer.status j); simpl; lia.
  - split; [apply advances_refl|done].
Qed.

(** The assignment that ends the background task gives a status of the
    highest rank. *)
Lemma finish_rank ts (j : ApiServer.Job) :
  (rank (ApiServer.status j) ≤ rank (ApiServer.status (ApiServer.finish ts j)))%nat.
Proof. simpl. destruct (ApiServer.status j); simpl; lia. Qed.

Lemma resolve_job save ts accept dom data (j : ApiServer.Job) :
  ApiServer.pending_approvals j !! dom = Some data →
  let j' := (ApiServer.resolve save ts accept dom data j).1 in
  ApiServer.status j' = ApiServer.status j
  ∧ ApiServer.total j' = ApiServer.total j
  ∧ ApiServer.pending_approvals j' = delete dom (ApiServer.pending_approvals j)
  ∧ ApiServer.completed j' + ApiServer.failed j'
    + Z.of_nat (size (ApiServer.pending_approvals j'))
    = ApiServer.completed j + ApiServer.failed j
      + Z.of_nat (size (ApiServer.pending_approvals j)).
Proof.
  intros Hd. unfold ApiServer.resolve.
  pose proof (map_size_delete_Some dom (ApiServer.pending_approvals j)
                ltac:(eauto)) as Hs.
  pose proof (map_size_ne_0_lookup_2 (ApiServer.pending_approvals j) dom
                ltac:(eauto)) as Hn.
  destruct accept; [destruct (save dom data) as [[]|msg]|]; simpl;
    (split; [done|split; [done|split; [done|lia]]]).
Qed.

(** What one event does to a job of the sequential mode. *)
Lemma step_api_job sys ev jid (j : ApiServer.Job) :
  api_job sys jid = Some j →
  ∃ j', api_job (step sys ev) jid = Some j'
    ∧ advances (ApiServer.status j) (ApiServer.status j')
    ∧ ApiServer.total j' = ApiServer.total j
    ∧ ApiServer.completed j' + ApiServer.failed j'
      + Z.of_nat (size (ApiServer.pending_approvals j'))
      ≤ ApiServer.completed j + ApiServer.failed j
        + Z.of_nat (size (ApiServer.pending_approvals j))
        + (if processes jid ev then 1 else 0).
Proof.
  intros Hj.
  assert (Hsame : ∀ (b : bool) (o : option ApiServer.Job), o = Some j → ∃ j',
    o = Some j'
    ∧ advances (ApiServer.status j) (ApiServer.status j')
    ∧ ApiServer.total j' = ApiServer.total j
    ∧ ApiServer.completed j' + ApiServer.failed j'
      + Z.of_nat (size (ApiServer.pending_approvals j'))
      ≤ ApiServer.completed j + ApiServer.failed j
        + Z.of_nat (size (ApiServer.pending_approvals j))
        + (if b then 1 else 0)).
  { intros b o H. exists j. split; [done|]. split; [apply advances_refl|].
    split; [done|destruct b; lia]. }
  destruct ev as [jid' sub|jid' pd ts dom|save ts input]; simpl.
  - by apply (Hsame false).
  - unfold api_job, step, ApiServer.in_job in *. simpl in *.
    destruct (decide (jid' = jid)) as [->|Hne].
    + rewrite bool_decide_eq_true_2 by done. rewrite lookup_alter_eq, Hj. simpl.
      eexists. split; [done|].
      destruct (process_one_job pd ts j dom) as (Hs & Ht & Hc).
      rewrite Hs. split; [apply advances_refl|done].
    + apply Hsame. by rewrite lookup_alter_ne.
  - unfold api_job, step, ApiServer.accept_extracted in *. simpl in *.
    destruct (ApiServer.processing_jobs (api sys) !! ApiServer.in_job_id input)
      as [job|] eqn:Ejob; simpl; [|by apply (Hsame false)].
    destruct (ApiServer.pending_approvals job !! ApiServer.in_domain input)
      as [data|] eqn:Edata; simpl; [|by apply (Hsame false)].
    destruct (ApiServer.resolve save ts (ApiServer.in_accept input)
                (ApiServer.in_domain input) data job) as [job' stored] eqn:Eres.
    simpl.
    destruct (decide (ApiServer.in_job_id input = jid)) as [Heq|Hne].
    + rewrite Heq in *. rewrite lookup_insert_eq. eexists. split; [done|].
      assert (job = j) as -> by congruence.
      pose proof (resolve_job save ts (ApiServer.in_accept input) _ _ _ Edata)
        as (Hs & Ht & _ & Hc).
      rewrite Eres in *. simpl in *.
      destruct (close_if_done_job job') as (Ha & Ht' & Hc' & Hf' & Hp' & _).
      rewrite Ht', Hc', Hf', Hp', <- Hs. split; [done|]. split; [done|lia].
    + apply (Hsame false). by rewrite lookup_insert_ne.
Qed.

Lemma run_redis_job sys evs jid (j : RedisManager.Job) :
  redis_job sys jid = Some j →
  ∃ j', redis_job (run sys evs) jid = Some j'
    ∧ advances (RedisManager.status j) (RedisManager.status j')
    ∧ RedisManager.total j' = RedisManager.total j
    ∧ RedisManager.completed j' + RedisManager.failed j'
      = RedisManager.completed j + RedisManager.failed j
        + count (submits jid) evs.
Proof.
  revert sys j. induction evs as [|ev evs IH]; intros sys j Hj.
  - exists j. split; [done|]. split; [apply advances_refl|].
    split; [done|]. unfold count. simpl. lia.
  - destruct (step_redis_job sys ev jid j Hj) as (j1 & Hj1 & Ha1 & Ht1 & Hc1).
    destruct (IH _ _ Hj1) as (j2 & Hj2 & Ha2 & Ht2 & Hc2).
    exists j2. split; [done|]. split; [by eapply advances_trans|].
    split; [congruence|]. rewrite count_cons. lia.
Qed.

Lemma run_api_job sys evs jid (j : ApiServer.Job) :
  api_job sys jid = Some j →
  ∃ j', api_job (run sys evs) jid = Some j'
    ∧ advances (ApiServer.status j) (ApiServer.status j')
    ∧ ApiServer.total j' = ApiServer.total j
    ∧ ApiServer.completed j' + ApiServer.failed j'
      + Z.of_nat (size (ApiServer.pending_approvals j'))
      ≤ ApiServer.completed j + ApiServer.failed j
        + Z.of_nat (size (ApiServer.pending_approvals j))
        + count (processes jid) evs.
Proof.
  revert sys j. induction evs as [|ev evs IH]; intros sys j Hj.
  - exists j. split; [done|]. split; [apply advances_refl|].
    split; [done|]. unfold count. simpl. lia.
  - destruct (step_api_job sys ev jid j Hj) as (j1 & Hj1 & Ha1 & Ht1 & Hc1).
    destruct (IH _ _ Hj1) as (j2 & Hj2 & Ha2 & Ht2 & Hc2).
    exists j2. split; [done|]. split; [by eapply advances_trans|].
    split; [congruence|]. rewrite count_cons. lia.
Qed.

Lemma timeline_lookup sys evs (k : nat) sys_k :
  timeline sys evs !! k = Some sys_k → sys_k = run sys (take k evs).
Proof.
  revert sys k. induction evs as [|ev evs IH]; intros sys [|k] H; simpl in *.
  - congruence.
  - by rewrite lookup_nil in H.
  - congruence.
  - by apply IH.
Qed.

(** A later state of the timeline is reached from an earlier one by events. *)
Lemma timeline_later sys evs (i k : nat) sys_i sys_k :
  timeline sys evs !! i = Some sys_i → timeline sys evs !! k = Some sys_k →
  (i ≤ k)%nat → ∃ evs', sys_k = run sys_i evs'.
Proof.
  revert sys i k. induction evs as [|ev evs IH]; intros sys i k Hi Hk Hle.
  - simpl in *.
    destruct i as [|i]; [|simpl in Hi; by rewrite lookup_nil in Hi].
    destruct k as [|k]; [|simpl in Hk; by rewrite lookup_nil in Hk].
    simpl in *. exists []. simpl. congruence.
  - destruct i as [|i].
    + simpl in Hi. injection Hi as <-. eexists. by eapply timeline_lookup.
    + destruct k as [|k]; [lia|]. simpl in *. eapply IH; [done..|lia].
Qed.



(** C8, as the claim states it: false. The same key is submitted twice
    for a job of one key, and both submissions are counted. *)
Lemma repeated_submission_exceeds_total :
  let sys :=
    mkSystem
      (RedisManager.create_job 0 "job-1" ["a.com"]
         (RedisManager.mkRedis ∅ ∅ [])).2
      (ApiServer.mkApi ∅ []) in
  let ev := SubmitResult "job-1"
              (RedisManager.mkSubmission 1 "a.com" true None None) in
  ∃ j, redis_job (run sys [ev; ev]) "job-1" = Some j
       ∧ RedisManager.total j = 1
       ∧ RedisManager.completed j + RedisManager.failed j = 2.
Proof.
  intros sys ev.
  assert (H0 : ∃ j0, redis_job sys "job-1" = Some j0
                     ∧ RedisManager.total j0 = 1
                     ∧ RedisManager.completed j0 + RedisManager.failed j0 = 0).
  { eexists. split; [apply lookup_insert_eq|done]. }
  destruct H0 as (j0 & Hj0 & Ht0 & Hc0).
  destruct (run_redis_job sys [ev; ev] "job-1" j0 Hj0) as (j & Hj & _ & Ht & Hc).
  exists j. split; [done|]. split; [congruence|].
  rewrite Hc, Hc0. reflexivity.
Qed.

(** C8, amended. After any sequence of events, [completed + failed] of a
    Redis job has grown by the number of results submitted for it, and
    [completed + failed] plus the number of pending approvals of a
    sequential job by at most the number of results recorded for it, an
    approval resolution moving one unit from the pending approvals to a
    counter; so the sum of the counters of a new job stays within the number
    of its task keys as long as no more results are submitted for it than it
    has keys. *)
Theorem counters_count_reports sys evs jid :
  (∀ j, redis_job sys jid = Some j →
     ∃ j', redis_job (run sys evs) jid = Some j'
       ∧ RedisManager.total j' = RedisManager.total j
       ∧ RedisManager.completed j' + RedisManager.failed j'
         = RedisManager.completed j + RedisManager.failed j
           + count (submits jid) evs)
  ∧ (∀ j, api_job sys jid = Some j →
     ∃ j', api_job (run sys evs) jid = Some j'
       ∧ ApiServer.total j' = ApiServer.total j
       ∧ ApiServer.completed j' + ApiServer.failed j'
         + Z.of_nat (size (ApiServer.pending_approvals j'))
         ≤ ApiServer.completed j + ApiServer.failed j
           + Z.of_nat (size (ApiServer.pending_approvals j))
           + count (processes jid) evs)
  ∧ (∀ now doms,
       let sys0 :=
         mkSystem (RedisManager.create_job now jid doms (redis sys)).2 (api sys) in
       count (submits jid) evs ≤ Z.of_nat (length doms) →
       ∃ j', redis_job (run sys0 evs) jid = Some j'
         ∧ RedisManager.total j' = Z.of_nat (length doms)
         ∧ RedisManager.completed j' + RedisManager.failed j'
           ≤ RedisManager.total j')
  ∧ (∀ ts doms,
       let sys0 :=
         mkSystem (redis sys) (ApiServer.start_job ts jid doms (api sys)) in
       count (processes jid) evs ≤ Z.of_nat (length doms) →
       ∃ j', api_job (run sys0 evs) jid = Some j'
         ∧ ApiServer.total j' = Z.of_nat (length doms)
         ∧ ApiServer.completed j' + ApiServer.failed j'
           ≤ ApiServer.total j').
Proof.
  split; [|split; [|split]].
  - intros j Hj. destruct (run_redis_job sys evs jid j Hj) as (j' & ? & _ & ? & ?).
    eauto.
  - intros j Hj. destruct (run_api_job sys evs jid j Hj) as (j' & ? & _ & ? & ?).
    eauto.
  - intros now doms sys0 Hle.
    assert (H0 : ∃ j0, redis_job sys0 jid = Some j0
              ∧ RedisManager.total j0 = Z.of_nat (length doms)
              ∧ RedisManager.completed j0 + RedisManager.failed j0 = 0).
    { eexists. split; [apply lookup_insert_eq|done]. }
    destruct H0 as (j0 & Hj0 & Ht0 & Hc0).
    destruct (run_redis_job sys0 evs jid j0 Hj0) as (j' & Hj' & _ & Ht & Hc).
    exists j'. split; [done|]. split; [congruence|]. lia.
  - intros ts doms sys0 Hle.
    assert (H0 : ∃ j0, api_job sys0 jid = Some j0
              ∧ ApiServer.total j0 = Z.of_nat (length doms)
              ∧ ApiServer.completed j0 + ApiServer.failed j0
                + Z.of_nat (size (ApiServer.pending_approvals j0)) = 0).
    { eexists. split; [apply lookup_insert_eq|]. split; [done|].
      simpl. by rewrite map_size_empty. }
    destruct H0 as (j0 & Hj0 & Ht0 & Hc0).
    destruct (run_api_job sys0 evs jid j0 Hj0) as (j' & Hj' & _ & Ht & Hc).
    exists j'. split; [done|]. split; [congruence|]. lia.
Qed.

End Jobs.

(** ** The approval queue *)

Section Approval.
Import Py JobStatus ApiServer.

Implicit Types (api : Api) (job : Job) (jid dom ts : string).

(** A call of the endpoint on an entry that is pending. *)
Lemma accept_extracted_pending save ts jid dom accept api job data :
  processing_jobs api !! jid = Some job →
  pending_approvals job !! dom = Some data →
  accept_extracted save ts (mkAcceptInput jid dom accept) api =
  (Ok (jid, dom, accept),
   mkApi (<[jid := close_if_done (resolve save ts accept dom data job).1]>
            (processing_jobs api))
         (match (resolve save ts accept dom data job).2 with
          | Some p => saved api ++ [(dom, p)]
          | None => saved api
          end)).
Proof.
  intros Hj Hd. unfold accept_extracted. simpl. rewrite Hj, Hd.
  by destruct (resolve save ts accept dom data job).
Qed.

Lemma close_if_done_fields job :
  total (close_if_done job) = total job
  ∧ completed (close_if_done job) = completed job
  ∧ failed (close_if_done job) = failed job
  ∧ pending_approvals (close_if_done job) = pending_approvals job
  ∧ approved_data (close_if_done job) = approved_data job
  ∧ rejected_domains (close_if_done job) = rejected_domains job.
Proof. unfold close_if_done. by destruct (_ && _). Qed.

(** C4, as the claim states it: false. A rejection leaves [failed] at 0 and
    moves [completed] from 0 to 1. *)
Lemma rejection_does_not_count_as_failure :
  let job := mkJob WaitingApproval 1 0 0 None []
                   {["a.com" := [("company_name", "A")]]} ∅ [] in
  let api := mkApi {["job-1" := job]} [] in
  let res := accept_extracted (λ _ _, Returned ()) "12:00:00"
               (mkAcceptInput "job-1" "a.com" false) api in
  ∃ job', processing_jobs res.2 !! "job-1" = Some job'
          ∧ failed job' = 0 ∧ completed job' = 1.
Proof.
  intros job api res. subst res.
  rewrite (accept_extracted_pending _ _ _ _ _ api job [("company_name", "A")]);
    [|apply lookup_singleton_eq..].
  eexists. split; [apply lookup_insert_eq|].
  destruct (close_if_done_fields
              (resolve (λ _ _, Returned ()) "12:00:00" false "a.com"
                 [("company_name", "A")] job).1) as (_ & -> & -> & _).
  done.
Qed.

(** C4, amended. Resolving a pending approval entry with accept=false
    increments the completed count of the job by exactly one, leaves its
    failed count unchanged, records the key among the rejected domains, and
    persists nothing. *)
Theorem rejection_counts_as_completed
    (save : string → Profile → Outcome ()) ts jid dom api job data :
  processing_jobs api !! jid = Some job →
  pending_approvals job !! dom = Some data →
  let res := accept_extracted save ts (mkAcceptInput jid dom false) api in
  res.1 = Ok (jid, dom, false)
  ∧ saved res.2 = saved api
  ∧ ∃ job', processing_jobs res.2 !! jid = Some job'
      ∧ completed job' = completed job + 1
      ∧ failed job' = failed job
      ∧ pending_approvals job' = delete dom (pending_approvals job)
      ∧ approved_data job' = approved_data job
      ∧ rejected_domains job' = rejected_domains job ++ [dom].
Proof.
  intros Hj Hd res. subst res.
  rewrite (accept_extracted_pending _ _ _ _ _ api job data Hj Hd). simpl.
  split; [done|]. split; [done|].
  eexists. split; [apply lookup_insert_eq|].
  match goal with |- context [close_if_done ?j] =>
    destruct (close_if_done_fields j) as (_ & -> & -> & -> & -> & ->) end.
  done.
Qed.

Lemma rejection_counts_as_completed_witness :
  let job := mkJob WaitingApproval 2 0 1 None []
                   {["a.com" := [("company_name", "A")]]} ∅ [] in
  let api := mkApi {["job-1" := job]} [] in
  let res := accept_extracted (λ _ _, Returned ()) "12:00:00"
               (mkAcceptInput "job-1" "a.com" false) api in
  res.1 = Ok ("job-1", "a.com", false)
  ∧ saved res.2 = saved api
  ∧ ∃ job', processing_jobs res.2 !! "job-1" = Some job'
      ∧ completed job' = completed job + 1
      ∧ failed job' = failed job
      ∧ pending_approvals job' = delete "a.com" (pending_approvals job)
      ∧ approved_data job' = approved_data job
      ∧ rejected_domains job' = rejected_domains job ++ ["a.com"].
Proof.
  intros job api.
  apply (rejection_counts_as_completed (λ _ _, Returned ()) "12:00:00"
           "job-1" "a.com" api job [("company_name", "A")]);
    apply lookup_singleton_eq.
Defined.

(** The stored job after the background task. *)
Lemma process_domains_background_job pd ts jid doms api :
  processing_jobs (process_domains_background pd ts jid doms api) !! jid =
  Some (finish ts (fold_left (process_one pd ts) doms (new_job ts doms))).
Proof.
  unfold process_domains_background, start_job.
  generalize (new_job ts doms). intros j0.
  set (api0 := mkApi (<[jid:=j0]> (processing_jobs api)) (saved api)).
  assert (H0 : processing_jobs api0 !! jid = Some j0) by apply lookup_insert_eq.
  clearbody api0. revert api0 j0 H0.
  induction doms as [|d doms IH]; intros api0 j0 H0; simpl.
  - by rewrite lookup_alter_eq, H0.
  - apply IH. simpl. by rewrite lookup_alter_eq, H0.
Qed.

(** A job all of whose domains raise. *)
Lemma fold_process_one_raised msg ts doms job :
  let job' := fold_left (process_one (λ _, Raised msg) ts) doms job in
  status job' = status job
  ∧ total job' = total job
  ∧ completed job' = completed job
  ∧ failed job' = failed job + Z.of_nat (length doms)
  ∧ pending_approvals job' = pending_approvals job.
Proof.
  revert job. induction doms as [|d doms IH]; intros job; simpl.
  - repeat split; lia.
  - destruct (IH (process_one (λ _, Raised msg) ts job d)) as (-> & -> & -> & -> & ->).
    simpl. repeat split; lia.
Qed.

(** C6. A job all of whose tasks failed: when the background task ends,
    every task is terminal and no approval entry is pending, and the job is
    left in status waiting_approval, which no call of the approval endpoint
    can change, every such call being answered 404 without effect. *)
Theorem all_failed_job_is_left_waiting_approval
    (msg ts jid : string) (doms : list string) api :
  let api' := process_domains_background (λ _, Raised msg) ts jid doms api in
  ∃ job, processing_jobs api' !! jid = Some job
    ∧ status job = WaitingApproval
    ∧ pending_approvals job = ∅
    ∧ completed job = 0
    ∧ failed job = total job
    ∧ total job = Z.of_nat (length doms)
    ∧ ∀ save ts' dom accept,
        accept_extracted save ts' (mkAcceptInput jid dom accept) api' =
        (HttpError 404 ("Domain " +:+ dom +:+ " not in pending approvals"), api').
Proof.
  intros api'.
  pose proof (process_domains_background_job (λ _, Raised msg) ts jid doms api)
    as Hjob. fold api' in Hjob.
  destruct (fold_process_one_raised msg ts doms (new_job ts doms))
    as (Hs & Ht & Hc & Hf & Hp).
  set (job := finish ts (fold_left (process_one (λ _, Raised msg) ts) doms
                           (new_job ts doms))) in *.
  assert (Hpend : pending_approvals job = ∅) by (subst job; simpl; by rewrite Hp).
  exists job. split; [exact Hjob|].
  split; [done|]. split; [done|].
  split; [subst job; simpl; by rewrite Hc|].
  split; [subst job; simpl; rewrite Hf, Ht; simpl; lia|].
  split; [subst job; simpl; by rewrite Ht|].
  intros save ts' dom accept. unfold accept_extracted.
  cbn [in_job_id in_domain in_accept].
  by rewrite Hjob, Hpend, lookup_empty.
Qed.

(** The same on the job of one key. *)
Example one_failed_domain_is_left_waiting_approval :
  let api' := process_domains_background (λ _, Raised "timeout") "12:00:00"
                "job-1" ["a.com"] (mkApi ∅ []) in
  (status <$> processing_jobs api' !! "job-1") = Some WaitingApproval
  ∧ (pending_approvals <$> processing_jobs api' !! "job-1") = Some ∅
  ∧ (failed <$> processing_jobs api' !! "job-1") = Some 1
  ∧ (total <$> processing_jobs api' !! "job-1") = Some 1.
Proof.
  intros api'. subst api'. rewrite process_domains_background_job. done.
Qed.

End Approval.

(** ** A persistence sink that raises *)

Section PersistFailure.
Import Py JobStatus.



End PersistFailure.

(** ** Key normalisation *)

Section Normalisation.
Import PyStr ApiNormalize.

Implicit Types (s t d cur : string) (c : ascii).

Local Arguments String.append !_ _ / : simpl nomatch.

Lemma chars_app s t : chars (s +:+ t) = chars s ++ chars t.
Proof. induction s as [|c s IH]; simpl; [done|by f_equal]. Qed.

Lemma append_empty_r s : s +:+ "" = s.
Proof. induction s as [|c s IH]; simpl; [done|by f_equal]. Qed.

Lemma append_assoc s t u : (s +:+ t) +:+ u = s +:+ t +:+ u.
Proof. induction s as [|c s IH]; simpl; [done|by f_equal]. Qed.

Lemma lower_char_idemp c : lower_char (lower_char c) = lower_char c.
Proof. by destruct c as [[] [] [] [] [] [] [] []]. Qed.

Lemma lower_chars s : chars (lower s) = lower_char <$> chars s.
Proof. induction s as [|c s IH]; simpl; [done|by f_equal]. Qed.

Lemma lower_fixed d : Forall (λ c, lower_char c = c) (chars d) → lower d = d.
Proof.
  induction d as [|c d IH]; simpl; [done|].
  intros [Hc Hd]%Forall_cons. by rewrite Hc, IH.
Qed.

Lemma lower_is_lower s : Forall (λ c, lower_char c = c) (chars (lower s)).
Proof.
  induction s as [|c s IH]; simpl; [by constructor|].
  constructor; [apply lower_char_idemp|done].
Qed.

Lemma startswith_app p s : startswith p s = true → ∃ rest, s = p +:+ rest.
Proof.
  revert s. induction p as [|a p IH]; intros s H; simpl in *; [by exists s|].
  destruct s as [|b s]; [done|]. case_decide; [|done]. subst b.
  destruct (IH s H) as [rest ->]. by exists rest.
Qed.

Lemma startswith_append p rest : startswith p (p +:+ rest) = true.
Proof. induction p as [|a p IH]; simpl; [done|]. by rewrite decide_True. Qed.

(** The part before the first ['/'], and what it leaves. *)
Lemma split_head_slash s :
  ∃ path, s = split_head "/" s +:+ path
          ∧ (slash ∉ chars (split_head "/" s))
          ∧ (path = "" ∨ ∃ rest, path = String "/" rest).
Proof.
  induction s as [|c s (path & Hs & Hno & Hpath)]; simpl.
  - exists "". split; [done|]. split; [apply not_elem_of_nil|by left].
  - case_decide as Hc.
    + exists (String c s). split; [done|]. split; [apply not_elem_of_nil|].
      right. exists s. by rewrite Hc.
    + exists path. simpl. split; [by rewrite <- Hs|]. split; [|done].
      intros [?|?]%elem_of_cons; [unfold slash in *; congruence|done].
Qed.

Lemma split_head_slash_app d path :
  slash ∉ chars d → (path = "" ∨ ∃ rest, path = String "/" rest) →
  split_head "/" (d +:+ path) = d.
Proof.
  intros Hno Hpath. induction d as [|c d IH]; simpl in *.
  - by destruct Hpath as [->|[rest ->]].
  - rewrite decide_False by (intros <-; apply Hno, elem_of_cons; by left).
    rewrite IH; [done|]. intros ?. apply Hno, elem_of_cons. by right.
Qed.

(** The key of a token is its normal form, and its only one. *)
Lemma key_of_normal_form t d :
  strip t = t → normal_form t d ↔ d = key_of t.
Proof.
  intros Hstrip. unfold key_of. rewrite Hstrip. split.
  - intros (scheme & path & Hl & Hscheme & Hno & Hpath). rewrite Hl.
    destruct Hscheme as [->|[->|(-> & H1 & H2)]].
    + unfold split1_last. simpl. by rewrite split_head_slash_app.
    + unfold split1_last. simpl. by rewrite split_head_slash_app.
    + rewrite Hl in H1, H2. simpl in *. rewrite H1, H2. simpl.
      by rewrite split_head_slash_app.
  - intros ->.
    destruct (startswith "http://" (lower t)) eqn:H1; cbn [orb].
    + apply startswith_app in H1 as [rest Hrest]. rewrite Hrest.
      unfold split1_last. simpl.
      destruct (split_head_slash rest) as (path & Hs & Hno & Hpath).
      exists "http://", path.
      split; [simpl; by rewrite <- Hs|]. split; [by left|by split].
    + destruct (startswith "https://" (lower t)) eqn:H2; cbn [orb].
      * apply startswith_app in H2 as [rest Hrest]. rewrite Hrest.
        unfold split1_last. simpl.
        destruct (split_head_slash rest) as (path & Hs & Hno & Hpath).
        exists "https://", path.
        split; [simpl; by rewrite <- Hs|]. split; [by right; left|by split].
      * destruct (split_head_slash (lower t)) as (path & Hs & Hno & Hpath).
        exists "", path. split; [simpl; exact Hs|]. split; [|by split].
        right. right. by rewrite H1, H2.
Qed.

Lemma split_from_tokens cur s t :
  nospace cur → t ∈ split_from cur s → t ≠ "" ∧ nospace t.
Proof.
  revert cur. induction s as [|c s IH]; intros cur Hcur; simpl.
  - case_decide; [by intros ?%elem_of_nil|].
    by intros ->%list_elem_of_singleton.
  - destruct (isspace c) eqn:Hc.
    + case_decide.
      * apply IH. constructor.
      * intros [->|Ht]%elem_of_cons; [done|]. revert Ht. apply IH. constructor.
    + apply IH. unfold nospace. rewrite chars_app. apply Forall_app.
      split; [done|]. simpl. by repeat constructor.
Qed.

Lemma strip_nospace t : nospace t → strip t = t.
Proof.
  intros Ht. unfold strip.
  assert (Hl : lstrip t = t).
  { destruct t as [|c t]; simpl; [done|].
    apply Forall_cons in Ht as [-> _]. done. }
  rewrite Hl. clear Hl. induction t as [|c t IH]; simpl; [done|].
  apply Forall_cons in Ht as [Hc Ht]. rewrite (IH Ht).
  destruct t; [by rewrite Hc|done].
Qed.

Lemma entry_token_clean entry t :
  t ∈ entry_tokens entry → strip t = t ∧ t ≠ "".
Proof.
  unfold entry_tokens, split. intros Ht.
  destruct (split_from_tokens "" _ t ltac:(constructor) Ht) as [Hne Hns].
  split; [by apply strip_nospace|done].
Qed.

Lemma fold_clean_token tokens cleaned :
  (∀ t, t ∈ tokens → strip t = t ∧ t ≠ "") →
  fold_left clean_token tokens cleaned = cleaned ++ (key_of <$> tokens).
Proof.
  revert cleaned. induction tokens as [|t tokens IH]; intros cleaned H; simpl.
  - by rewrite app_nil_r.
  - rewrite IH by (intros t' Ht'; apply H, elem_of_cons; by right).
    destruct (H t ltac:(apply elem_of_cons; by left)) as [Hs Hne].
    unfold clean_token. rewrite decide_False by (by rewrite Hs).
    by rewrite <- app_assoc.
Qed.

Lemma fold_clean_entry raw cleaned :
  fold_left clean_entry raw cleaned = cleaned ++ (key_of <$> raw_tokens raw).
Proof.
  revert cleaned. induction raw as [|entry raw IH]; intros cleaned; simpl.
  - by rewrite app_nil_r.
  - rewrite IH. unfold raw_tokens. simpl. rewrite fmap_app, app_assoc. f_equal.
    unfold clean_entry. case_decide as He.
    + subst entry. simpl. by rewrite app_nil_r.
    + apply fold_clean_token. intros t. apply entry_token_clean.
Qed.

(** The first occurrence of a member. *)
Lemma first_occurrence (l : list string) x :
  x ∈ l → ∃ p, l !! p = Some x ∧ (x ∉ take p l).
Proof.
  induction l as [|a l IH]; [by intros ?%elem_of_nil|].
  intros Hx. destruct (decide (a = x)) as [->|Hne].
  - exists 0%nat. split; [done|]. simpl. apply not_elem_of_nil.
  - apply elem_of_cons in Hx as [?|Hx]; [done|].
    destruct (IH Hx) as (p & Hp & Hnot). exists (S p). split; [done|].
    simpl. intros [?|?]%elem_of_cons; done.
Qed.

(** The second loop: its state after the list [l]. *)
Lemma dedupe_loop (l : list string) :
  let st := fold_left dedupe_step l (∅, []) in
  (∀ x, x ∈ st.1 ↔ x ∈ l)
  ∧ NoDup st.2
  ∧ (∀ x, x ∈ st.2 ↔ x ∈ l)
  ∧ (∀ (i j : nat) x y, (i < j)%nat → st.2 !! i = Some x → st.2 !! j = Some y →
       ∃ p q : nat, (p < q)%nat
         ∧ l !! p = Some x ∧ (x ∉ take p l)
         ∧ l !! q = Some y ∧ (y ∉ take q l)).
Proof.
  induction l as [|z l IH] using rev_ind; simpl.
  - split; [intros x; by rewrite elem_of_empty, elem_of_nil|]. split; [constructor|]. split; [done|].
    intros i j x y _ Hi. by rewrite lookup_nil in Hi.
  - rewrite fold_left_app. simpl.
    destruct (fold_left dedupe_step l (∅, [])) as [seen result].
    simpl in IH. destruct IH as (Hseen & Hnd & Hres & Hord).
    unfold dedupe_step. simpl. case_decide as Hz; simpl.
    + apply Hseen in Hz.
      assert (Hsnoc : ∀ x, x ∈ l ↔ x ∈ l ++ [z]).
      { intros x. rewrite elem_of_app, list_elem_of_singleton.
        split; [by left|]. by intros [?| ->]. }
      split; [intros x; by rewrite Hseen, Hsnoc|]. split; [done|].
      split; [intros x; by rewrite Hres, Hsnoc|].
      intros i j x y Hij Hi Hj.
      destruct (Hord i j x y Hij Hi Hj) as (p & q & Hpq & Hp & Hpn & Hq & Hqn).
      exists p, q. split; [done|].
      pose proof (lookup_lt_Some _ _ _ Hp). pose proof (lookup_lt_Some _ _ _ Hq).
      rewrite !lookup_app_l by done. rewrite !take_app_le by lia. done.
    + assert (Hzl : z ∉ l) by (by rewrite <- Hseen).
      split.
      { intros x. rewrite elem_of_union, elem_of_singleton, Hseen, elem_of_app,
          list_elem_of_singleton. tauto. }
      split. { apply NoDup_app. split; [done|]. split; [|apply NoDup_singleton].
               intros x Hx ->%list_elem_of_singleton. by apply Hzl, Hres. }
      split; [intros x; rewrite !elem_of_app, Hres; done|].
      intros i j x y Hij Hi Hj.
      destruct (decide (j < length result)%nat) as [Hlt|Hge].
      * rewrite lookup_app_l in Hi, Hj by lia.
        destruct (Hord i j x y Hij Hi Hj) as (p & q & Hpq & Hp & Hpn & Hq & Hqn).
        exists p, q. split; [done|].
        pose proof (lookup_lt_Some _ _ _ Hp). pose proof (lookup_lt_Some _ _ _ Hq).
        rewrite !lookup_app_l by done. rewrite !take_app_le by lia. done.
      * pose proof (lookup_lt_Some _ _ _ Hj) as Hlen.
        rewrite length_app in Hlen. simpl in Hlen.
        assert (j = length result) as -> by lia.
        rewrite lookup_app_l in Hi by lia.
        rewrite lookup_app_r in Hj by lia.
        replace (length result - length result)%nat with 0%nat in Hj by lia.
        simpl in Hj. injection Hj as <-.
        assert (Hx : x ∈ l) by (apply Hres; by eapply list_elem_of_lookup_2).
        destruct (first_occurrence l x Hx) as (p & Hp & Hpn).
        pose proof (lookup_lt_Some _ _ _ Hp).
        exists p, (length l). split; [done|].
        rewrite lookup_app_l by done. rewrite take_app_le by lia.
        split; [done|]. split; [done|].
        rewrite take_app_length. split; [|done].
        rewrite lookup_app_r by lia.
        by replace (length l - length l)%nat with 0%nat by lia.
Qed.

Lemma raw_token_clean raw t : t ∈ raw_tokens raw → strip t = t ∧ t ≠ "".
Proof.
  unfold raw_tokens. intros (entry & Ht & _)%list_elem_of_bind.
  by eapply entry_token_clean.
Qed.

Lemma replace_absent a b s : a ∉ chars s → replace a b s = s.
Proof.
  induction s as [|c s IH]; simpl; [done|]. intros Hno.
  rewrite decide_False by (intros ->; apply Hno, elem_of_cons; by left).
  rewrite IH; [done|]. intros ?. apply Hno, elem_of_cons. by right.
Qed.

Lemma split_from_nospace cur s :
  nospace s → cur +:+ s ≠ "" → split_from cur s = [cur +:+ s].
Proof.
  revert cur. induction s as [|c s IH]; intros cur Hs Hne; simpl.
  - rewrite append_empty_r in *. by rewrite decide_False.
  - apply Forall_cons in Hs as [Hc Hs]. rewrite Hc.
    assert (Heq : (cur +:+ String c "") +:+ s = cur +:+ String c s)
      by (by rewrite append_assoc).
    rewrite IH; [by rewrite Heq|done|by rewrite Heq].
Qed.

(** An entry that is one key. *)
Lemma entry_tokens_single entry :
  nospace entry → ","%char ∉ chars entry → entry ≠ "" →
  entry_tokens entry = [entry].
Proof.
  intros Hns Hno Hne. unfold entry_tokens, split.
  rewrite replace_absent by done. by rewrite split_from_nospace.
Qed.

(** The keys that the normalisation produces. *)
Lemma normal_form_key t d :
  normal_form t d →
  lower d = d ∧ startswith "http://" d = false ∧ startswith "https://" d = false.
Proof.
  intros (scheme & path & Hl & _ & Hno & _).
  split.
  - apply lower_fixed. pose proof (lower_is_lower t) as Hlow.
    rewrite Hl, !chars_app in Hlow.
    by apply Forall_app in Hlow as [_ [? _]%Forall_app].
  - assert (Hstart : ∀ p, slash ∈ chars p → startswith p d = false).
    { intros p Hp. destruct (startswith p d) eqn:E; [|done].
      apply startswith_app in E as [rest ->]. destruct Hno.
      rewrite chars_app. apply elem_of_app. by left. }
    split; apply Hstart; simpl; unfold slash;
      repeat (apply elem_of_cons; (by left) || right).
Qed.

(** C10. The keys that [normalize_domains] returns are pairwise distinct;
    they are the normal forms of the submitted tokens: the token in lower
    case, without its scheme http:// or https:// and without what starts at
    its first ['/'], so that tokens with one normal form give one key; each
    is in lower case, holds no ['/'] and starts with no scheme; and they
    stand in the order in which their normal forms first occur among the
    tokens. An entry without white space and comma is one token. *)
Theorem normalize_domains_normal_forms (raw : list string) :
  let tokens := raw_tokens raw in
  let out := normalize_domains raw in
  NoDup out
  ∧ (∀ d, d ∈ out ↔ ∃ t, t ∈ tokens ∧ normal_form t d)
  ∧ (∀ d, d ∈ out →
       lower d = d ∧ (slash ∉ chars d)
       ∧ startswith "http://" d = false ∧ startswith "https://" d = false)
  ∧ (∀ (i j : nat) x y, (i < j)%nat → out !! i = Some x → out !! j = Some y →
       ∃ (p q : nat) tx ty, (p < q)%nat
         ∧ tokens !! p = Some tx ∧ normal_form tx x
         ∧ tokens !! q = Some ty ∧ normal_form ty y
         ∧ (∀ t, t ∈ take p tokens → ¬ normal_form t x)
         ∧ (∀ t, t ∈ take q tokens → ¬ normal_form t y))
  ∧ (∀ entry, nospace entry → ","%char ∉ chars entry → entry ≠ "" →
       entry_tokens entry = [entry]).
Proof.
  intros tokens out.
  assert (Hout : out = (fold_left dedupe_step (key_of <$> tokens) (∅, [])).2).
  { subst out tokens. unfold normalize_domains. by rewrite fold_clean_entry. }
  destruct (dedupe_loop (key_of <$> tokens)) as (_ & Hnd & Hmem & Hord).
  cbv zeta in Hnd, Hmem, Hord. rewrite <- Hout in Hnd, Hmem, Hord.
  assert (Hnf : ∀ t d, t ∈ tokens → normal_form t d ↔ d = key_of t).
  { intros t d Ht. apply key_of_normal_form. by eapply raw_token_clean. }
  assert (Hkeys : ∀ d, d ∈ out ↔ ∃ t, t ∈ tokens ∧ normal_form t d).
  { intros d. rewrite Hmem, list_elem_of_fmap. split.
    - intros (t & -> & Ht). exists t. split; [done|]. by apply Hnf.
    - intros (t & Ht & Hd). exists t. split; [by apply Hnf|done]. }
  assert (Hearlier : ∀ (p : nat) x, x ∉ take p (key_of <$> tokens) →
                       ∀ t, t ∈ take p tokens → ¬ normal_form t x).
  { intros p x Hx t Ht Hn. apply Hx. rewrite <- fmap_take.
    apply list_elem_of_fmap. exists t. split; [|done].
    apply Hnf; [|done]. by eapply subseteq_take. }
  split; [done|]. split; [done|]. split; [|split].
  - intros d (t & Ht & Hd)%Hkeys.
    destruct (normal_form_key t d Hd) as (? & ? & ?).
    destruct Hd as (? & ? & _ & _ & ? & _). done.
  - intros i j x y Hij Hi Hj.
    destruct (Hord i j x y Hij Hi Hj) as (p & q & Hpq & Hp & Hpn & Hq & Hqn).
    apply list_lookup_fmap_Some in Hp as (tx & -> & Hp).
    apply list_lookup_fmap_Some in Hq as (ty & -> & Hq).
    exists p, q, tx, ty. split; [done|].
    split; [done|]. split; [by apply Hnf; [eapply list_elem_of_lookup_2|]|].
    split; [done|]. split; [by apply Hnf; [eapply list_elem_of_lookup_2|]|].
    split; by apply Hearlier.
  - apply entry_tokens_single.
Qed.

(** Keys that differ in case, scheme and path only give one task. *)
Example normalize_domains_collapses :
  normalize_domains
    ["HTTP://Example.com/about, b.org  https://EXAMPLE.com"; "";
     "example.com/contact"]
  = ["example.com"; "b.org"].
Proof. reflexivity. Qed.

End Normalisation.

(** * Further properties of the code *)

(** ** The task store: limits, leases and the empty queue *)

Section Leases.
Import Db MultiWorker.

Implicit Types (tbl : list Row) (r : Row) (p : Pending).

Lemma select_ready_length limit tbl :
  length (select_ready limit tbl) =
  if limit <? 0 then length (ready_rows tbl)
  else Nat.min (Z.to_nat limit) (length (ready_rows tbl)).
Proof.
  unfold select_ready, sql_limit, ready_rows. rewrite length_fmap.
  destruct (limit <? 0); [done|]. by rewrite length_take.
Qed.

(** The READY rows after a pass that rewrites rows without making any
    READY. *)
Lemma ready_rows_fmap (keep : Row → Prop) `{!∀ r, Decision (keep r)}
    (f : Row → Row) tbl :
  (∀ r, keep r → f r = r) →
  (∀ r, ¬ keep r → status (f r) ≠ "READY") →
  ready_rows (f <$> tbl) = filter keep (ready_rows tbl).
Proof.
  intros Hkeep Hdrop. unfold ready_rows.
  induction tbl as [|r tbl IH]; [done|].
  rewrite fmap_cons, !filter_cons, IH. destruct (decide (keep r)) as [Hk|Hk].
  - rewrite (Hkeep r Hk). case_decide; [|done].
    by rewrite filter_cons, decide_True.
  - rewrite decide_False by (by apply Hdrop). case_decide; [|done].
    by rewrite filter_cons, decide_False.
Qed.

Lemma filter_fresh_keys (l1 l2 : list Row) :
  NoDup (domain <$> (l1 ++ l2)) →
  filter (λ r, domain r ∉ domain <$> l1) (l1 ++ l2) = l2.
Proof.
  rewrite fmap_app. intros (_ & Hdisj & _)%NoDup_app.
  rewrite filter_app.
  assert (H1 : filter (λ r, domain r ∉ domain <$> l1) l1 = []).
  { apply elem_of_nil_inv. intros r [Hr Hin]%list_elem_of_filter.
    apply Hr. by apply list_elem_of_fmap_2. }
  assert (H2 : filter (λ r, domain r ∉ domain <$> l1) l2 = l2).
  { clear H1. induction l2 as [|r l2 IH]; [done|]. rewrite filter_cons.
    rewrite decide_True.
    - f_equal. apply IH. intros x Hx Hx2. apply (Hdisj x Hx).
      rewrite fmap_cons. apply elem_of_cons. by right.
    - intros Hin. apply (Hdisj _ Hin). rewrite fmap_cons.
      apply elem_of_cons. by left. }
  by rewrite H1, H2.
Qed.

Lemma ready_rows_wf tbl : wf_table tbl → NoDup (domain <$> ready_rows tbl).
Proof.
  intros Hwf. eapply sublist_NoDup; [exact Hwf|].
  apply fmap_sublist, (sublist_filter (λ r, status r = "READY")).
Qed.

(** The READY rows that a claim leaves are the READY rows that it did not
    return. *)
Lemma claim_pending_raw_ready_rows now w limit tbl :
  wf_table tbl →
  ready_rows (claim_pending_raw now w limit tbl).2 =
  if limit <? 0 then [] else drop (Z.to_nat limit) (ready_rows tbl).
Proof.
  intros Hwf. rewrite claim_pending_raw_table.
  rewrite (ready_rows_fmap
             (λ r, domain r ∉ claimed_keys (select_ready limit tbl))).
  - unfold claimed_keys, select_ready. rewrite <- list_fmap_compose.
    change (p_domain ∘ select_columns) with domain.
    fold (ready_rows tbl). pose proof (ready_rows_wf tbl Hwf) as Hnd.
    unfold sql_limit. destruct (limit <? 0).
    + apply elem_of_nil_inv. intros r [Hr Hin]%list_elem_of_filter.
      apply Hr. by apply list_elem_of_fmap_2.
    + rewrite <- (take_drop (Z.to_nat limit) (ready_rows tbl)) in Hnd.
      pose proof (filter_fresh_keys _ _ Hnd) as Hf.
      by rewrite take_drop in Hf.
  - intros r Hr. rewrite decide_False; [done|]. by intros [? _].
  - intros r Hr. case_decide as Hc; simpl; [discriminate|].
    intros Hs. apply Hc. split; [|done]. by apply dec_stable.
Qed.

(** Every returned row was READY and is PROCESSING afterwards. *)
Lemma claim_pending_raw_no_double_claim_rows now w limit tbl p :
  p ∈ (claim_pending_raw now w limit tbl).1 →
  ∃ r, r ∈ tbl ∧ status r = "READY" ∧ select_columns r = p
       ∧ set_status "PROCESSING" now r ∈ (claim_pending_raw now w limit tbl).2.
Proof.
  intros Hp. pose proof Hp as Hp'. unfold claim_pending_raw in Hp'. simpl in Hp'.
  destruct (select_ready_elem_of _ _ _ Hp') as (r & Hr & Hs & Hc).
  exists r. split; [done|]. split; [done|]. split; [done|].
  rewrite claim_pending_raw_table. apply list_elem_of_fmap. exists r.
  split; [|done]. rewrite decide_True; [done|]. split; [|done].
  unfold claimed_keys. apply list_elem_of_fmap. exists p.
  split; [by rewrite <- Hc|done].
Qed.

(** X1. Under the primary key, a claim returns the first READY rows in the
    order of the table, as many as the limit allows (all of them for a
    negative limit, none for limit 0), and the rows that are READY after it
    are the READY rows that it did not return. *)
Theorem claim_pending_raw_takes_the_first_ready_rows now w limit tbl :
  wf_table tbl →
  let c := claim_pending_raw now w limit tbl in
  let n := if limit <? 0 then length (ready_rows tbl)
           else Nat.min (Z.to_nat limit) (length (ready_rows tbl)) in
  c.1 = select_columns <$> take n (ready_rows tbl)
  ∧ length c.1 = n
  ∧ ready_rows c.2 = drop n (ready_rows tbl)
  ∧ length (ready_rows c.2) = (length (ready_rows tbl) - n)%nat.
Proof.
  intros Hwf c n.
  assert (H1 : c.1 = select_columns <$> take n (ready_rows tbl)).
  { subst c n. unfold claim_pending_raw, select_ready, sql_limit. simpl.
    fold (ready_rows tbl). destruct (limit <? 0).
    - by rewrite firstn_all.
    - f_equal. rewrite <- take_take. rewrite firstn_all. done. }
  assert (H2 : length c.1 = n) by apply select_ready_length.
  assert (H3 : ready_rows c.2 = drop n (ready_rows tbl)).
  { subst c. rewrite claim_pending_raw_ready_rows by done. subst n.
    destruct (limit <? 0).
    - by rewrite drop_all.
    - destruct (Nat.min_spec (Z.to_nat limit) (length (ready_rows tbl)))
        as [[_ ->]|[Hle ->]]; [done|].
      rewrite drop_all. by rewrite drop_ge. }
  split; [done|]. split; [done|]. split; [done|].
  by rewrite H3, length_drop.
Qed.

Lemma claim_pending_raw_takes_the_first_ready_rows_witness :
  let tbl := [mkRow "a.com" "" "x" "[]" "READY" 0 0;
              mkRow "b.com" "" "y" "[]" "DONE" 0 0;
              mkRow "c.com" "" "z" "[]" "READY" 1 1] in
  let c := claim_pending_raw 5 "worker_1" 1 tbl in
  let n := if 1 <? 0 then length (ready_rows tbl)
           else Nat.min (Z.to_nat 1) (length (ready_rows tbl)) in
  c.1 = select_columns <$> take n (ready_rows tbl)
  ∧ length c.1 = n
  ∧ ready_rows c.2 = drop n (ready_rows tbl)
  ∧ length (ready_rows c.2) = (length (ready_rows tbl) - n)%nat.
Proof.
  intros tbl.
  apply (claim_pending_raw_takes_the_first_ready_rows 5 "worker_1" 1 tbl).
  by apply (bool_decide_unpack _).
Defined.

(** X2. A row claimed at [now_c] keeps its lease through every sweep whose
    threshold (the time of the sweep minus the timeout) is not later than
    [now_c]; a sweep with a later threshold puts it back to READY with its
    columns unchanged, and a claim that follows can return it again. *)
Theorem lease_is_kept_until_it_expires
    now_c w limit utcnow now_r timeout now' w' tbl p :
  p ∈ (claim_pending_raw now_c w limit tbl).1 →
  let swept :=
    (release_stuck_processing utcnow now_r timeout
       (claim_pending_raw now_c w limit tbl).2).2 in
  ∃ r, r ∈ tbl ∧ select_columns r = p
       ∧ (utcnow - timeout ≤ now_c → set_status "PROCESSING" now_c r ∈ swept)
       ∧ (now_c < utcnow - timeout →
            set_status "READY" now_r r ∈ swept
            ∧ p ∈ (claim_pending_raw now' w' (-1) swept).1).
Proof.
  intros Hp swept.
  destruct (claim_pending_raw_no_double_claim_rows now_c w limit tbl p Hp)
    as (r & Hr & Hs & Hc & Hin).
  exists r. split; [done|]. split; [done|].
  assert (Hmap : ∀ x, x ∈ (claim_pending_raw now_c w limit tbl).2 →
            (if decide (stuck (utcnow - timeout) x)
             then set_status "READY" now_r x else x) ∈ swept).
  { intros x Hx. subst swept. unfold release_stuck_processing.
    cbv zeta. cbn [snd].
    apply list_elem_of_fmap. by exists x. }
  specialize (Hmap _ Hin). split.
  - intros Hle. rewrite decide_False in Hmap; [done|].
    unfold stuck. simpl. lia.
  - intros Hlt. rewrite decide_True in Hmap by (unfold stuck; simpl; by split).
    split; [done|].
    unfold claim_pending_raw, select_ready, sql_limit. simpl.
    apply list_elem_of_fmap. exists (set_status "READY" now_r r).
    split; [by rewrite <- Hc|].
    apply list_elem_of_filter. split; [done|exact Hmap].
Qed.

Lemma lease_is_kept_until_it_expires_witness :
  let tbl := [mkRow "a.com" "" "x" "[]" "READY" 0 0;
              mkRow "b.com" "" "y" "[]" "READY" 1 1] in
  let p := mkPending "a.com" "x" "[]" in
  let swept :=
    (release_stuck_processing 1000 1001 900
       (claim_pending_raw 5 "worker_1" 1 tbl).2).2 in
  ∃ r, r ∈ tbl ∧ select_columns r = p
       ∧ (1000 - 900 ≤ 5 → set_status "PROCESSING" 5 r ∈ swept)
       ∧ (5 < 1000 - 900 →
            set_status "READY" 1001 r ∈ swept
            ∧ p ∈ (claim_pending_raw 2000 "worker_2" (-1) swept).1).
Proof.
  intros tbl p.
  apply (lease_is_kept_until_it_expires 5 "worker_1" 1 1000 1001 900 2000
           "worker_2" tbl p).
  apply elem_of_cons. by left.
Defined.

Lemma filter_fmap_nil {A} (P : A → Prop) `{!∀ x, Decision (P x)}
    (f : A → A) (l : list A) :
  (∀ x, P (f x) ↔ P x) → filter P (f <$> l) = [] ↔ filter P l = [].
Proof.
  intros Hf. induction l as [|x l IH]; [done|].
  rewrite fmap_cons, !filter_cons.
  destruct (decide (P x)) as [Hx|Hx].
  - by rewrite decide_True by (by apply Hf).
  - by rewrite decide_False by (by rewrite Hf).
Qed.

(** X3. The supervisor's test for an empty queue is true exactly when no
    row is READY or PROCESSING, and neither a claim nor a sweep changes its
    answer: both only move rows between READY and PROCESSING. *)
Theorem is_queue_empty_ignores_claims_and_sweeps
    now w limit utcnow now_r timeout tbl :
  (is_queue_empty tbl = true ↔
     ∀ r, r ∈ tbl → status r ≠ "READY" ∧ status r ≠ "PROCESSING")
  ∧ is_queue_empty (claim_pending_raw now w limit tbl).2 = is_queue_empty tbl
  ∧ is_queue_empty (release_stuck_processing utcnow now_r timeout tbl).2
    = is_queue_empty tbl.
Proof.
  split; [|split].
  - unfold is_queue_empty. rewrite bool_decide_eq_true. split.
    + intros Hnil r Hr.
      assert (Hn : ¬ (status r = "READY" ∨ status r = "PROCESSING")).
      { intros HP. by eapply (filter_nil_not_elem_of _ _ r Hnil HP). }
      tauto.
    + intros Hall. apply elem_of_nil_inv. intros r [HP Hr]%list_elem_of_filter.
      destruct (Hall r Hr). tauto.
  - rewrite claim_pending_raw_table. unfold is_queue_empty.
    apply bool_decide_ext, filter_fmap_nil. intros r.
    case_decide as Hc; simpl; [|done]. destruct Hc as [_ ->].
    split; intros _; [by left|by right].
  - unfold release_stuck_processing, is_queue_empty. cbv zeta. cbn [snd].
    apply bool_decide_ext, filter_fmap_nil. intros r.
    case_decide as Hc; simpl; [|done]. destruct Hc as [-> _].
    split; intros _; [by right|by left].
Qed.

Lemma filter_all {A} (P : A → Prop) `{!∀ x, Decision (P x)} (l : list A) :
  (∀ x, x ∈ l → P x) → filter P l = l.
Proof.
  induction l as [|x l IH]; intros Hall; [done|].
  rewrite filter_cons, decide_True by (apply Hall, elem_of_cons; by left).
  f_equal. apply IH. intros y Hy. apply Hall, elem_of_cons. by right.
Qed.

Lemma claimed_rows_not_ready now w limit tbl r :
  r ∈ (claim_pending_raw now w limit tbl).2 →
  domain r ∈ claimed_keys (claim_pending_raw now w limit tbl).1 →
  status r ≠ "READY".
Proof.
  rewrite claim_pending_raw_table. intros (r0 & -> & Hr0)%list_elem_of_fmap.
  case_decide as Hc; simpl; [discriminate|].
  intros Hk Hs. apply Hc. by split.
Qed.

End Leases.

(** ** The worker: what one call reports, and how the queue drains *)

Section WorkerProgress.
Import Py Db Worker.

Variable json_loads : string → option (list string).
Variable extract_profile : string → string → list string → Outcome Profile.
Variable save_extracted_data : string → Profile → Outcome ().
Variable clock : Clock.

Local Abbreviation process_row := (process_row json_loads extract_profile save_extracted_data clock).
Local Abbreviation process_once := (process_once json_loads extract_profile save_extracted_data clock).
Local Abbreviation worker_turn := (worker_turn json_loads extract_profile save_extracted_data clock).
Local Abbreviation worker_loop := (worker_loop json_loads extract_profile save_extracted_data clock).
Local Abbreviation pipeline_raises := (pipeline_raises json_loads extract_profile save_extracted_data).
Local Abbreviation extraction_of := (extraction_of json_loads extract_profile).

Local Arguments PyStr.slice_to : simpl never.

(** The three ways in which the body of the loop ends. *)
Lemma process_row_cases row w :
  ∃ st m sv,
    process_row row w =
    (Returned (),
     mkWorld (update_raw_status (update_now clock) (p_domain row) st
                (raw_scrapes w))
             (metrics w ++ [m]) sv)
    ∧ m_domain m = p_domain row
    ∧ ((st = "DONE" ∧ m_success m = true ∧ m_error_msg m = None
        ∧ ∃ profile, extraction_of row = Returned profile
            ∧ truthy profile = true
            ∧ save_extracted_data (p_domain row) profile = Returned ()
            ∧ sv = saved w ++ [(p_domain row, profile)])
       ∨ (st = "DONE" ∧ m_success m = false
          ∧ m_error_msg m = Some "No data extracted" ∧ sv = saved w
          ∧ ∃ profile, extraction_of row = Returned profile
              ∧ truthy profile = false)
       ∨ (st = "FAILED" ∧ m_success m = false ∧ sv = saved w
          ∧ ∃ msg, pipeline_raises row msg
              ∧ m_error_msg m = Some (PyStr.slice_to 500 msg))).
Proof.
  unfold Worker.process_row, try_except, call_extract_profile,
    call_save_extracted_data, db_update_raw_status, db_insert_metric,
    mbind, M_bind, bind, mret, M_ret, ret, insert_metric,
    Worker.pipeline_raises, Worker.extraction_of.
  destruct (extract_profile _ _ _) as [profile|msg] eqn:He; simpl.
  - destruct (truthy profile) eqn:Ht; simpl.
    + destruct (save_extracted_data _ _) as [[]|msg] eqn:Hs; simpl.
      * eexists _, _, _. split; [done|]. split; [done|]. left.
        repeat (split; [done|]). by exists profile.
      * eexists _, _, _. split; [done|]. split; [done|]. right. right.
        repeat (split; [done|]). exists msg. split; [|done].
        right. by exists profile.
    + eexists _, _, _. split; [done|]. split; [done|]. right. left.
      repeat (split; [done|]). by exists profile.
  - eexists _, _, _. split; [done|]. split; [done|]. right. right.
    repeat (split; [done|]). exists msg. split; [|done]. by left.
Qed.

Lemma process_once_idle worker_id w :
  ready_rows (raw_scrapes w) = [] → process_once worker_id w = (Returned 0, w).
Proof.
  intros Hnone.
  unfold Worker.process_once, db_claim_pending_raw, claim_pending_raw,
    select_ready, mbind, M_bind, bind, mret, M_ret, ret.
  fold (ready_rows (raw_scrapes w)). rewrite Hnone.
  unfold sql_limit. simpl. by destruct w.
Qed.

Lemma process_once_claimed worker_id w row :
  row ∈ (claim_pending_raw (claim_now clock) worker_id 1 (raw_scrapes w)).1 →
  process_once worker_id w =
  (Returned 1,
   (process_row row
      (mkWorld
         (claim_pending_raw (claim_now clock) worker_id 1 (raw_scrapes w)).2
         (metrics w) (saved w))).2).
Proof.
  intros Hrow. unfold claim_pending_raw in *. simpl in Hrow.
  unfold Worker.process_once, db_claim_pending_raw, claim_pending_raw,
    mbind, M_bind, bind, mret, M_ret, ret. cbn [fst snd].
  destruct (select_ready_one (raw_scrapes w)) as [E|[row' E]]; rewrite E in *.
  { by apply elem_of_nil in Hrow. }
  apply list_elem_of_singleton in Hrow. subst row'.
  rewrite decide_False by done. cbn [for_each fold_left length].
  unfold mbind, M_bind, bind, mret, M_ret, ret.
  match goal with |- context [Worker.process_row _ _ _ _ row ?w0] =>
    destruct (process_row_cases row w0) as (st & m & sv & -> & _) end.
  done.
Qed.


(** X5. A call that finds no READY row returns 0 and changes neither the
    table nor the metrics nor the tables of profiles, and so does the turn
    of the worker loop around it. *)
Theorem process_once_on_an_empty_queue worker_id w :
  ready_rows (raw_scrapes w) = [] →
  process_once worker_id w = (Returned 0, w)
  ∧ worker_turn worker_id w = (Returned (), w).
Proof.
  intros Hnone. split; [by apply process_once_idle|].
  unfold Worker.worker_turn, try_except, mbind, M_bind, bind, mret, M_ret, ret.
  fold process_once. by rewrite process_once_idle.
Qed.

(** One call under the primary key: it takes the first READY row, if there
    is one. *)
Lemma process_once_step worker_id w :
  wf_table (raw_scrapes w) →
  ∃ n w', process_once worker_id w = (Returned n, w')
    ∧ wf_table (raw_scrapes w')
    ∧ ready_rows (raw_scrapes w') = drop 1 (ready_rows (raw_scrapes w))
    ∧ length (metrics w') =
      (length (metrics w) + Nat.min 1 (length (ready_rows (raw_scrapes w))))%nat.
Proof.
  intros Hwf.
  destruct (ready_rows (raw_scrapes w)) as [|r0 rest] eqn:Hready.
  { exists 0, w. rewrite process_once_idle by done. rewrite Hready.
    repeat split; [done|simpl; lia]. }
  set (c := claim_pending_raw (claim_now clock) worker_id 1 (raw_scrapes w)).
  assert (Hrow : select_columns r0 ∈ c.1).
  { subst c. unfold claim_pending_raw, select_ready, sql_limit. simpl.
    fold (ready_rows (raw_scrapes w)). rewrite Hready. simpl.
    apply elem_of_cons. by left. }
  rewrite (process_once_claimed worker_id w _ Hrow). fold c.
  destruct (process_row_cases (select_columns r0)
              (mkWorld c.2 (metrics w) (saved w)))
    as (st & m & sv & -> & _ & Hcases).
  eexists _, _. split; [done|]. cbn [snd raw_scrapes metrics].
  destruct (operations_keep_primary_key (claim_now clock) worker_id 1
              "" "" "" "" "" (raw_scrapes w) Hwf) as (Hwfc & _ & _).
  fold c in Hwfc.
  split; [|split].
  - by destruct (operations_keep_primary_key (update_now clock) worker_id 1
                   (p_domain (select_columns r0)) "" "" "" st c.2 Hwfc)
      as (_ & ? & _).
  - assert (Hst : st ≠ "READY").
    { destruct Hcases as [(-> & _)|[(-> & _)|(-> & _)]]; discriminate. }
    unfold update_raw_status.
    rewrite (ready_rows_fmap (λ r, domain r ≠ p_domain (select_columns r0))).
    + transitivity (ready_rows c.2).
      * apply filter_all. intros r [Hs Hr]%list_elem_of_filter Hd.
        apply (claimed_rows_not_ready (claim_now clock) worker_id 1
                 (raw_scrapes w) r Hr); [|done].
        fold c. rewrite Hd. by apply list_elem_of_fmap_2.
      * subst c. rewrite claim_pending_raw_ready_rows by done.
        fold (ready_rows (raw_scrapes w)). by rewrite Hready.
    + intros r Hr. by rewrite decide_False.
    + intros r Hr%dec_stable. rewrite decide_True by done. done.
  - rewrite length_app. simpl. lia.
Qed.

Lemma worker_loop_steps worker_ids w :
  wf_table (raw_scrapes w) →
  ∃ w', worker_loop worker_ids w = (Returned (), w')
    ∧ wf_table (raw_scrapes w')
    ∧ ready_rows (raw_scrapes w') =
      drop (length worker_ids) (ready_rows (raw_scrapes w))
    ∧ length (metrics w') =
      (length (metrics w)
       + Nat.min (length worker_ids) (length (ready_rows (raw_scrapes w))))%nat.
Proof.
  revert w. induction worker_ids as [|worker_id ids IH]; intros w Hwf.
  - exists w. simpl. repeat split; [done|lia].
  - destruct (process_once_step worker_id w Hwf) as (n & w1 & H1 & Hwf1 & Hr1 & Hm1).
    destruct (IH w1 Hwf1) as (w' & H' & Hwf' & Hr' & Hm').
    exists w'. cbn [Worker.worker_loop].
    unfold mbind, M_bind, bind at 1.
    unfold Worker.worker_turn, try_except, mbind, M_bind, bind, mret, M_ret, ret.
    fold process_once. rewrite H1. fold worker_loop. rewrite H'.
    split; [done|]. split; [done|].
    rewrite Hr', Hm', Hr1, drop_drop, length_drop. simpl length.
    split; [f_equal; lia|lia].
Qed.

(** X6. Under the primary key, the turns of one worker take the READY rows
    one by one in the order of the table: after [n] turns the rows still
    READY are the READY rows of the start without their first [n], the
    metrics have one row more for each row taken, and the loop has returned
    from every turn; so as many turns as there were READY rows leave none. *)
Theorem worker_loop_drains_the_queue worker_ids w :
  wf_table (raw_scrapes w) →
  let res := worker_loop worker_ids w in
  res.1 = Returned ()
  ∧ wf_table (raw_scrapes res.2)
  ∧ ready_rows (raw_scrapes res.2) =
    drop (length worker_ids) (ready_rows (raw_scrapes w))
  ∧ length (metrics res.2) =
    (length (metrics w)
     + Nat.min (length worker_ids) (length (ready_rows (raw_scrapes w))))%nat
  ∧ ((length (ready_rows (raw_scrapes w)) ≤ length worker_ids)%nat →
     ready_rows (raw_scrapes res.2) = []).
Proof.
  intros Hwf res. subst res.
  destruct (worker_loop_steps worker_ids w Hwf) as (w' & -> & Hwf' & Hr & Hm).
  cbn [fst snd]. repeat (split; [done|]).
  intros Hle. rewrite Hr. by apply drop_ge.
Qed.

End WorkerProgress.

Section WorkerProgressWitnesses.
Import Py Db Worker.

Let json_loads0 : string → option (list string) := λ _, None.
Let extract0 : string → string → list string → Outcome Profile :=
  λ _ _ _, Returned [("company_name", "A")].
Let save0 : string → Profile → Outcome () := λ _ _, Returned ().
Let clock0 : Clock := mkClock 1 2 3 4.


Lemma process_once_on_an_empty_queue_witness :
  let w := mkWorld [mkRow "a.com" "" "text" "[]" "DONE" 0 0] [] [] in
  process_once json_loads0 extract0 save0 clock0 "worker_1" w = (Returned 0, w)
  ∧ worker_turn json_loads0 extract0 save0 clock0 "worker_1" w = (Returned (), w).
Proof.
  intros w.
  apply (process_once_on_an_empty_queue json_loads0 extract0 save0 clock0
           "worker_1" w).
  reflexivity.
Defined.

Lemma worker_loop_drains_the_queue_witness :
  let w := mkWorld [mkRow "a.com" "" "text" "[]" "READY" 0 0;
                    mkRow "b.com" "" "text" "[]" "READY" 0 0] [] [] in
  let ids := ["worker_1"; "worker_2"] in
  let res := worker_loop json_loads0 extract0 save0 clock0 ids w in
  res.1 = Returned ()
  ∧ wf_table (raw_scrapes res.2)
  ∧ ready_rows (raw_scrapes res.2) =
    drop (length ids) (ready_rows (raw_scrapes w))
  ∧ length (metrics res.2) =
    (length (metrics w)
     + Nat.min (length ids) (length (ready_rows (raw_scrapes w))))%nat
  ∧ ((length (ready_rows (raw_scrapes w)) ≤ length ids)%nat →
     ready_rows (raw_scrapes res.2) = []).
Proof.
  intros w ids.
  apply (worker_loop_drains_the_queue json_loads0 extract0 save0 clock0 ids w).
  by apply (bool_decide_unpack _).
Defined.

End WorkerProgressWitnesses.

(** ** Registration of a scraped batch *)

Section Enqueue.
Import Py Db Loader.

Implicit Types (tbl : list Row) (r : Row) (e : Entry) (b : list Entry).

Lemma upsert_elem_of now tbl e r :
  r ∈ upsert now tbl e →
  (r ∈ tbl ∧ domain r ≠ e_domain e)
  ∨ ∃ created, r = row_of e created now.
Proof.
  destruct (decide (e_domain e ∈ domain <$> tbl)) as [Hin|Hout].
  - rewrite upsert_present by done. intros (r0 & -> & Hr0)%list_elem_of_fmap.
    destruct (decide (domain r0 = e_domain e)) as [Heq|Hne].
    + right. exists (created_at r0). by rewrite (overwrite_same now r0 e Heq).
    + left. by rewrite (overwrite_other now r0 e Hne).
  - rewrite upsert_absent by done.
    intros [Hr|Hr%list_elem_of_singleton]%elem_of_app.
    + left. split; [done|]. intros Heq. apply Hout. rewrite <- Heq.
      by apply list_elem_of_fmap_2.
    + right. by exists now.
Qed.

Lemma upsert_keeps_other_rows now tbl e r :
  r ∈ tbl → domain r ≠ e_domain e → r ∈ upsert now tbl e.
Proof.
  intros Hr Hne. destruct (decide (e_domain e ∈ domain <$> tbl)) as [Hin|Hout].
  - rewrite upsert_present by done. apply list_elem_of_fmap. exists r.
    by rewrite (overwrite_other now r e Hne).
  - rewrite upsert_absent by done. apply elem_of_app. by left.
Qed.

(** The rows after a batch: those of its keys hold the columns of one of its
    entries, the others are the rows of before. *)
Lemma register_elem_of now b tbl r :
  r ∈ fold_left (upsert now) b tbl →
  (r ∈ tbl ∧ domain r ∉ e_domain <$> b)
  ∨ ∃ e, e ∈ b ∧ r = row_of e (created_at r) now.
Proof.
  revert r. induction b as [|e b IH] using rev_ind; intros r Hr.
  - left. split; [done|apply not_elem_of_nil].
  - rewrite fold_left_app in Hr. simpl in Hr.
    apply upsert_elem_of in Hr as [[Hr Hne]|[created ->]].
    + destruct (IH r Hr) as [[Ht Hk]|(e' & He' & Heq)].
      * left. split; [done|]. rewrite fmap_app.
        intros [?|?%list_elem_of_singleton]%elem_of_app; done.
      * right. exists e'. split; [|done]. apply elem_of_app. by left.
    + right. exists e. split; [|done]. apply elem_of_app. right.
      by apply list_elem_of_singleton.
Qed.

Lemma register_keeps_other_rows now b tbl r :
  r ∈ tbl → domain r ∉ e_domain <$> b → r ∈ fold_left (upsert now) b tbl.
Proof.
  revert tbl. induction b as [|e b IH]; intros tbl Hr Hk; simpl; [done|].
  rewrite fmap_cons in Hk. apply IH.
  - apply upsert_keeps_other_rows; [done|]. intros Heq. apply Hk.
    apply elem_of_cons. by left.
  - intros Hin. apply Hk, elem_of_cons. by right.
Qed.

Lemma entry_of_domain scrape_domain (d : string) :
  e_domain (entry_of scrape_domain d) = d.
Proof.
  unfold entry_of. destruct (scrape_domain d) as [[[? ?] ?]|]; [|done].
  by case_decide.
Qed.

(** X7. After [scrape_and_enqueue] every domain of the batch has a row, and
    every row of such a domain holds what the scrape of the domain gave:
    READY with the scraped text when the scrape returned a non-empty text,
    FAILED with empty columns when it returned no text or raised; the rows
    of other domains are those of before; the primary key is kept; and a
    claim made afterwards returns a domain of the batch only if its scrape
    returned a non-empty text, which it then returns. *)
Theorem scrape_and_enqueue_registers_the_batch
    (scrape_domain : string → Outcome (string * string * string))
    (now : Z) (doms : list string) (max_domains : option Z) tbl :
  let batch := truncate max_domains doms in
  let res := scrape_and_enqueue scrape_domain now doms max_domains tbl in
  (∀ d, d ∈ batch → d ∈ domain <$> res)
  ∧ (∀ r, r ∈ res → domain r ∈ batch →
       r = row_of (entry_of scrape_domain (domain r)) (created_at r) now)
  ∧ (∀ r, domain r ∉ batch → r ∈ res ↔ r ∈ tbl)
  ∧ (wf_table tbl → wf_table res)
  ∧ (∀ now' w limit p,
       p ∈ (claim_pending_raw now' w limit res).1 → p_domain p ∈ batch →
       ∃ snapshot,
         scrape_domain (p_domain p)
         = Returned (snapshot, p_clean_text p, p_tech_stack p)
         ∧ p_clean_text p ≠ "").
Proof.
  assert (Hfold : ∀ l t,
    fold_left (λ t d, upsert now t (entry_of scrape_domain d)) l t =
    fold_left (upsert now) (entry_of scrape_domain <$> l) t).
  { intros l. induction l as [|d l IH]; intros t; simpl; [done|apply IH]. }
  assert (Hwfb : ∀ b t, wf_table t → wf_table (fold_left (upsert now) b t)).
  { intros b. induction b as [|e b IH]; intros t Hwf; simpl; [done|]. apply IH.
    by destruct (operations_keep_primary_key now "" 0 (e_domain e)
                   (e_snapshot_path e) (e_clean_text e) (e_tech_stack e)
                   (e_status e) t Hwf) as (_ & _ & ?). }
  intros batch res.
  assert (Hres : res = fold_left (upsert now) (entry_of scrape_domain <$> batch) tbl).
  { subst res batch. unfold scrape_and_enqueue. apply Hfold. }
  assert (Hkeys : e_domain <$> (entry_of scrape_domain <$> batch) = batch).
  { rewrite <- list_fmap_compose. rewrite <- (list_fmap_id batch) at 2.
    apply list_fmap_ext. intros i d _. apply entry_of_domain. }
  assert (Hrows : ∀ r, r ∈ res → domain r ∈ batch →
            r = row_of (entry_of scrape_domain (domain r)) (created_at r) now).
  { intros r Hr Hd. rewrite Hres in Hr.
    destruct (register_elem_of _ _ _ _ Hr) as [[_ Hk]|(e & He & Heq)].
    - by rewrite Hkeys in Hk.
    - apply list_elem_of_fmap in He as (d & -> & _).
      assert (Hdom : domain r = d).
      { rewrite Heq. unfold row_of. simpl. apply entry_of_domain. }
      by rewrite Hdom. }
  split; [|split; [done|split; [|split]]].
  - intros d Hd. rewrite Hres. rewrite <- (entry_of_domain scrape_domain d).
    apply register_domains_batch. by apply list_elem_of_fmap_2.
  - intros r Hd. rewrite Hres. split.
    + intros Hr. destruct (register_elem_of _ _ _ _ Hr) as [[? _]|(e & He & Heq)];
        [done|]. destruct Hd.
      apply list_elem_of_fmap in He as (d & -> & Hin).
      rewrite Heq. unfold row_of. simpl. by rewrite entry_of_domain.
    + intros Hr. apply register_keeps_other_rows; [done|]. by rewrite Hkeys.
  - intros Hwf. rewrite Hres. by apply Hwfb.
  - intros now' w limit p Hp Hd.
    destruct (claim_pending_raw_no_double_claim_rows _ _ _ _ _ Hp)
      as (r & Hr & Hs & <- & _).
    change (p_domain (select_columns r)) with (domain r) in *.
    change (p_clean_text (select_columns r)) with (clean_text r).
    change (p_tech_stack (select_columns r)) with (tech_stack r).
    pose proof (Hrows r Hr Hd) as Heq.
    unfold entry_of in Heq.
    destruct (scrape_domain (domain r)) as [[[snapshot text] tech]|msg].
    + destruct (decide (text = "")) as [->|Hne].
      * rewrite Heq in Hs. simpl in Hs. discriminate.
      * exists snapshot. rewrite Heq. simpl. done.
    + rewrite Heq in Hs. discriminate.
Qed.

End Enqueue.

(** ** The Redis queue and the results of a job *)

Section RedisQueue.
Import Py JobStatus RedisManager.

Implicit Types (rd : Redis) (bk : Broker) (jid dom : string).

Lemma take_tasks_cons now worker_id calls bk :
  take_tasks ((now, worker_id) :: calls) bk =
  ((get_next_task now worker_id bk).1
     :: (take_tasks calls (get_next_task now worker_id bk).2).1,
   (take_tasks calls (get_next_task now worker_id bk).2).2).
Proof.
  simpl. destruct (get_next_task now worker_id bk) as [task bk1]. simpl.
  by destruct (take_tasks calls bk1).
Qed.

(** X8. The queue is first in, first out: the calls of [get_next_task]
    return the queued tasks in the order of the list, the [i]-th call the
    [i]-th task, stamped with the worker and time of the call, and [None]
    once the list is exhausted; the list loses what was returned and
    nothing else changes in the jobs and results. The tasks of a new job
    are queued behind those already waiting, in the order of its
    domains. *)
Theorem get_next_task_is_first_in_first_out calls bk :
  let res := take_tasks calls bk in
  let queue := pending_queue (store bk) in
  length res.1 = length calls
  ∧ (∀ (i : nat) now worker_id, calls !! i = Some (now, worker_id) →
       res.1 !! i =
       Some ((λ t, mkWorkerTask (t_job_id t) (t_domain t) (t_queued_at t)
                                worker_id now) <$> queue !! i))
  ∧ pending_queue (store res.2) = drop (length calls) queue
  ∧ jobs (store res.2) = jobs (store bk)
  ∧ results (store res.2) = results (store bk)
  ∧ (∀ now jid doms,
       pending_queue (create_job now jid doms (store bk)).2
       = queue ++ ((λ d, mkTask jid d now) <$> doms)).
Proof.
  cbv zeta. split; [|split; [|split; [|split; [|split; [|done]]]]];
    revert bk; induction calls as [|[now worker_id] calls IH]; intros bk;
    try done; rewrite take_tasks_cons; cbn [fst snd].
  - simpl. by rewrite IH.
  - intros [|i] now' wid Hi; simpl in Hi.
    + injection Hi as -> ->. simpl. f_equal.
      unfold get_next_task. by destruct (pending_queue (store bk)).
    + simpl. rewrite (IH _ i now' wid Hi). f_equal.
      unfold get_next_task.
      destruct (pending_queue (store bk)) eqn:E; simpl; by rewrite ?E, ?lookup_nil.
  - rewrite IH. unfold get_next_task.
    destruct (pending_queue (store bk)) eqn:E; simpl; by rewrite ?E, ?drop_nil.
  - rewrite IH. unfold get_next_task. by destruct (pending_queue (store bk)).
  - rewrite IH. unfold get_next_task. by destruct (pending_queue (store bk)).
Qed.

Lemma result_key_inj jid d1 d2 :
  result_key jid d1 = result_key jid d2 → d1 = d2.
Proof. unfold result_key. by intros ?%(inj _)%(inj _)%(inj _). Qed.

Lemma dict_get_set {V} (k k' : string) (v : V) d :
  dict_get k (dict_set k' v d) =
  if decide (k = k') then Some v else dict_get k d.
Proof.
  induction d as [|[k0 v0] d IH]; simpl.
  - destruct (decide (k' = k)), (decide (k = k')); congruence.
  - destruct (decide (k0 = k')) as [->|Hne]; simpl.
    + destruct (decide (k' = k)), (decide (k = k')); congruence.
    + rewrite IH. destruct (decide (k0 = k)), (decide (k = k')); congruence.
Qed.

Lemma dict_set_keys {V} (k : string) (v : V) d :
  (dict_set k v d).*1 = if decide (k ∈ d.*1) then d.*1 else d.*1 ++ [k].
Proof.
  induction d as [|[k0 v0] d IH]; [done|].
  cbn [dict_set]. rewrite !fmap_cons. cbn [fst].
  destruct (decide (k0 = k)) as [->|Hne].
  - rewrite fmap_cons, decide_True; [done|apply elem_of_cons; by left].
  - rewrite fmap_cons, IH. cbn [fst]. destruct (decide (k ∈ d.*1)) as [Hin|Hin].
    + rewrite decide_True; [done|apply elem_of_cons; by right].
    + rewrite decide_False; [done|].
      intros [?|?]%elem_of_cons; congruence.
Qed.

Lemma dict_set_NoDup {V} (k : string) (v : V) d :
  NoDup d.*1 → NoDup (dict_set k v d).*1.
Proof.
  intros Hnd. rewrite dict_set_keys. case_decide as Hin; [done|].
  apply NoDup_app. split; [done|]. split; [|apply NoDup_singleton].
  intros x Hx ->%list_elem_of_singleton. done.
Qed.

(** The dict that [get_job_status] collects. *)
Lemma collected_results jid rd doms acc :
  let res :=
    fold_left (λ acc dom,
                 match results rd !! result_key jid dom with
                 | Some result => dict_set dom result acc
                 | None => acc
                 end) doms acc in
  (∀ d, dict_get d res =
        if decide (d ∈ doms) then
          match results rd !! result_key jid d with
          | Some result => Some result
          | None => dict_get d acc
          end
        else dict_get d acc)
  ∧ (NoDup acc.*1 → NoDup res.*1)
  ∧ (length res ≤ length acc + length doms)%nat.
Proof.
  revert acc. induction doms as [|dom doms IH]; intros acc; cbn [fold_left].
  - split; [|split; [done|simpl; lia]]. intros d.
    rewrite decide_False; [done|apply not_elem_of_nil].
  - assert (Hcons : ∀ d (a b : option Result), d ≠ dom →
              (if decide (d ∈ dom :: doms) then a else b)
              = if decide (d ∈ doms) then a else b).
    { intros d a b Hne. destruct (decide (d ∈ doms)) as [Hin|Hin].
      - rewrite decide_True; [done|apply elem_of_cons; by right].
      - rewrite decide_False; [done|].
        intros [?|?]%elem_of_cons; congruence. }
    assert (Hhead : ∀ (a b : option Result),
              (if decide (dom ∈ dom :: doms) then a else b) = a).
    { intros a b. rewrite decide_True; [done|apply elem_of_cons; by left]. }
    destruct (results rd !! result_key jid dom) as [result|] eqn:E.
    + destruct (IH (dict_set dom result acc)) as (Hget & Hnd & Hlen).
      split; [|split].
      * intros d. rewrite Hget, dict_get_set.
        destruct (decide (d = dom)) as [->|Hne].
        -- rewrite Hhead, E. by destruct (decide (dom ∈ doms)).
        -- by rewrite Hcons.
      * intros Hacc. by apply Hnd, dict_set_NoDup.
      * etrans; [apply Hlen|].
        assert (length (dict_set dom result acc) ≤ S (length acc))%nat;
          [|simpl; lia].
        rewrite <- !(length_fmap fst).
        change (length (dict_set dom result acc).*1 ≤ S (length acc.*1))%nat.
        rewrite dict_set_keys. destruct (decide (dom ∈ acc.*1)); [lia|].
        rewrite length_app. simpl. lia.
    + destruct (IH acc) as (Hget & Hnd & Hlen).
      split; [|split; [done|simpl; lia]].
      intros d. rewrite Hget.
      destruct (decide (d = dom)) as [->|Hne].
      * rewrite Hhead, E. by destruct (decide (dom ∈ doms)).
      * by rewrite Hcons.
Qed.

Lemma count_result_domains now success job :
  domains (count_result now success job) = domains job.
Proof. unfold count_result. by repeat case_match. Qed.

(** X9. A result that is submitted is what [get_job_status] and
    [get_all_results] give back for its domain, beside the job with the
    result counted and the earlier results of the other domains; the dict
    of results has one item for each domain of the job that has a result
    stored, so that a result submitted for a domain that is not among the
    domains of the job is counted and stored but never given back. For an
    unknown job the result is stored and no job is created. The queue is
    not touched. *)
Theorem submit_result_is_read_back now jid dom success data error rd :
  let rd' := submit_result now jid dom success data error rd in
  let result := mkResult jid dom success now data error in
  results rd' !! result_key jid dom = Some result
  ∧ get_queue_size rd' = get_queue_size rd
  ∧ match jobs rd !! job_key jid with
    | Some job =>
        ∃ res,
          get_job_status jid rd' = Some (count_result now success job, res)
          ∧ get_all_results jid rd' = res
          ∧ NoDup res.*1
          ∧ ∀ d, dict_get d res =
                 if decide (d ∈ domains job) then
                   if decide (d = dom) then Some result
                   else results rd !! result_key jid d
                 else None
    | None => get_job_status jid rd' = None ∧ get_all_results jid rd' = []
    end.
Proof.
  intros rd' result. subst rd'. unfold submit_result. fold result.
  destruct (jobs rd !! job_key jid) as [job|] eqn:Hjob.
  - split; [apply lookup_insert_eq|]. split; [done|].
    unfold get_all_results, get_job_status. cbn [jobs results].
    rewrite lookup_insert_eq, count_result_domains.
    eexists. split; [done|]. split; [done|].
    match goal with |- context [fold_left ?f (domains job) []] =>
      destruct (collected_results jid
                  (mkRedis (<[job_key jid:=count_result now success job]> (jobs rd))
                           (<[result_key jid dom:=result]> (results rd))
                           (pending_queue rd))
                  (domains job) []) as (Hget & Hnd & _) end.
    cbn [results] in Hget, Hnd.
    split; [apply Hnd; constructor|].
    intros d. rewrite Hget. case_decide; [|done].
    destruct (decide (d = dom)) as [->|Hne].
    + by rewrite lookup_insert_eq.
    + rewrite lookup_insert_ne; [|by intros ?%result_key_inj].
      by destruct (results rd !! result_key jid d).
  - split; [apply lookup_insert_eq|]. split; [done|].
    unfold get_all_results, get_job_status. cbn [jobs]. by rewrite Hjob.
Qed.

Lemma fold_delete_lookup jid doms (m : gmap string Result) k :
  fold_left (λ m dom, delete (result_key jid dom) m) doms m !! k =
  if decide (k ∈ result_key jid <$> doms) then None else m !! k.
Proof.
  revert m. induction doms as [|dom doms IH]; intros m; cbn [fold_left].
  - rewrite decide_False; [done|apply not_elem_of_nil].
  - rewrite IH, fmap_cons.
    destruct (decide (k = result_key jid dom)) as [->|Hne].
    + rewrite lookup_delete_eq.
      rewrite (decide_True (P := _ ∈ _ :: _)); [|apply elem_of_cons; by left].
      by destruct (decide (_ ∈ _)).
    + rewrite lookup_delete_ne by done.
      destruct (decide (k ∈ result_key jid <$> doms)) as [Hin|Hin].
      * rewrite decide_True; [done|apply elem_of_cons; by right].
      * rewrite decide_False; [done|].
        intros [?|?]%elem_of_cons; congruence.
Qed.

(** X10. [clear_job] removes the job and the results stored for the
    domains of the job, and nothing else: other jobs and other results
    stay, among them a result that was submitted under this job for a
    domain outside its list; the tasks of the job that are still queued
    stay in the queue, and a result submitted for one of them later is
    stored although the job is gone, without bringing the job back. For an
    unknown job nothing changes. *)
Theorem clear_job_forgets_the_job jid rd :
  let rd' := clear_job jid rd in
  get_job_status jid rd' = None
  ∧ get_all_results jid rd' = []
  ∧ pending_queue rd' = pending_queue rd
  ∧ (∀ jid', jid' ≠ jid → jobs rd' !! job_key jid' = jobs rd !! job_key jid')
  ∧ match jobs rd !! job_key jid with
    | Some job =>
        ∀ k, results rd' !! k =
             if decide (k ∈ result_key jid <$> domains job)
             then None else results rd !! k
    | None => rd' = rd
    end
  ∧ (∀ now dom success data error,
       let rd'' := submit_result now jid dom success data error rd' in
       get_job_status jid rd'' = None
       ∧ results rd'' !! result_key jid dom
         = Some (mkResult jid dom success now data error)
       ∧ pending_queue rd'' = pending_queue rd).
Proof.
  intros rd'.
  assert (Hgone : jobs rd' !! job_key jid = None).
  { subst rd'. unfold clear_job, get_job_status.
    destruct (jobs rd !! job_key jid) eqn:E; [apply lookup_delete_eq|done]. }
  assert (Hqueue : pending_queue rd' = pending_queue rd).
  { subst rd'. unfold clear_job, get_job_status.
    by destruct (jobs rd !! job_key jid). }
  split; [unfold get_job_status; by rewrite Hgone|].
  split; [unfold get_all_results, get_job_status; by rewrite Hgone|].
  split; [done|]. split; [|split].
  - intros jid' Hne. subst rd'. unfold clear_job, get_job_status.
    destruct (jobs rd !! job_key jid); [|done]. cbn [jobs].
    apply lookup_delete_ne. by intros ?%job_key_inj.
  - subst rd'. unfold clear_job, get_job_status.
    destruct (jobs rd !! job_key jid) as [job|]; [|done]. cbn [results].
    apply fold_delete_lookup.
  - intros now dom success data error rd''. subst rd''.
    unfold submit_result. rewrite Hgone. cbn [pending_queue results].
    split; [unfold get_job_status; cbn [jobs]; by rewrite Hgone|].
    split; [apply lookup_insert_eq|done].
Qed.

End RedisQueue.

(** ** The status endpoint *)

Section StatusReport.
Import Py JobStatus ApiServer.

Variable isoformat : Z → string.

Implicit Types (rd : RedisManager.Redis) (api : Api) (jid dom : string).
Implicit Types (res : list (string * RedisManager.Result)).

Lemma dict_get_None {V} (k : string) (d : list (string * V)) :
  k ∉ d.*1 → dict_get k d = None.
Proof.
  induction d as [|[k0 v0] d IH]; [done|]. rewrite fmap_cons. cbn [fst dict_get].
  intros Hk. rewrite decide_False; [|intros ->; apply Hk, elem_of_cons; by left].
  apply IH. intros ?. apply Hk, elem_of_cons. by right.
Qed.

Lemma dict_get_list_to_map {V} (k : string) (d : list (string * V)) :
  (list_to_map d : gmap string V) !! k = dict_get k d.
Proof.
  induction d as [|[k0 v0] d IH]; [done|].
  rewrite list_to_map_cons. cbn [dict_get].
  destruct (decide (k0 = k)) as [->|Hne].
  - apply lookup_insert_eq.
  - by rewrite lookup_insert_ne.
Qed.

Lemma successes_keys res :
  ((λ item : string * RedisManager.Result,
      (item.1, RedisManager.r_data item.2)) <$> successes res).*1
  `sublist_of` res.*1.
Proof.
  rewrite <- list_fmap_compose. unfold successes.
  erewrite list_fmap_ext; [apply fmap_sublist, sublist_filter|].
  by intros ? [??] ?.
Qed.

Lemma dict_get_successes d res :
  NoDup res.*1 →
  dict_get d ((λ item, (item.1, RedisManager.r_data item.2)) <$> successes res)
  = match dict_get d res with
    | Some r =>
        if RedisManager.r_success r then Some (RedisManager.r_data r) else None
    | None => None
    end.
Proof.
  induction res as [|[k0 r0] res IH]; [done|].
  rewrite fmap_cons. cbn [fst]. intros [Hk0 Hnd]%NoDup_cons.
  unfold successes in *. rewrite filter_cons. cbn [snd dict_get].
  destruct (decide (RedisManager.r_success r0 = true)) as [Hs|Hs].
  - rewrite fmap_cons. cbn [fst snd dict_get].
    destruct (decide (k0 = d)); [by rewrite Hs|by apply IH].
  - destruct (decide (k0 = d)) as [->|Hne]; [|by apply IH].
    apply not_true_is_false in Hs. rewrite Hs.
    apply dict_get_None. intros Hin. apply Hk0.
    by apply (sublist_subseteq _ _ (successes_keys res)).
Qed.

Lemma count_result_total now success (job : RedisManager.Job) :
  RedisManager.total (RedisManager.count_result now success job)
  = RedisManager.total job.
Proof. unfold RedisManager.count_result. by repeat case_match. Qed.

(** The submissions of workers, each for the job that it names. *)
Lemma submissions_keep_job (subs : list (string * RedisManager.Submission))
    rd jid (job : RedisManager.Job) :
  RedisManager.jobs rd !! RedisManager.job_key jid = Some job →
  ∃ job',
    RedisManager.jobs
      (fold_left (λ rd js, RedisManager.submit js.1 rd js.2) subs rd)
      !! RedisManager.job_key jid = Some job'
    ∧ RedisManager.domains job' = RedisManager.domains job
    ∧ RedisManager.total job' = RedisManager.total job.
Proof.
  revert rd job. induction subs as [|[jid' sub] subs IH]; intros rd job Hjob.
  - by exists job.
  - cbn [fold_left fst snd].
    assert (Hstep : ∃ job1,
      RedisManager.jobs (RedisManager.submit jid' rd sub)
        !! RedisManager.job_key jid = Some job1
      ∧ RedisManager.domains job1 = RedisManager.domains job
      ∧ RedisManager.total job1 = RedisManager.total job).
    { unfold RedisManager.submit, RedisManager.submit_result.
      destruct (decide (jid' = jid)) as [->|Hne].
      - rewrite Hjob. cbn [RedisManager.jobs]. rewrite lookup_insert_eq.
        eexists. split; [done|].
        by rewrite count_result_domains, count_result_total.
      - exists job.
        destruct (RedisManager.jobs rd !! RedisManager.job_key jid');
          cbn [RedisManager.jobs]; [|done].
        rewrite lookup_insert_ne; [done|by intros ?%job_key_inj]. }
    destruct Hstep as (job1 & Hjob1 & Hd1 & Ht1).
    destruct (IH _ _ Hjob1) as (job2 & Hjob2 & Hd2 & Ht2).
    exists job2. split; [done|]. split; congruence.
Qed.

(** X11. The status of a Redis job, after any results have been submitted
    by the workers for any jobs: the entry of [approved_data] of a domain is
    the data of the result stored for it, present when the domain is one of
    the job and the result stored last for it is a success; [completed] and
    [approved_count] are the number of these entries, which is at most
    [total] however many results were submitted, and there are at most
    [total] log entries; [failed] is the counter of the job. A job that is
    known to neither mode is answered 404. *)
Theorem get_status_counts_domains_not_submissions
    now jid doms rd api (subs : list (string * RedisManager.Submission)) :
  let rd1 := fold_left (λ rd js, RedisManager.submit js.1 rd js.2) subs
               (RedisManager.create_job now jid doms rd).2 in
  (∃ body job,
     get_status isoformat true jid rd1 api = Ok body
     ∧ RedisManager.jobs rd1 !! RedisManager.job_key jid = Some job
     ∧ b_mode body = "redis_parallel"
     ∧ b_status body = RedisManager.status job
     ∧ b_failed body = RedisManager.failed job
     ∧ b_total body = Z.of_nat (length doms)
     ∧ 0 ≤ b_completed body ≤ b_total body
     ∧ b_completed body = Z.of_nat (size (b_approved_data body))
     ∧ b_approved_count body = b_completed body
     ∧ (length (b_logs body) ≤ length doms)%nat
     ∧ ∀ d, b_approved_data body !! d =
            if decide (d ∈ doms) then
              match RedisManager.results rd1 !! RedisManager.result_key jid d with
              | Some r =>
                  if RedisManager.r_success r
                  then Some (RedisManager.r_data r) else None
              | None => None
              end
            else None)
  ∧ (∀ available jid',
       (available = false ∨ RedisManager.jobs rd1 !! RedisManager.job_key jid' = None) →
       processing_jobs api !! jid' = None →
       get_status isoformat available jid' rd1 api
       = HttpError 404 "Job not found").
Proof.
  intros rd1. split.
  - destruct (submissions_keep_job subs (RedisManager.create_job now jid doms rd).2
                jid _ (lookup_insert_eq _ _ _)) as (job & Hjob & Hdoms & Htotal).
    fold rd1 in Hjob. cbn in Hdoms, Htotal.
    destruct (collected_results jid rd1 doms []) as (Hget & Hnd & Hlen).
    specialize (Hnd (NoDup_nil_2)). cbn [length] in Hlen.
    set (res := fold_left _ doms []) in *.
    assert (Hstatus : RedisManager.get_job_status jid rd1 = Some (job, res)).
    { unfold RedisManager.get_job_status. by rewrite Hjob, Hdoms. }
    unfold get_status. rewrite Hstatus.
    assert (Hsub := successes_keys res).
    assert (Hlen2 : (length (successes res) ≤ length doms)%nat).
    { etrans; [apply length_filter|done]. }
    eexists. exists job. split; [done|]. cbn.
    split; [done|]. split; [done|]. split; [done|]. split; [done|].
    split; [done|]. split; [lia|]. split; [|split; [done|split]].
    + rewrite map_size_list_to_map; [by rewrite length_fmap|].
      eapply sublist_NoDup; [exact Hnd|exact Hsub].
    + by rewrite length_fmap.
    + intros d. rewrite dict_get_list_to_map, dict_get_successes by done.
      rewrite Hget. destruct (decide (d ∈ doms)); [|done].
      by destruct (RedisManager.results rd1 !! RedisManager.result_key jid d).
  - intros available jid' Hno Hseq. unfold get_status.
    assert (Hnone : (if available then RedisManager.get_job_status jid' rd1
                     else None) = None).
    { destruct available; [|done]. destruct Hno as [?|Hno]; [done|].
      unfold RedisManager.get_job_status. by rewrite Hno. }
    by rewrite Hnone, Hseq.
Qed.

End StatusReport.

(** ** The approval queue of a sequential job *)

Section ApprovalQueue.
Import Py JobStatus ApiServer.

Implicit Types (api : Api) (job : Job) (jid dom ts : string).

(** What a call of the endpoint does to the job that it names, when the
    domain is pending. *)
Lemma accept_extracted_resolves save ts jid dom accept api job data :
  processing_jobs api !! jid = Some job →
  pending_approvals job !! dom = Some data →
  ∃ job',
    processing_jobs (accept_extracted save ts (mkAcceptInput jid dom accept) api).2
      !! jid = Some job'
    ∧ total job' = total job
    ∧ pending_approvals job' = delete dom (pending_approvals job)
    ∧ completed job' + failed job' = completed job + failed job + 1
    ∧ (Z.of_nat (size (pending_approvals job')) + completed job' + failed job'
       = Z.of_nat (size (pending_approvals job)) + completed job + failed job)
    ∧ status job' =
      if bool_decide (size (pending_approvals job') = 0%nat)
         && bool_decide (completed job' + failed job' >= total job')
      then Completed else status job.
Proof.
  intros Hj Hd.
  rewrite (accept_extracted_pending _ _ _ _ _ api job data Hj Hd).
  cbn [snd processing_jobs]. rewrite lookup_insert_eq. eexists. split; [done|].
  destruct (resolve_job save ts accept dom data job Hd) as (Hs & Ht & Hp & Hc).
  set (job1 := (resolve save ts accept dom data job).1) in *.
  destruct (close_if_done_fields job1) as (Ht' & Hc' & Hf' & Hp' & _).
  rewrite Ht', Hc', Hf', Hp'.
  pose proof (map_size_delete_Some dom (pending_approvals job)
                ltac:(eauto)) as Hsize.
  pose proof (map_size_ne_0_lookup_2 (pending_approvals job) dom
                ltac:(eauto)) as Hn.
  rewrite Hp in Hc |- *.
  split; [done|]. split; [done|]. split; [lia|]. split; [lia|].
  unfold close_if_done. rewrite Hp, Ht. destruct (_ && _); [done|exact Hs].
Qed.

(** What a call of the endpoint does to any job. *)
Lemma accept_extracted_job save ts input api jid job :
  processing_jobs api !! jid = Some job →
  ∃ job',
    processing_jobs (accept_extracted save ts input api).2 !! jid = Some job'
    ∧ total job' = total job
    ∧ (∀ d, pending_approvals job !! d = None →
            pending_approvals job' !! d = None)
    ∧ (Z.of_nat (size (pending_approvals job')) + completed job' + failed job'
       = Z.of_nat (size (pending_approvals job)) + completed job + failed job)
    ∧ (status job' = status job
       ∨ status job' = Completed ∧ pending_approvals job' = ∅).
Proof.
  intros Hj.
  assert (Hsame : processing_jobs (accept_extracted save ts input api).2 !! jid
                  = Some job → ∃ job',
    processing_jobs (accept_extracted save ts input api).2 !! jid = Some job'
    ∧ total job' = total job
    ∧ (∀ d, pending_approvals job !! d = None →
            pending_approvals job' !! d = None)
    ∧ (Z.of_nat (size (pending_approvals job')) + completed job' + failed job'
       = Z.of_nat (size (pending_approvals job)) + completed job + failed job)
    ∧ (status job' = status job
       ∨ status job' = Completed ∧ pending_approvals job' = ∅)).
  { intros H. exists job. split; [done|]. split; [done|]. split; [done|].
    split; [done|]. by left. }
  destruct input as [jid' dom accept].
  destruct (processing_jobs api !! jid') as [job0|] eqn:Ej0.
  - destruct (pending_approvals job0 !! dom) as [data|] eqn:Ed.
    + destruct (decide (jid' = jid)) as [->|Hne].
      * assert (job0 = job) as -> by congruence.
        destruct (accept_extracted_resolves save ts jid dom accept api job data
                    Hj Ed) as (job' & Hj' & Ht & Hp & _ & Hsum & Hst).
        exists job'. split; [done|]. split; [done|]. split.
        { intros d Hnone. rewrite Hp.
          destruct (decide (d = dom)) as [->|Hd];
            [apply lookup_delete_eq|by rewrite lookup_delete_ne]. }
        split; [done|]. rewrite Hst.
        destruct (bool_decide (size (pending_approvals job') = 0%nat)) eqn:Hz;
          cbn [andb].
        -- apply bool_decide_eq_true in Hz. apply map_size_empty_inv in Hz.
           destruct (bool_decide _); [by right|by left].
        -- by left.
      * apply Hsame.
        rewrite (accept_extracted_pending _ _ _ _ _ api job0 data Ej0 Ed).
        cbn [snd processing_jobs]. by rewrite lookup_insert_ne.
    + apply Hsame. unfold accept_extracted. cbn [in_job_id in_domain].
      by rewrite Ej0, Ed.
  - apply Hsame. unfold accept_extracted. cbn [in_job_id].
    by rewrite Ej0.
Qed.

Lemma process_one_queued pd ts job dom :
  let job' := process_one pd ts job dom in
  status job' = status job
  ∧ total job' = total job
  ∧ completed job' = completed job
  ∧ match queued pd dom with
    | Some data =>
        pending_approvals job' = <[dom := data]> (pending_approvals job)
        ∧ failed job' = failed job
    | None =>
        pending_approvals job' = pending_approvals job
        ∧ failed job' = failed job + 1
    end.
Proof.
  unfold process_one, queued. destruct (pd dom) as [result|msg]; [|done].
  by destruct (truthy _ && _).
Qed.

(** The loop of the background task over domains that are not queued
    yet. *)
Lemma fold_process_one_accounts pd ts doms job :
  NoDup doms →
  (∀ d, d ∈ doms → pending_approvals job !! d = None) →
  let job' := fold_left (process_one pd ts) doms job in
  status job' = status job
  ∧ total job' = total job
  ∧ completed job' = completed job
  ∧ (Z.of_nat (size (pending_approvals job')) + failed job'
     = Z.of_nat (size (pending_approvals job)) + failed job
       + Z.of_nat (length doms))
  ∧ (∀ d, pending_approvals job' !! d =
          if decide (d ∈ doms) then queued pd d
          else pending_approvals job !! d).
Proof.
  revert job. induction doms as [|dom doms IH]; intros job Hnd Hfresh.
  - cbn [fold_left length]. split; [done|]. split; [done|]. split; [done|].
    split; [lia|]. intros d. rewrite decide_False; [done|apply not_elem_of_nil].
  - apply NoDup_cons in Hnd as [Hdom Hnd]. cbn [fold_left].
    destruct (process_one_queued pd ts job dom) as (Hs & Ht & Hc & Hq).
    set (job1 := process_one pd ts job dom) in *.
    assert (Hdom0 : pending_approvals job !! dom = None).
    { apply Hfresh, elem_of_cons. by left. }
    assert (Hfresh1 : ∀ d, d ∈ doms → pending_approvals job1 !! d = None).
    { intros d Hd.
      assert (Hne : dom ≠ d) by (by intros ->).
      assert (H0 : pending_approvals job !! d = None).
      { apply Hfresh, elem_of_cons. by right. }
      destruct (queued pd dom); destruct Hq as [-> _];
        [by rewrite lookup_insert_ne|done]. }
    destruct (IH job1 Hnd Hfresh1) as (Hs' & Ht' & Hc' & Hsum & Hget).
    split; [congruence|]. split; [congruence|]. split; [congruence|].
    split.
    + rewrite Hsum. cbn [length].
      destruct (queued pd dom) as [data|]; destruct Hq as [Hp Hf];
        rewrite Hp, Hf; [|lia].
      rewrite map_size_insert_None by done. lia.
    + intros d. rewrite Hget.
      destruct (decide (d = dom)) as [->|Hne].
      * rewrite decide_False by done.
        rewrite (decide_True (P := dom ∈ dom :: doms));
          [|apply elem_of_cons; by left].
        destruct (queued pd dom) as [data|]; destruct Hq as [-> _];
          [apply lookup_insert_eq|done].
      * assert (Hstep : pending_approvals job1 !! d = pending_approvals job !! d).
        { destruct (queued pd dom); destruct Hq as [-> _];
            [by rewrite lookup_insert_ne|done]. }
        rewrite Hstep. destruct (decide (d ∈ doms)) as [Hin|Hin].
        -- rewrite decide_True; [done|apply elem_of_cons; by right].
        -- rewrite decide_False; [done|].
           intros [?|?]%elem_of_cons; congruence.
Qed.

(** The calls of the endpoint keep the account of a job. *)
Lemma accept_calls_job calls api jid job :
  processing_jobs api !! jid = Some job →
  ∃ job',
    processing_jobs (accept_calls calls api) !! jid = Some job'
    ∧ total job' = total job
    ∧ (∀ d, pending_approvals job !! d = None →
            pending_approvals job' !! d = None)
    ∧ (Z.of_nat (size (pending_approvals job')) + completed job' + failed job'
       = Z.of_nat (size (pending_approvals job)) + completed job + failed job)
    ∧ (status job' = status job
       ∨ status job' = Completed ∧ pending_approvals job' = ∅).
Proof.
  revert api job. induction calls as [|[[save ts] input] calls IH];
    intros api job Hj.
  - exists job. split; [done|]. split; [done|]. split; [done|].
    split; [done|]. by left.
  - cbn [accept_calls fold_left fst snd].
    destruct (accept_extracted_job save ts input api jid job Hj)
      as (job1 & Hj1 & Ht1 & Hp1 & Hsum1 & Hst1).
    destruct (IH _ _ Hj1) as (job2 & Hj2 & Ht2 & Hp2 & Hsum2 & Hst2).
    exists job2. split; [exact Hj2|]. split; [congruence|].
    split; [by intros d ?%Hp1%Hp2|]. split; [lia|].
    destruct Hst2 as [Hst2|Hst2]; [|by right].
    destruct Hst1 as [Hst1|[Hst1 Hempty]]; [left; congruence|].
    right. split; [congruence|]. apply map_eq. intros d.
    rewrite lookup_empty. apply Hp2. by rewrite Hempty, lookup_empty.
Qed.

(** X12. A sequential job over domains that are pairwise distinct, after
    its background task has ended and after any calls of the approval
    endpoint: every domain is accounted for once, as pending, completed or
    failed; before any call the pending entries are the profiles of the
    domains that were extracted; the job is waiting for approval or
    completed, and completed only with no entry pending; and the call that
    resolves the last pending entry completes it, whether it approves or
    rejects and whether the persistence raises or not. *)
Theorem approvals_account_for_every_domain pd ts jid doms api calls :
  NoDup doms →
  let api1 := process_domains_background pd ts jid doms api in
  let api2 := accept_calls calls api1 in
  (∃ job1, processing_jobs api1 !! jid = Some job1
     ∧ status job1 = WaitingApproval
     ∧ completed job1 = 0
     ∧ ∀ d, pending_approvals job1 !! d =
            if decide (d ∈ doms) then queued pd d else None)
  ∧ ∃ job, processing_jobs api2 !! jid = Some job
     ∧ total job = Z.of_nat (length doms)
     ∧ (Z.of_nat (size (pending_approvals job)) + completed job + failed job
        = total job)
     ∧ (status job = WaitingApproval ∨ status job = Completed)
     ∧ (status job = Completed → pending_approvals job = ∅)
     ∧ (∀ d, is_Some (pending_approvals job !! d) →
             d ∈ doms ∧ is_Some (queued pd d))
     ∧ (∀ save ts' d accept,
          is_Some (pending_approvals job !! d) →
          size (pending_approvals job) = 1%nat →
          ∃ job',
            processing_jobs
              (accept_extracted save ts' (mkAcceptInput jid d accept) api2).2
              !! jid = Some job'
            ∧ status job' = Completed
            ∧ pending_approvals job' = ∅
            ∧ completed job' + failed job' = total job').
Proof.
  intros Hnd api1 api2.
  pose proof (process_domains_background_job pd ts jid doms api) as Hjob1.
  fold api1 in Hjob1.
  destruct (fold_process_one_accounts pd ts doms (new_job ts doms) Hnd)
    as (Hs & Ht & Hc & Hsum & Hget); [done|].
  set (job0 := fold_left (process_one pd ts) doms (new_job ts doms)) in *.
  set (job1 := finish ts job0) in *.
  assert (Hget1 : ∀ d, pending_approvals job1 !! d =
                       if decide (d ∈ doms) then queued pd d else None).
  { intros d. subst job1. cbn. rewrite Hget. by case_decide. }
  split.
  { exists job1. split; [done|]. split; [done|]. split; [|done].
    subst job1. cbn. by rewrite Hc. }
  destruct (accept_calls_job calls api1 jid job1 Hjob1)
    as (job & Hjob & Htot & Hpend & Hacc & Hst).
  fold api2 in Hjob.
  assert (Htotal : total job = Z.of_nat (length doms)).
  { rewrite Htot. subst job1. cbn. by rewrite Ht. }
  assert (Hbal : Z.of_nat (size (pending_approvals job)) + completed job
                 + failed job = total job).
  { rewrite Hacc, Htotal. subst job1. cbn. rewrite Hc.
    cbn in Hsum. rewrite map_size_empty in Hsum. cbn. lia. }
  exists job. split; [done|]. split; [done|]. split; [done|].
  split; [|split; [|split]].
  - destruct Hst as [->|[-> _]]; [by left|by right].
  - intros Hcomp. destruct Hst as [Hst|[_ ?]]; [|done].
    rewrite Hst in Hcomp. done.
  - intros d [data Hd].
    destruct (pending_approvals job1 !! d) as [data1|] eqn:E1.
    + rewrite Hget1 in E1. destruct (decide (d ∈ doms)); [|done].
      split; [done|]. by exists data1.
    + apply Hpend in E1. congruence.
  - intros save ts' d accept [data Hd] Hone.
    destruct (accept_extracted_resolves save ts' jid d accept api2 job data
                Hjob Hd) as (job' & Hj' & Ht' & Hp' & _ & Hsum' & Hst').
    assert (Hsize : size (pending_approvals job') = 0%nat).
    { rewrite Hp', map_size_delete_Some by eauto. lia. }
    exists job'. split; [done|].
    assert (Hdone : completed job' + failed job' = total job').
    { rewrite Hsize in Hsum'. lia. }
    split; [|split; [by apply map_size_empty_inv|done]].
    rewrite Hst', Hsize, Hdone.
    rewrite bool_decide_eq_true_2 by done.
    rewrite bool_decide_eq_true_2 by lia. done.
Qed.

Lemma approvals_account_for_every_domain_witness :
  let pd := λ dom : string,
    if decide (dom = "a.com")
    then Returned (mkAgentResult [("company_name", "A")] "extracted" None)
    else Raised "timeout" in
  let api1 := process_domains_background pd "12:00:00" "job-1"
                ["a.com"; "b.org"] (mkApi ∅ []) in
  let api2 := accept_calls [] api1 in
  (∃ job1, processing_jobs api1 !! "job-1" = Some job1
     ∧ status job1 = WaitingApproval
     ∧ completed job1 = 0
     ∧ ∀ d, pending_approvals job1 !! d =
            if decide (d ∈ ["a.com"; "b.org"]) then queued pd d else None)
  ∧ ∃ job, processing_jobs api2 !! "job-1" = Some job
     ∧ total job = Z.of_nat (length ["a.com"; "b.org"])
     ∧ (Z.of_nat (size (pending_approvals job)) + completed job + failed job
        = total job)
     ∧ (status job = WaitingApproval ∨ status job = Completed)
     ∧ (status job = Completed → pending_approvals job = ∅)
     ∧ (∀ d, is_Some (pending_approvals job !! d) →
             d ∈ ["a.com"; "b.org"] ∧ is_Some (queued pd d))
     ∧ (∀ save ts' d accept,
          is_Some (pending_approvals job !! d) →
          size (pending_approvals job) = 1%nat →
          ∃ job',
            processing_jobs
              (accept_extracted save ts' (mkAcceptInput "job-1" d accept) api2).2
              !! "job-1" = Some job'
            ∧ status job' = Completed
            ∧ pending_approvals job' = ∅
            ∧ completed job' + failed job' = total job').
Proof.
  intros pd.
  apply (approvals_account_for_every_domain pd "12:00:00" "job-1"
           ["a.com"; "b.org"] (mkApi ∅ []) []).
  by apply (bool_decide_unpack _).
Defined.


End ApprovalQueue.

(** ** Normalised keys are stable *)

Section StableKeys.
Import PyStr ApiNormalize.

Implicit Types (s t d cur entry : string) (c : ascii) (l : list string).

Local Arguments String.append !_ _ / : simpl nomatch.

Lemma isspace_lower_char c : isspace (lower_char c) = isspace c.
Proof. by destruct c as [[] [] [] [] [] [] [] []]. Qed.

Lemma lower_char_comma c : lower_char c = ","%char → c = ","%char.
Proof. destruct c as [[] [] [] [] [] [] [] []]; cbv; congruence. Qed.

Lemma split_from_chars (P : ascii → Prop) cur s t :
  Forall P (chars cur) → Forall P (chars s) → t ∈ split_from cur s →
  Forall P (chars t).
Proof.
  revert cur. induction s as [|c s IH]; intros cur Hcur Hs; simpl.
  - case_decide; [by intros ?%elem_of_nil|].
    by intros ->%list_elem_of_singleton.
  - apply Forall_cons in Hs as [Hc Hs]. destruct (isspace c).
    + case_decide.
      * apply IH; [constructor|done].
      * intros [->|Ht]%elem_of_cons; [done|]. revert Ht.
        apply IH; [constructor|done].
    + apply IH; [|done]. rewrite chars_app. apply Forall_app.
      split; [done|]. simpl. by repeat constructor.
Qed.

Lemma replace_chars a b s : a ≠ b → Forall (λ c, c ≠ a) (chars (replace a b s)).
Proof.
  intros Hab. induction s as [|c s IH]; simpl; [constructor|].
  constructor; [|done]. case_decide; congruence.
Qed.

(** A token holds neither white space nor a comma. *)
Lemma raw_token_chars raw t :
  t ∈ raw_tokens raw →
  t ≠ "" ∧ nospace t ∧ Forall (λ c, c ≠ ","%char) (chars t).
Proof.
  unfold raw_tokens. intros (entry & Ht & _)%list_elem_of_bind.
  unfold entry_tokens, split in Ht.
  destruct (split_from_tokens "" _ t ltac:(constructor) Ht) as [Hne Hns].
  split; [done|]. split; [done|].
  apply (split_from_chars _ "" (replace "," " " entry)); [constructor| |done].
  by apply replace_chars.
Qed.

(** The key of a token: what the second normalisation finds. *)
Lemma key_of_token raw t :
  t ∈ raw_tokens raw →
  let d := key_of t in
  nospace d
  ∧ Forall (λ c, c ≠ ","%char) (chars d)
  ∧ (d ≠ "" → entry_tokens d = [d] ∧ key_of d = d).
Proof.
  intros Ht d. destruct (raw_token_chars raw t Ht) as (Hne & Hns & Hcomma).
  assert (Hnf : normal_form t d).
  { apply key_of_normal_form; [by apply strip_nospace|done]. }
  destruct (normal_form_key t d Hnf) as (Hlow & Hhttp & Hhttps).
  destruct Hnf as (scheme & path & Hl & _ & Hslash & _).
  assert (Hsub : ∀ c, c ∈ chars d → c ∈ lower_char <$> chars t).
  { intros c Hc. rewrite <- lower_chars, Hl, !chars_app, !elem_of_app. tauto. }
  assert (Hspace : nospace d).
  { apply Forall_forall. intros c (c0 & -> & Hc0)%Hsub%list_elem_of_fmap.
    rewrite isspace_lower_char.
    by apply (proj1 (Forall_forall _ _) Hns). }
  assert (Hcom : Forall (λ c, c ≠ ","%char) (chars d)).
  { apply Forall_forall. intros c (c0 & -> & Hc0)%Hsub%list_elem_of_fmap.
    intros Heq%lower_char_comma.
    by apply (proj1 (Forall_forall _ _) Hcomma c0 Hc0). }
  split; [done|]. split; [done|]. intros Hd. split.
  - apply entry_tokens_single; [done| |done].
    intros Hin. by apply (proj1 (Forall_forall _ _) Hcom _ Hin).
  - unfold key_of. rewrite (strip_nospace d Hspace), Hlow, Hhttp, Hhttps.
    cbn [orb]. rewrite <- (append_empty_r d) at 1.
    apply split_head_slash_app; [done|by left].
Qed.

(** The second loop on a list without duplicates. *)
Lemma dedupe_NoDup l (seen : gset string) (acc : list string) :
  NoDup l → (∀ x, x ∈ l → x ∉ seen) →
  (fold_left dedupe_step l (seen, acc)).2 = acc ++ l.
Proof.
  revert seen acc. induction l as [|x l IH]; intros seen acc Hnd Hfresh.
  - cbn [fold_left snd]. by rewrite app_nil_r.
  - apply NoDup_cons in Hnd as [Hx Hnd]. cbn [fold_left].
    unfold dedupe_step at 2. cbn [fst snd].
    rewrite decide_False by (apply Hfresh, elem_of_cons; by left).
    rewrite IH; [by rewrite <- app_assoc|done|].
    intros y Hy [->%elem_of_singleton|Hs]%elem_of_union; [done|].
    revert Hs. apply Hfresh, elem_of_cons. by right.
Qed.

(** The result of [normalize_domains] as a set. *)
Lemma normalize_domains_keys (raw : list string) :
  normalize_domains raw
  = (fold_left dedupe_step (key_of <$> raw_tokens raw) (∅, [])).2
  ∧ NoDup (normalize_domains raw)
  ∧ (∀ d, d ∈ normalize_domains raw ↔ d ∈ key_of <$> raw_tokens raw).
Proof.
  assert (Hout : normalize_domains raw
            = (fold_left dedupe_step (key_of <$> raw_tokens raw) (∅, [])).2).
  { unfold normalize_domains. by rewrite fold_clean_entry. }
  destruct (dedupe_loop (key_of <$> raw_tokens raw)) as (_ & Hnd & Hmem & _).
  cbv zeta in Hnd, Hmem. by rewrite <- Hout in Hnd, Hmem.
Qed.

Lemma normalize_domains_nil (raw : list string) :
  normalize_domains raw = [] ↔ raw_tokens raw = [].
Proof.
  destruct (normalize_domains_keys raw) as (Hout & _ & Hmem). split.
  - intros Hnil. destruct (raw_tokens raw) as [|t tokens]; [done|].
    assert (Hin : key_of t ∈ normalize_domains raw)
      by (apply Hmem, elem_of_cons; by left).
    rewrite Hnil in Hin. by apply elem_of_nil in Hin.
  - intros Hnil. by rewrite Hout, Hnil.
Qed.

(** X14. Normalising a normalised list gives it back without the empty
    key, which the first loop skips as an entry although it produces it as
    the key of a token such as [http://]; a normalised list without the
    empty key is a fixed point. The result is empty exactly when the
    entries hold no token, it is never longer than the list of tokens, and
    its keys hold neither white space nor a comma. *)
Theorem normalize_domains_is_stable (raw : list string) :
  let out := normalize_domains raw in
  normalize_domains out = filter (λ d, d ≠ "") out
  ∧ (("" ∉ out) → normalize_domains out = out)
  ∧ (out = [] ↔ raw_tokens raw = [])
  ∧ (length out ≤ length (raw_tokens raw))%nat
  ∧ (∀ d, d ∈ out → nospace d ∧ (","%char ∉ chars d)).
Proof.
  intros out.
  destruct (normalize_domains_keys raw) as (Hout & Hnd & Hmem).
  fold out in Hout, Hnd, Hmem.
  assert (Hkey : ∀ d, d ∈ out →
            nospace d ∧ Forall (λ c, c ≠ ","%char) (chars d)
            ∧ (d ≠ "" → entry_tokens d = [d] ∧ key_of d = d)).
  { intros d (t & -> & Ht)%Hmem%list_elem_of_fmap. by eapply key_of_token. }
  assert (Hagain : ∀ l, (∀ d, d ∈ l → d ∈ out) →
            key_of <$> raw_tokens l = filter (λ d, d ≠ "") l).
  { induction l as [|d l IH]; intros Hl; [done|].
    unfold raw_tokens in *. rewrite bind_cons, fmap_app, filter_cons.
    rewrite IH by (intros d' Hd'; apply Hl, elem_of_cons; by right).
    destruct (decide (d = "")) as [->|Hd].
    - by rewrite decide_False by (by intros ?).
    - rewrite decide_True by done.
      destruct (Hkey d) as (_ & _ & Hfix); [apply Hl, elem_of_cons; by left|].
      destruct (Hfix Hd) as [-> Hk]. simpl. by rewrite Hk. }
  assert (Hstable : normalize_domains out = filter (λ d, d ≠ "") out).
  { unfold normalize_domains. rewrite fold_clean_entry, app_nil_l, Hagain by done.
    rewrite dedupe_NoDup; [done|by apply NoDup_filter|].
    intros x _. apply not_elem_of_empty. }
  split; [done|]. split; [|split; [|split]].
  - intros Hno. rewrite Hstable. clear -Hno.
    induction out as [|d out IH]; [done|]. rewrite filter_cons.
    rewrite decide_True.
    + f_equal. apply IH. intros ?. apply Hno, elem_of_cons. by right.
    + intros ->. apply Hno, elem_of_cons. by left.
  - apply normalize_domains_nil.
  - rewrite <- (length_fmap key_of (raw_tokens raw)).
    apply submseteq_length, NoDup_submseteq; [done|]. intros x. apply Hmem.
  - intros d Hd. destruct (Hkey d Hd) as (Hns & Hcom & _). split; [done|].
    intros Hin. by apply (proj1 (Forall_forall _ _) Hcom _ Hin).
Qed.

End StableKeys.

(** ** The endpoints that start a job *)

Section Start.
Import Py JobStatus ApiNormalize ApiServer.

Implicit Types (rd : RedisManager.Redis) (input : list string).

(** X15. [start_processing_redis] answers 503 when Redis is not available
    and 400 when the entries hold no token, in both cases without touching
    Redis; otherwise it creates one job whose domains are the normalised
    keys, pairwise distinct, with [total] equal to the [count] that it
    answers, all counters at zero and status pending, and queues one task
    for each key behind the tasks already waiting, in the order of the keys.
    [start_processing] adds a background task exactly when the entries hold
    a token, for the normalised keys, pairwise distinct and as many as the
    [count] that it answers. *)
Theorem start_processing_queues_each_key_once
    available now new_id input rd :
  let keys := normalize_domains input in
  let res := start_processing_redis available now new_id input rd in
  let seq := start_processing new_id input in
  NoDup keys
  ∧ (res.1 =
     if negb available then
       HttpError 503 "Redis not available. Make sure Redis server is running."
     else if decide (raw_tokens input = []) then
       HttpError 400 "No valid domains provided"
     else
       Ok (mkStarted new_id "Processing started (parallel with Redis)"
             (Z.of_nat (length keys)) (Some "redis_parallel")))
  ∧ ((∀ body, res.1 ≠ Ok body) → res.2 = rd)
  ∧ (∀ body, res.1 = Ok body →
       0 < st_count body
       ∧ RedisManager.results res.2 = RedisManager.results rd
       ∧ RedisManager.pending_queue res.2
         = RedisManager.pending_queue rd
           ++ ((λ d, RedisManager.mkTask new_id d now) <$> keys)
       ∧ RedisManager.get_queue_size res.2
         = RedisManager.get_queue_size rd + st_count body
       ∧ ∃ job,
           RedisManager.jobs res.2 !! RedisManager.job_key new_id = Some job
           ∧ RedisManager.domains job = keys
           ∧ RedisManager.total job = st_count body
           ∧ RedisManager.completed job = 0
           ∧ RedisManager.failed job = 0
           ∧ RedisManager.status job = Pending)
  ∧ (seq =
     if decide (raw_tokens input = []) then
       (HttpError 400 "No valid domains provided", None)
     else
       (Ok (mkStarted new_id "Processing started (sequential)"
              (Z.of_nat (length keys)) (Some "sequential")),
        Some (new_id, keys))).
Proof.
  intros keys res seq.
  destruct (normalize_domains_keys input) as (_ & Hnd & _). fold keys in Hnd.
  pose proof (normalize_domains_nil input) as Hnil. fold keys in Hnil.
  assert (Hdec : ∀ A (a b : A),
            (if decide (keys = []) then a else b)
            = if decide (raw_tokens input = []) then a else b).
  { intros A a b. destruct (decide (keys = [])) as [Hk|Hk].
    - by rewrite decide_True by (by apply Hnil).
    - rewrite decide_False; [done|]. by intros ?%Hnil. }
  split; [done|]. subst res seq. unfold start_processing_redis, start_processing.
  fold keys. cbv zeta. rewrite <- !Hdec.
  destruct available; cbn [negb].
  - destruct (decide (keys = [])) as [Hk|Hk]; cbn [fst snd].
    + split; [done|]. split; [done|]. split; [done|done].
    + split; [done|]. split; [intros Hno; by destruct (Hno _ eq_refl)|].
      split; [|done]. intros body [= <-]. cbn.
      split; [destruct keys; [done|cbn; lia]|]. split; [done|]. split; [done|].
      split.
      { unfold RedisManager.get_queue_size. cbn.
        rewrite length_app, length_fmap. lia. }
      eexists. split; [apply lookup_insert_eq|]. done.
  - cbn [fst snd]. split; [done|]. split; [done|]. split; [done|].
    by destruct (decide (keys = [])).
Qed.

End Start.

(** ** The graph that processes one domain *)

Section AgentRun.
Import Py AgentGraph.

Variable fetch : string → Outcome (string * string).
Variable preprocess_text : string → Outcome string.
Variable generate : string → string → Outcome (string * Profile).
Variable save_extracted_data : string → Profile → Outcome ().

Local Abbreviation process_domain :=
  (AgentGraph.process_domain fetch preprocess_text generate save_extracted_data).
Local Abbreviation extraction :=
  (AgentGraph.extraction fetch preprocess_text generate).

Lemma scrape_website_cases st :
  match fetch (domain st) with
  | Returned (html, text) =>
      ∃ msg, scrape_website fetch st = scraped html text msg st
  | Raised e =>
      ∃ msg, scrape_website fetch st = failed "scrape_failed" e msg st
  end.
Proof.
  unfold scrape_website. destruct (fetch (domain st)) as [[html text]|e]; eauto.
Qed.

Lemma preprocess_content_cases st :
  match preprocess_text (preprocessed_text st) with
  | Returned processed =>
      ∃ msg, preprocess_content preprocess_text st = preprocessed processed msg st
  | Raised e =>
      ∃ msg, preprocess_content preprocess_text st
             = failed "preprocess_failed" e msg st
  end.
Proof.
  unfold preprocess_content.
  destruct (preprocess_text (preprocessed_text st)) as [processed|e]; eauto.
Qed.

Lemma extract_with_llm_cases st :
  match generate (preprocessed_text st) (domain st) with
  | Returned (output, data) =>
      ∃ msg, extract_with_llm generate st = extracted output data msg st
  | Raised e =>
      ∃ msg, extract_with_llm generate st
             = failed "extraction_failed" e msg st
  end.
Proof.
  unfold extract_with_llm.
  destruct (generate (preprocessed_text st) (domain st)) as [[output data]|e];
    eauto.
Qed.

Lemma save_to_database_cases st sink :
  match save_extracted_data (domain st) (extracted_data st) with
  | Returned _ =>
      ∃ msg, save_to_database save_extracted_data st sink
             = (moved "saved" msg st, sink ++ [(domain st, extracted_data st)])
  | Raised e =>
      ∃ msg, save_to_database save_extracted_data st sink
             = (failed "save_failed" e msg st, sink)
  end.
Proof.
  unfold save_to_database.
  destruct (save_extracted_data (domain st) (extracted_data st)) as [[]|e];
    eauto.
Qed.

Ltac route :=
  unfold should_continue_after_scrape, should_continue_after_preprocess,
    should_continue_after_extract;
  cbn [domain preprocessed_text extracted_data status skip_save error
       messages scraped preprocessed extracted moved failed initial_state].

Ltac settle :=
  repeat first [rewrite decide_True by done | rewrite decide_False by done].

(** The run of the graph, by the node at which it ends. *)
Lemma process_domain_cases dom skip sink :
  let res := process_domain dom skip sink in
  domain res.1 = dom
  ∧ skip_save res.1 = skip
  ∧ ((∃ e, status res.1 = "scrape_failed" ∧ fetch dom = Raised e
           ∧ error res.1 = e ∧ extracted_data res.1 = []
           ∧ length (messages res.1) = 1%nat ∧ res.2 = sink)
     ∨ (∃ html text e,
          status res.1 = "preprocess_failed"
          ∧ fetch dom = Returned (html, text)
          ∧ preprocess_text text = Raised e
          ∧ error res.1 = e ∧ extracted_data res.1 = []
          ∧ length (messages res.1) = 2%nat ∧ res.2 = sink)
     ∨ (∃ html text processed e,
          status res.1 = "extraction_failed"
          ∧ fetch dom = Returned (html, text)
          ∧ preprocess_text text = Returned processed
          ∧ generate processed dom = Raised e
          ∧ error res.1 = e ∧ extracted_data res.1 = []
          ∧ length (messages res.1) = 3%nat ∧ res.2 = sink)
     ∨ (∃ data,
          extraction dom data ∧ extracted_data res.1 = data
          ∧ error res.1 = ""
          ∧ skip = true ∧ status res.1 = "extracted"
          ∧ length (messages res.1) = 3%nat ∧ res.2 = sink)
     ∨ (∃ data,
          extraction dom data ∧ extracted_data res.1 = data
          ∧ error res.1 = ""
          ∧ skip = false ∧ status res.1 = "saved"
          ∧ save_extracted_data dom data = Returned ()
          ∧ length (messages res.1) = 4%nat
          ∧ res.2 = sink ++ [(dom, data)])
     ∨ (∃ data e,
          extraction dom data ∧ extracted_data res.1 = data
          ∧ error res.1 = e
          ∧ skip = false ∧ status res.1 = "save_failed"
          ∧ save_extracted_data dom data = Raised e
          ∧ length (messages res.1) = 4%nat ∧ res.2 = sink)).
Proof.
  intros res. subst res. unfold AgentGraph.process_domain, invoke. cbv zeta.
  set (st0 := initial_state dom skip).
  pose proof (scrape_website_cases st0) as H1. change (domain st0) with dom in H1.
  destruct (fetch dom) as [[html text]|e] eqn:Ef; destruct H1 as [msg1 ->].
  2: { route. settle.
       cbn [fst snd]. route. split; [done|]. split; [done|]. left. by exists e. }
  set (st1 := scraped html text msg1 st0).
  pose proof (preprocess_content_cases st1) as H2.
  change (preprocessed_text st1) with text in H2.
  route. settle.
  destruct (preprocess_text text) as [processed|e] eqn:Ep;
    destruct H2 as [msg2 ->].
  2: { route. settle.
       cbn [fst snd]. subst st1. route. split; [done|]. split; [done|].
       right; left. by exists html, text, e. }
  set (st2 := preprocessed processed msg2 st1).
  pose proof (extract_with_llm_cases st2) as H3.
  change (preprocessed_text st2) with processed in H3.
  change (domain st2) with dom in H3.
  route. settle.
  destruct (generate processed dom) as [[output data]|e] eqn:Eg;
    destruct H3 as [msg3 ->].
  2: { route. settle.
       cbn [fst snd]. subst st2 st1. route. split; [done|]. split; [done|].
       right; right; left. by exists html, text, processed, e. }
  assert (Hex : extraction dom data).
  { exists html, text, processed, output. by rewrite Ef, Ep, Eg. }
  set (st3 := extracted output data msg3 st2).
  route. settle.
  change (skip_save st2) with skip. destruct skip.
  { settle. cbn [fst snd]. subst st3 st2 st1. route.
    split; [done|]. split; [done|]. do 3 right. left. by exists data. }
  settle.
  pose proof (save_to_database_cases st3 sink) as H4.
  change (domain st3) with dom in H4. change (extracted_data st3) with data in H4.
  destruct (save_extracted_data dom data) as [[]|e] eqn:Es;
    destruct H4 as [msg4 ->]; cbn [fst snd]; subst st3 st2 st1; route.
  - split; [done|]. split; [done|]. do 4 right. left. by exists data.
  - split; [done|]. split; [done|]. do 5 right. by exists data, e.
Qed.

Lemma extraction_inj dom data data' :
  extraction dom data → extraction dom data' → data = data'.
Proof.
  intros (html & text & processed & output & Hf & Hp & Hg)
         (html' & text' & processed' & output' & Hf' & Hp' & Hg').
  rewrite Hf in Hf'. injection Hf' as <- <-.
  rewrite Hp in Hp'. injection Hp' as <-.
  rewrite Hg in Hg'. by injection Hg' as <- <-.
Qed.

(** What the graph knows of the extraction on [dom]: there is none, or
    its data. *)
Lemma process_domain_extraction dom skip sink :
  let res := process_domain dom skip sink in
  ((∀ data, ¬ extraction dom data)
   ∧ extracted_data res.1 = []
   ∧ res.2 = sink
   ∧ (status res.1 = "scrape_failed" ∨ status res.1 = "preprocess_failed"
      ∨ status res.1 = "extraction_failed")
   ∧ (1 ≤ length (messages res.1) ≤ 3)%nat)
  ∨ (extraction dom (extracted_data res.1)
     ∧ ((skip = true ∧ status res.1 = "extracted" ∧ res.2 = sink
         ∧ length (messages res.1) = 3%nat)
        ∨ (skip = false ∧ status res.1 = "saved"
           ∧ save_extracted_data dom (extracted_data res.1) = Returned ()
           ∧ res.2 = sink ++ [(dom, extracted_data res.1)]
           ∧ length (messages res.1) = 4%nat)
        ∨ (skip = false ∧ status res.1 = "save_failed"
           ∧ (∃ e, save_extracted_data dom (extracted_data res.1) = Raised e)
           ∧ res.2 = sink
           ∧ length (messages res.1) = 4%nat))).
Proof.
  intros res.
  destruct (process_domain_cases dom skip sink)
    as (_ & _ & [(e & Hs & Hf & _ & Hd & Hm & Hk)
                |[(html & text & e & Hs & Hf & Hp & _ & Hd & Hm & Hk)
                |[(html & text & processed & e & Hs & Hf & Hp & Hg & _ & Hd
                   & Hm & Hk)
                |[(data & Hex & Hd & _ & Hskip & Hs & Hm & Hk)
                |[(data & Hex & Hd & _ & Hskip & Hs & Hsave & Hm & Hk)
                |(data & e & Hex & Hd & _ & Hskip & Hs & Hsave & Hm & Hk)]]]]]);
    fold res in Hs, Hd, Hm, Hk.
  - left. split; [|rewrite Hm; by eauto 10 with lia].
    intros data (? & ? & ? & ? & Hf' & _). congruence.
  - left. split; [|rewrite Hm; by eauto 10 with lia].
    intros data (? & ? & ? & ? & Hf' & Hp' & _).
    rewrite Hf in Hf'. injection Hf' as <- <-. congruence.
  - left. split; [|rewrite Hm; by eauto 10 with lia].
    intros data (? & ? & ? & ? & Hf' & Hp' & Hg').
    rewrite Hf in Hf'. injection Hf' as <- <-.
    rewrite Hp in Hp'. injection Hp' as <-. congruence.
  - right. rewrite Hd. split; [done|]. by left.
  - right. rewrite Hd. split; [done|]. right; left. done.
  - right. rewrite Hd. split; [done|]. right; right. by eauto 10.
Qed.

(** The final state does not depend on the profile tables, which only
    grow. *)
Lemma process_domain_sink dom skip sink :
  (process_domain dom skip sink).1 = (process_domain dom skip []).1
  ∧ (process_domain dom skip sink).2
    = sink ++ (process_domain dom skip []).2.
Proof.
  unfold AgentGraph.process_domain, invoke. cbv zeta.
  destruct (decide (should_continue_after_scrape _ = "preprocess"));
    [|by rewrite app_nil_r].
  destruct (decide (should_continue_after_preprocess _ = "extract"));
    [|by rewrite app_nil_r].
  destruct (decide (should_continue_after_extract _ = "save"));
    [|by rewrite app_nil_r].
  unfold save_to_database.
  destruct (save_extracted_data _ _); cbn [fst snd]; [done|].
  by rewrite app_nil_r.
Qed.


End AgentRun.

(** ** The worker of the parallel mode *)

Section RedisWorkerRuns.
Import Py RedisWorker.

Variable update_worker_status :
  string → string → option string → Z → string → Outcome ().
Variable add_log : string → string → string → Outcome ().
Variable fetch : string → Outcome (string * string).
Variable preprocess_text : string → Outcome string.
Variable generate : string → string → Outcome (string * Profile).
Variable save_extracted_data : string → Profile → Outcome ().
Variable save_state : string → AgentGraph.AgentState → Outcome ().
Variable state_data : AgentGraph.AgentState → Profile.
Variable duration : string.
Variable now : Z.
Variable worker_id : string.

Local Abbreviation process_task :=
  (RedisWorker.process_task update_worker_status add_log fetch
     preprocess_text generate save_extracted_data save_state state_data
     duration now worker_id).
Local Abbreviation worker_turn :=
  (RedisWorker.worker_turn update_worker_status add_log fetch
     preprocess_text generate save_extracted_data save_state state_data
     duration now worker_id).
Local Abbreviation worker_turns :=
  (RedisWorker.worker_turns update_worker_status add_log fetch
     preprocess_text generate save_extracted_data save_state state_data
     duration now worker_id).
Local Abbreviation process_domain :=
  (AgentGraph.process_domain fetch preprocess_text generate
     save_extracted_data).

Local Arguments AgentGraph.process_domain : simpl never.
Local Arguments PyStr.slice_to : simpl never.
Local Arguments String.append : simpl never.

Ltac run_task :=
  unfold RedisWorker.process_task, try_except, call, call_process_domain,
    call_submit_result, count_processed, mbind, M_bind, bind, mret, M_ret,
    ret.

(** The statuses with which a run that saves can end. *)
Lemma process_domain_saving_status dom sink :
  AgentGraph.status (process_domain dom false sink).1 = "saved"
  ∨ (AgentGraph.status (process_domain dom false sink).1 ≠ "saved"
     ∧ PyStr.endswith "failed"
         (AgentGraph.status (process_domain dom false sink).1) = true
     ∧ AgentGraph.status (process_domain dom false sink).1 ≠ "").
Proof.
  destruct (process_domain_extraction fetch preprocess_text generate
              save_extracted_data dom false sink)
    as [(_ & _ & _ & Hs & _)
       |(_ & [(? & _)|[(_ & Hs & _)|(_ & Hs & _)]])]; [|done| |].
  - destruct Hs as [-> | [-> | ->]]; by right.
  - by left.
  - rewrite Hs. by right.
Qed.

Lemma process_task_effect task env :
  (∀ jid wid dom progress st,
     update_worker_status jid wid dom progress st = Returned ()) →
  (∀ jid level msg, add_log jid level msg = Returned ()) →
  let jid := RedisManager.w_job_id task in
  let dom := RedisManager.w_domain task in
  let g := process_domain dom false (sink env) in
  process_task task env =
  (Returned (),
   mkEnv (RedisManager.mkBroker
            (RedisManager.submit jid (RedisManager.store (broker env))
               (RedisWorker.report state_data now dom g.1))
            (RedisManager.processing (broker env)))
         g.2 (processed_count env + 1)).
Proof.
  intros Hup Hlog jid dom g. run_task. unfold RedisWorker.report.
  rewrite !Hup, !Hlog. fold jid dom. fold g.
  destruct (PyStr.endswith "failed" (AgentGraph.status g.1));
    cbn [negb fst snd broker sink processed_count]; [done|].
  destruct (save_state dom g.1) as [[]|e]; cbn [fst snd];
    rewrite ?Hup, ?Hlog; cbn [fst snd broker sink processed_count
      RedisManager.store RedisManager.processing]; done.
Qed.

(** X17. When the calls of [update_worker_status] and [add_log] return,
    [process_task] returns, has run the graph once, has counted the task
    and has submitted exactly one result for it: a success with the final
    state as data when the graph ended as [saved], and otherwise a failure
    with the error of the state, or with the status when that is empty.
    Whether the second save, the one of the worker, returns or raises
    makes no difference; the key under [processing:] is left in place. *)
Theorem process_task_submits_one_result task env :
  (∀ jid wid dom progress st,
     update_worker_status jid wid dom progress st = Returned ()) →
  (∀ jid level msg, add_log jid level msg = Returned ()) →
  let jid := RedisManager.w_job_id task in
  let dom := RedisManager.w_domain task in
  let g := process_domain dom false (sink env) in
  let success := bool_decide (AgentGraph.status g.1 = "saved") in
  let res := process_task task env in
  res.1 = Returned ()
  ∧ sink res.2 = g.2
  ∧ processed_count res.2 = processed_count env + 1
  ∧ RedisManager.processing (broker res.2)
    = RedisManager.processing (broker env)
  ∧ RedisManager.store (broker res.2)
    = RedisManager.submit_result now jid dom success
        (if success then Some (state_data g.1) else None)
        (if success then None
         else Some (if bool_decide (AgentGraph.error g.1 = "")
                    then "Status " +:+ AgentGraph.status g.1
                    else AgentGraph.error g.1))
        (RedisManager.store (broker env)).
Proof.
  intros Hup Hlog jid dom g success res. subst res success. run_task.
  rewrite !Hup, !Hlog. fold jid dom. fold g.
  destruct (process_domain_saving_status dom (sink env))
    as [Hs|(Hne & Hend & Hnz)];
    repeat match goal with H : _ |- _ => progress fold g in H end.
  - rewrite Hs. rewrite (bool_decide_eq_true_2 ("saved" = "saved")) by done.
    change (PyStr.endswith "failed" "saved") with false. cbn [negb fst snd].
    destruct (save_state dom g.1) as [[]|e]; cbn [fst snd];
      rewrite ?Hup, ?Hlog; cbn [fst snd broker sink processed_count
        RedisManager.store RedisManager.processing]; done.
  - rewrite Hend.
    rewrite (bool_decide_eq_false_2 (AgentGraph.status g.1 = "saved")) by done.
    rewrite (bool_decide_eq_false_2 (AgentGraph.status g.1 = "")) by done.
    cbn [negb andb fst snd]. rewrite andb_true_r.
    cbn [fst snd broker sink processed_count
         RedisManager.store RedisManager.processing]. done.
Qed.

Lemma process_task_raises msg task env :
  (∀ jid wid dom progress st,
     update_worker_status jid wid dom progress st = Raised msg) →
  process_task task env = (Raised msg, env).
Proof. intros Hup. run_task. by rewrite Hup. Qed.

Lemma worker_turn_raising msg started env :
  (∀ jid wid dom progress st,
     update_worker_status jid wid dom progress st = Raised msg) →
  worker_turn started env =
  (Returned (),
   mkEnv (RedisManager.get_next_task started worker_id (broker env)).2
         (sink env) (processed_count env)).
Proof.
  intros Hup. unfold RedisWorker.worker_turn, try_except, call_get_next_task,
    mbind, M_bind, bind, mret, M_ret, ret.
  destruct (RedisManager.get_next_task started worker_id (broker env))
    as [[task|] bk] eqn:E; cbn [fst snd]; [|done].
  by rewrite (process_task_raises msg task _ Hup).
Qed.

(** X18. When every call of [update_worker_status] raises, as it does on
    a manager that has no such method, [process_task] raises before the
    graph is run, and the loop of [start] goes on: each turn takes one
    task off the queue and nothing else happens, so that after any number
    of turns no result has been submitted, no job has changed, nothing has
    been saved and nothing has been counted as processed. *)
Theorem worker_without_status_updates_drops_tasks msg times env :
  (∀ jid wid dom progress st,
     update_worker_status jid wid dom progress st = Raised msg) →
  let res := worker_turns times env in
  (∀ task env', process_task task env' = (Raised msg, env'))
  ∧ res.1 = Returned ()
  ∧ RedisManager.pending_queue (RedisManager.store (broker res.2))
    = drop (length times)
        (RedisManager.pending_queue (RedisManager.store (broker env)))
  ∧ RedisManager.jobs (RedisManager.store (broker res.2))
    = RedisManager.jobs (RedisManager.store (broker env))
  ∧ RedisManager.results (RedisManager.store (broker res.2))
    = RedisManager.results (RedisManager.store (broker env))
  ∧ sink res.2 = sink env
  ∧ processed_count res.2 = processed_count env.
Proof.
  intros Hup res. split; [intros; by apply process_task_raises|].
  subst res. revert env. induction times as [|started times IH]; intros env.
  - done.
  - cbn [RedisWorker.worker_turns]. unfold mbind, M_bind, bind.
    rewrite (worker_turn_raising msg started env Hup).
    destruct (IH (mkEnv (RedisManager.get_next_task started worker_id
                           (broker env)).2 (sink env) (processed_count env)))
      as (Hr & Hq & Hj & Hres & Hs & Hc).
    split; [done|]. rewrite Hq, Hj, Hres, Hs, Hc.
    cbn [broker sink processed_count length].
    unfold RedisManager.get_next_task.
    destruct (RedisManager.pending_queue (RedisManager.store (broker env)))
      as [|t queue] eqn:E; cbn [snd RedisManager.store
        RedisManager.pending_queue RedisManager.jobs RedisManager.results].
    + by rewrite E, drop_nil.
    + done.
Qed.

End RedisWorkerRuns.

Section RedisWorkerWitnesses.
Import Py RedisWorker.

Lemma process_task_submits_one_result_witness :
  let fetch := λ _ : string, Returned ("<html>", "text") in
  let preprocess_text := λ t : string, Returned t in
  let generate :=
    λ _ _ : string, Returned ("{}", [("company_name", "A")]) in
  let save := λ (_ : string) (_ : Profile), Returned () in
  let task := RedisManager.mkWorkerTask "job-1" "a.com" 0 "worker-1" 1 in
  let env :=
    mkEnv (RedisManager.mkBroker
             (RedisManager.create_job 0 "job-1" ["a.com"]
                (RedisManager.mkRedis ∅ ∅ [])).2 ∅) [] 0 in
  let g := AgentGraph.process_domain fetch preprocess_text generate save
             "a.com" false (sink env) in
  let success := bool_decide (AgentGraph.status g.1 = "saved") in
  let res :=
    process_task (λ _ _ _ _ _, Returned ()) (λ _ _ _, Returned ())
      fetch preprocess_text generate save (λ _ _, Raised "no such table")
      (λ st, AgentGraph.extracted_data st) "0.10" 2 "worker-1" task env in
  res.1 = Returned ()
  ∧ sink res.2 = g.2
  ∧ processed_count res.2 = processed_count env + 1
  ∧ RedisManager.processing (broker res.2)
    = RedisManager.processing (broker env)
  ∧ RedisManager.store (broker res.2)
    = RedisManager.submit_result 2 "job-1" "a.com" success
        (if success then Some (AgentGraph.extracted_data g.1) else None)
        (if success then None
         else Some (if bool_decide (AgentGraph.error g.1 = "")
                    then "Status " +:+ AgentGraph.status g.1
                    else AgentGraph.error g.1))
        (RedisManager.store (broker env)).
Proof.
  intros fetch preprocess_text generate save task env.
  apply (process_task_submits_one_result
           (λ _ _ _ _ _, Returned ()) (λ _ _ _, Returned ())
           fetch preprocess_text generate save (λ _ _, Raised "no such table")
           (λ st, AgentGraph.extracted_data st) "0.10" 2 "worker-1" task env);
    reflexivity.
Defined.

Lemma worker_without_status_updates_drops_tasks_witness :
  let fetch := λ _ : string, Returned ("<html>", "text") in
  let preprocess_text := λ t : string, Returned t in
  let generate :=
    λ _ _ : string, Returned ("{}", [("company_name", "A")]) in
  let save := λ (_ : string) (_ : Profile), Returned () in
  let update := λ (_ _ : string) (_ : option string) (_ : Z) (_ : string),
    Raised (A := ()) "no attribute update_worker_status" in
  let env :=
    mkEnv (RedisManager.mkBroker
             (RedisManager.create_job 0 "job-1" ["a.com"; "b.org"]
                (RedisManager.mkRedis ∅ ∅ [])).2 ∅) [] 0 in
  let res :=
    worker_turns update (λ _ _ _, Returned ()) fetch preprocess_text generate
      save (λ _ _, Returned ()) (λ st, AgentGraph.extracted_data st)
      "0.10" 2 "worker-1" [1; 2; 3] env in
  (∀ task env',
     process_task update (λ _ _ _, Returned ()) fetch preprocess_text generate
       save (λ _ _, Returned ()) (λ st, AgentGraph.extracted_data st)
       "0.10" 2 "worker-1" task env'
     = (Raised "no attribute update_worker_status", env'))
  ∧ res.1 = Returned ()
  ∧ RedisManager.pending_queue (RedisManager.store (broker res.2))
    = drop (length [1; 2; 3])
        (RedisManager.pending_queue (RedisManager.store (broker env)))
  ∧ RedisManager.jobs (RedisManager.store (broker res.2))
    = RedisManager.jobs (RedisManager.store (broker env))
  ∧ RedisManager.results (RedisManager.store (broker res.2))
    = RedisManager.results (RedisManager.store (broker env))
  ∧ sink res.2 = sink env
  ∧ processed_count res.2 = processed_count env.
Proof.
  intros fetch preprocess_text generate save update env.
  apply (worker_without_status_updates_drops_tasks
           update (λ _ _ _, Returned ()) fetch preprocess_text generate
           save (λ _ _, Returned ()) (λ st, AgentGraph.extracted_data st)
           "0.10" 2 "worker-1" "no attribute update_worker_status"
           [1; 2; 3] env).
  reflexivity.
Defined.

End RedisWorkerWitnesses.

(** ** A job of the parallel mode, from its creation to its end *)

Section RedisJobRun.
Import Py JobStatus RedisWorker.

Variable update_worker_status :
  string → string → option string → Z → string → Outcome ().
Variable add_log : string → string → string → Outcome ().
Variable fetch : string → Outcome (string * string).
Variable preprocess_text : string → Outcome string.
Variable generate : string → string → Outcome (string * Profile).
Variable save_extracted_data : string → Profile → Outcome ().
Variable save_state : string → AgentGraph.AgentState → Outcome ().
Variable state_data : AgentGraph.AgentState → Profile.
Variable duration : string.
Variable now : Z.
Variable worker_id : string.

Hypothesis update_worker_status_returns :
  ∀ jid wid dom progress st,
    update_worker_status jid wid dom progress st = Returned ().
Hypothesis add_log_returns :
  ∀ jid level msg, add_log jid level msg = Returned ().

Local Abbreviation worker_turn :=
  (RedisWorker.worker_turn update_worker_status add_log fetch
     preprocess_text generate save_extracted_data save_state state_data
     duration now worker_id).
Local Abbreviation worker_turns :=
  (RedisWorker.worker_turns update_worker_status add_log fetch
     preprocess_text generate save_extracted_data save_state state_data
     duration now worker_id).
Local Abbreviation process_domain :=
  (AgentGraph.process_domain fetch preprocess_text generate
     save_extracted_data).
Local Abbreviation report := (RedisWorker.report state_data now).

Local Arguments AgentGraph.process_domain : simpl never.

(** The final state of the graph on a domain, saving. *)
Local Abbreviation final d := (process_domain d false []).1.

Lemma report_fields dom sink :
  let s := report dom (process_domain dom false sink).1 in
  RedisManager.s_now s = now
  ∧ RedisManager.s_domain s = dom
  ∧ RedisManager.s_success s
    = bool_decide (AgentGraph.status (final dom) = "saved").
Proof.
  destruct (process_domain_sink fetch preprocess_text generate
              save_extracted_data dom false sink) as [-> _].
  unfold RedisWorker.report.
  destruct (process_domain_saving_status fetch preprocess_text generate
              save_extracted_data dom []) as [Hs|(Hne & Hend & _)].
  - rewrite Hs. done.
  - rewrite Hend. cbn [negb].
    by rewrite (bool_decide_eq_false_2 (_ = "saved")) by done.
Qed.

Lemma saving_run_sink dom sink :
  (process_domain dom false sink).2 =
  sink ++ (if bool_decide (AgentGraph.status (final dom) = "saved")
           then [(dom, AgentGraph.extracted_data (final dom))] else []).
Proof.
  destruct (process_domain_sink fetch preprocess_text generate
              save_extracted_data dom false sink) as [_ ->]. f_equal.
  destruct (process_domain_extraction fetch preprocess_text generate
              save_extracted_data dom false [])
    as [(_ & _ & -> & Hs & _)
       |(_ & [(? & _)|[(_ & Hs & _ & -> & _)|(_ & Hs & _ & -> & _)]])];
    [|done| |].
  - rewrite bool_decide_eq_false_2; [done|].
    destruct Hs as [-> | [-> | ->]]; done.
  - by rewrite bool_decide_eq_true_2.
  - rewrite bool_decide_eq_false_2; [done|]. by rewrite Hs.
Qed.

(** One turn of the loop of the worker. *)
Lemma worker_turn_effect started env :
  worker_turn started env =
  match RedisManager.pending_queue (RedisManager.store (broker env)) with
  | [] => (Returned (), env)
  | t :: queue =>
      let jid := RedisManager.t_job_id t in
      let dom := RedisManager.t_domain t in
      let rd := RedisManager.store (broker env) in
      let g := process_domain dom false (sink env) in
      (Returned (),
       mkEnv (RedisManager.mkBroker
                (RedisManager.submit jid
                   (RedisManager.mkRedis (RedisManager.jobs rd)
                      (RedisManager.results rd) queue)
                   (report dom g.1))
                (<[RedisManager.processing_key worker_id jid dom :=
                     RedisManager.mkWorkerTask jid dom
                       (RedisManager.t_queued_at t) worker_id started]>
                   (RedisManager.processing (broker env))))
             g.2 (processed_count env + 1))
  end.
Proof.
  unfold RedisWorker.worker_turn, try_except, call_get_next_task,
    mbind, M_bind, bind, mret, M_ret, ret, RedisManager.get_next_task.
  destruct (RedisManager.pending_queue (RedisManager.store (broker env)))
    as [|t queue]; cbn [fst snd]; [by destruct env|].
  rewrite (process_task_effect update_worker_status add_log fetch
             preprocess_text generate save_extracted_data save_state
             state_data duration now worker_id _ _
             update_worker_status_returns add_log_returns).
  done.
Qed.

Lemma count_result_each t success (job : RedisManager.Job) :
  let job' := RedisManager.count_result t success job in
  RedisManager.total job' = RedisManager.total job
  ∧ RedisManager.domains job' = RedisManager.domains job
  ∧ RedisManager.completed job'
    = RedisManager.completed job + (if success then 1 else 0)
  ∧ RedisManager.failed job'
    = RedisManager.failed job + (if success then 0 else 1)
  ∧ (RedisManager.completed job' + RedisManager.failed job'
     >= RedisManager.total job' → RedisManager.status job' = Completed).
Proof.
  unfold RedisManager.count_result.
  case_bool_decide; [|case_decide]; destruct success; cbn;
    (split; [done|]); (split; [done|]); (split; [lia|]); (split; [lia|]);
    try done; intros; lia.
Qed.

Local Abbreviation saved d := (AgentGraph.status (final d) = "saved").
Local Abbreviation data d := (AgentGraph.extracted_data (final d)).

Lemma worker_turns_idle times env :
  RedisManager.pending_queue (RedisManager.store (broker env)) = [] →
  worker_turns times env = (Returned (), env).
Proof.
  intros Hq. induction times as [|started times IH]; [done|].
  cbn [RedisWorker.worker_turns]. unfold mbind, M_bind, bind.
  by rewrite worker_turn_effect, Hq.
Qed.

(** The turns of the worker on a queue that holds tasks of one job. *)
Lemma worker_turns_queue t0 jid ds times env (job : RedisManager.Job) :
  (length ds ≤ length times)%nat →
  RedisManager.pending_queue (RedisManager.store (broker env))
  = (λ d, RedisManager.mkTask jid d t0) <$> ds →
  RedisManager.jobs (RedisManager.store (broker env))
    !! RedisManager.job_key jid = Some job →
  let res := worker_turns times env in
  res.1 = Returned ()
  ∧ RedisManager.pending_queue (RedisManager.store (broker res.2)) = []
  ∧ processed_count res.2 = processed_count env + Z.of_nat (length ds)
  ∧ sink res.2
    = sink env ++ ((λ d, (d, data d)) <$> filter (λ d, saved d) ds)
  ∧ (∃ job',
       RedisManager.jobs (RedisManager.store (broker res.2))
         !! RedisManager.job_key jid = Some job'
       ∧ RedisManager.total job' = RedisManager.total job
       ∧ RedisManager.domains job' = RedisManager.domains job
       ∧ RedisManager.completed job'
         = RedisManager.completed job
           + Z.of_nat (length (filter (λ d, saved d) ds))
       ∧ RedisManager.failed job'
         = RedisManager.failed job + Z.of_nat (length ds)
           - Z.of_nat (length (filter (λ d, saved d) ds))
       ∧ (ds ≠ [] →
          RedisManager.completed job' + RedisManager.failed job'
          >= RedisManager.total job' →
          RedisManager.status job' = Completed))
  ∧ (∀ d,
       (d ∈ ds
        ∨ ∃ r, RedisManager.results (RedisManager.store (broker env))
                 !! RedisManager.result_key jid d = Some r
               ∧ RedisManager.r_success r = bool_decide (saved d)) →
       ∃ r, RedisManager.results (RedisManager.store (broker res.2))
              !! RedisManager.result_key jid d = Some r
            ∧ RedisManager.r_success r = bool_decide (saved d)).
Proof.
  revert times env job. induction ds as [|d ds IH]; intros times env job Hlen Hq Hj.
  - cbv zeta. rewrite worker_turns_idle by done. cbn [fst snd].
    split; [done|]. split; [done|]. split; [cbn; lia|].
    split; [by rewrite app_nil_r|]. split.
    + exists job. split; [done|]. split; [done|]. split; [done|].
      split; [cbn; lia|]. split; [cbn; lia|done].
    + intros d' [Hin|Hr]; [by apply elem_of_nil in Hin|done].
  - destruct times as [|started times]; [cbn in Hlen; lia|].
    cbn [length] in Hlen. rewrite fmap_cons in Hq.
    cbv zeta. cbn [RedisWorker.worker_turns]. unfold mbind, M_bind, bind.
    rewrite worker_turn_effect, Hq. cbv zeta.
    cbn [RedisManager.t_job_id RedisManager.t_domain RedisManager.t_queued_at].
    destruct (report_fields d (sink env)) as (Hnow & Hdom & Hsucc).
    set (s := report d (process_domain d false (sink env)).1) in *.
    rewrite (saving_run_sink d (sink env)).
    set (job1 := RedisManager.count_result now (RedisManager.s_success s) job).
    set (rd1 := RedisManager.submit jid _ s).
    assert (Hrd1 : RedisManager.pending_queue rd1
                   = (λ d, RedisManager.mkTask jid d t0) <$> ds
                   ∧ RedisManager.jobs rd1 !! RedisManager.job_key jid
                     = Some job1
                   ∧ RedisManager.results rd1
                     = <[RedisManager.result_key jid d :=
                           RedisManager.mkResult jid d (RedisManager.s_success s)
                             now (RedisManager.s_data s)
                             (RedisManager.s_error s)]>
                         (RedisManager.results
                            (RedisManager.store (broker env)))).
    { subst rd1. unfold RedisManager.submit, RedisManager.submit_result.
      cbn [RedisManager.jobs RedisManager.results RedisManager.pending_queue].
      rewrite Hj, Hnow, Hdom.
      cbn [RedisManager.jobs RedisManager.results RedisManager.pending_queue].
      split; [done|]. split; [apply lookup_insert_eq|done]. }
    destruct Hrd1 as (Hq1 & Hj1 & Hres1).
    match goal with |- context [worker_turns times ?e] => set (env1 := e) end.
    destruct (IH times env1 job1 ltac:(lia) Hq1 Hj1)
      as (Hr & Hq2 & Hc & Hs & (job2 & Hj2 & Ht2 & Hd2 & Hco2 & Hf2 & Hst2)
          & Hres2).
    destruct (count_result_each now (RedisManager.s_success s) job)
      as (Ht1 & Hd1 & Hco1 & Hf1 & Hst1). fold job1 in Ht1, Hd1, Hco1, Hf1, Hst1.
    rewrite Hsucc in Hco1, Hf1.
    split; [done|]. split; [done|].
    split; [rewrite Hc; subst env1; cbn [processed_count length]; lia|].
    rewrite filter_cons.
    split; [|split].
    + rewrite Hs. subst env1. cbn [sink]. rewrite <- app_assoc. f_equal.
      destruct (decide (saved d)) as [Hsv|Hsv].
      * by rewrite bool_decide_eq_true_2.
      * by rewrite bool_decide_eq_false_2.
    + exists job2. split; [done|]. split; [congruence|]. split; [congruence|].
      split; [|split].
      * rewrite Hco2, Hco1. destruct (decide (saved d)) as [Hsv|Hsv];
          [rewrite bool_decide_eq_true_2 by done
          |rewrite bool_decide_eq_false_2 by done]; cbn [length]; lia.
      * rewrite Hf2, Hf1. destruct (decide (saved d)) as [Hsv|Hsv];
          [rewrite bool_decide_eq_true_2 by done
          |rewrite bool_decide_eq_false_2 by done]; cbn [length]; lia.
      * intros _ Hge. destruct ds as [|d' ds']; [|by apply Hst2].
        rewrite worker_turns_idle in Hj2 by done. cbn [snd] in Hj2.
        subst env1. cbn [broker RedisManager.store] in Hj2.
        assert (job2 = job1) as -> by congruence. by apply Hst1.
    + intros d' Hd'. apply Hres2.
      destruct (decide (d' = d)) as [->|Hne].
      * right. subst env1. cbn [broker RedisManager.store]. rewrite Hres1.
        rewrite lookup_insert_eq. eexists. split; [done|]. done.
      * destruct Hd' as [[?|Hin]%elem_of_cons|(r & Hr' & Hs')]; [done|by left|].
        right. subst env1. cbn [broker RedisManager.store]. rewrite Hres1.
        rewrite lookup_insert_ne by (by intros ?%result_key_inj).
        by exists r.
Qed.


End RedisJobRun.

Section RedisJobRunWitness.
Import Py JobStatus RedisWorker.


End RedisJobRunWitness.
